(** * The time-advance engine of MUSIC (advance.cpp), embedded in Rocq

    The C++ [double] is IEEE 754 binary64, which is what Rocq's primitive
    [float] is: every arithmetic expression of the source is written with the
    primitive operations in the source's own order of evaluation, so that a
    cell can be run through the model with [vm_compute] and compared with a
    hand trace of the C++.  NaN, infinities and signed zeros are those of the
    machine.

    What advance.cpp takes from files that are not part of the sources at hand
    (the equation of state, the dissipation helper, the reconstruction, the
    hydro source terms, util.h, libm and Eigen) is a field of the records
    [Advance] and [Extern] below. *)

From Stdlib Require Import ZArith Lia Uint63 Reals Lra String Floats.
From stdpp Require Import base list.

#[local] Set Warnings "-inexact-float".
#[local] Open Scope float_scope.

(** ** Numbers *)

(** The conversion of a C++ [int] to [double]; exact on the 32-bit range. *)
Definition double_of_int (n : Z) : float :=
  if (n <? 0)%Z then - of_uint63 (of_Z (- n)) else of_uint63 (of_Z n).

(** [std::max(a, b)] is [(a < b) ? b : a]. *)
Definition std_max (a b : float) : float := if a <? b then b else a.

(** The closed-form causality conditions are rational expressions of their
    arguments.  They are written once over an arithmetic interface and read
    twice: with the machine's binary64 operations, which is the program, and
    with real numbers, which is the algebra the program's author solved.

    The source writes [abs(x)] without [std::] in the causality functions
    and [std::abs], [fabs] in [MaxSpeed]; all three are read as the
    absolute value of a double, the overload that [<cmath>] provides. *)
Class Arith (D : Type) : Type := {
  plus_ : D -> D -> D;
  minus_ : D -> D -> D;
  times_ : D -> D -> D;
  divide_ : D -> D -> D;
  negate_ : D -> D;
  abs_ : D -> D;
  lit : Z -> D
}.

Declare Scope arith_scope.
Delimit Scope arith_scope with A.
Notation "x + y" := (plus_ x y) : arith_scope.
Notation "x - y" := (minus_ x y) : arith_scope.
Notation "x * y" := (times_ x y) : arith_scope.
Notation "x / y" := (divide_ x y) : arith_scope.
Notation "- x" := (negate_ x) : arith_scope.
Notation "# n" := (lit n%Z) (at level 1, n at level 0, format "# n") : arith_scope.

#[export] Instance float_arith : Arith float := {
  plus_ := PrimFloat.add;
  minus_ := PrimFloat.sub;
  times_ := PrimFloat.mul;
  divide_ := PrimFloat.div;
  negate_ := PrimFloat.opp;
  abs_ := PrimFloat.abs;
  lit := double_of_int
}.

#[export] Instance real_arith : Arith R := {
  plus_ := Rplus;
  minus_ := Rminus;
  times_ := Rmult;
  divide_ := Rdiv;
  negate_ := Ropp;
  abs_ := Rabs;
  lit := IZR
}.

(** ** Data *)

(** [std::array<double, N>] is a list of [N] doubles; [v !!! i] reads [v[i]]
    and [<[i := x]> v] writes it.  Every index in advance.cpp is a constant or
    a loop counter inside the array. *)
#[export] Instance float_inhabited : Inhabited float := populate 0.

Definition TJbVec := list float.         (* 5 entries *)
Definition EnergyFlowVec := list float.  (* 4 entries *)
Definition FlowVec := list float.        (* 4 entries *)
Definition DumuVec := list float.
Definition VelocityShearVec := list float.
Definition VorticityVec := list float.
Definition DmuMuBoverTVec := list float.

(** cell.h, as advance.cpp uses it: the primitive variables [epsilon],
    [rhob], [u]; the 14 entries of [Wmunu] (10 of the shear tensor in the
    order 00 01 02 03 11 12 13 22 23 33, then the 4 of the diffusion
    current); the three cached eigenvalues; the bulk pressure. *)
Record Cell_small : Type := {
  epsilon : float;
  rhob : float;
  u : FlowVec;
  Wmunu : list float;
  Lambdas : list float;
  pi_b : float
}.

Module ReconstCell.
Record t : Type := mk { e : float; rhob : float; u : FlowVec }.
End ReconstCell.

(** grid.h: [arena(ix, iy, ieta)]. *)
Definition SCGrid := Z -> Z -> Z -> Cell_small.

(** ** Effects: what is printed or appended, and [exit] *)

Inductive Piece : Type :=
| Str (s : string)
| Int (n : Z)
| Dbl (x : float).

Inductive Event : Type :=
| MusicMessage (level : string) (text : list Piece)
| Cout (text : list Piece)
| Stderr (text : list Piece)
| Append (file : string) (line : list Piece).

(** How a call ends: it returns, the process exits, or the model's loop
    counter ran out (only [BinarySearch] loops without a static bound). *)
Inductive outcome (A : Type) : Type :=
| Ret (a : A)
| Exit (code : Z)
| OutOfFuel.
Arguments Ret {A} a.
Arguments Exit {A} code.
Arguments OutOfFuel {A}.

Definition M (A : Type) : Type := list Event * outcome A.

Definition ret {A} (a : A) : M A := ([], Ret a).
Definition exit {A} (code : Z) : M A := ([], Exit code).
Definition emit (ev : Event) : M unit := ([ev], Ret tt).
Definition bind {A B} (m : M A) (k : A -> M B) : M B :=
  match m with
  | (out, Ret a) => let '(out', r) := k a in (out ++ out', r)
  | (out, Exit code) => (out, Exit code)
  | (out, OutOfFuel) => (out, OutOfFuel)
  end.

Notation "x <- m ;; k" := (bind m (fun x => k))
  (at level 100, m at next level, right associativity).
Notation "m ;;; k" := (bind m (fun _ => k))
  (at level 100, right associativity).

(** [for (int i = lo; i < lo + n; i++) body], on a state [St]. *)
Fixpoint for_loop {St : Type} (n lo : nat) (body : nat -> St -> St) (s : St) : St :=
  match n with
  | O => s
  | S n' => for_loop n' (S lo) body (body lo s)
  end.

(** ** What advance.cpp is given *)

(** eos.h *)
Record EOS : Type := {
  get_cs2 : float -> float -> float;
  get_pressure : float -> float -> float;
  get_dpde : float -> float -> float;
  get_dpdrhob : float -> float -> float
}.

(** data.h: the fields of [InitData] that advance.cpp reads. *)
Record InitData : Type := {
  delta_tau : float;
  turn_on_rhob : Z;
  turn_on_shear : Z;
  turn_on_bulk : Z;
  turn_on_diff : Z;
  Initial_profile : Z;
  causality_method : Z;
  quest_revert_strength : float;
  echo_level : Z
}.

(** transport_coeffs.h: the two private members behind
    [get_shear_relax_time_factor] and [get_bulk_relax_time_factor]. *)
Record TransportCoeffs : Type := {
  get_shear_relax_time_factor : float;
  get_bulk_relax_time_factor : float
}.

(** dissipative.h.  [Make_uWRHS] and [Make_uPRHS] return what they leave in
    their output argument. *)
Record Diss : Type := {
  MakeWSource : float -> SCGrid -> SCGrid -> Z -> Z -> Z -> TJbVec;
  Make_uWRHS : float -> SCGrid -> Z -> Z -> Z -> Z -> Z -> float -> DumuVec -> float;
  Make_uWSource : float -> Cell_small -> Cell_small -> Z -> Z -> Z -> float ->
                  DumuVec -> VelocityShearVec -> VorticityVec -> float;
  Make_uPRHS : float -> SCGrid -> Z -> Z -> Z -> float -> float;
  Make_uPiSource : float -> Cell_small -> Cell_small -> Z -> float ->
                   VelocityShearVec -> float;
  Make_uqRHS : float -> SCGrid -> Z -> Z -> Z -> Z -> Z -> float;
  Make_uqSource : float -> Cell_small -> Cell_small -> Z -> Z -> float ->
                  DumuVec -> VelocityShearVec -> VorticityVec ->
                  DmuMuBoverTVec -> float
}.

(** reconst.h *)
Record Reconst : Type := {
  ReconstIt_shell : float -> TJbVec -> Cell_small -> ReconstCell.t
}.

(** hydro_source_base.h *)
Record HydroSourceBase : Type := {
  get_number_of_sources : Z;
  get_hydro_energy_source :
    float -> float -> float -> float -> FlowVec -> EnergyFlowVec;
  get_hydro_rhob_source : float -> float -> float -> float -> FlowVec -> float
}.

(** The members of [class Advance]. *)
Record Advance : Type := {
  DATA : InitData;
  eos : EOS;
  diss_helper : Diss;
  reconst_helper : Reconst;
  transport_coeffs_ : TransportCoeffs;
  hydro_source_terms_ptr : option HydroSourceBase
}.

(** What is neither a member nor in the sources at hand: [exp] of libm,
    [Util::small_eps], [Util::hbarc] and the two index maps of util.h, the
    real parts of the eigenvalues that Eigen's [EigenSolver] computes for a
    4x4 matrix given by rows, and [MakeDeltaQI], whose stencil goes through
    the [Neighbourloop] macro of grid.h and the minmod limiter: it either
    leaves the process through [MaxSpeed] or yields the vector [qi]. *)
Record Extern : Type := {
  exp : float -> float;
  small_eps : float;
  hbarc : float;
  map_2d_idx_to_1d : Z -> Z -> nat;
  map_1d_idx_to_2d : nat -> Z * Z;
  eigenvalues_real : list (list float) -> list float;
  MakeDeltaQI : float -> SCGrid -> Z -> Z -> Z -> Z -> M TJbVec
}.

(** ** transport_coeffs.h and the closed forms of [nCausalityConstraints] *)

Section Closed_forms.
Context {D : Type} `{Arith D}.
#[local] Open Scope arith_scope.

Definition get_tau_pipi_coeff : D := #10 / #7.
Definition get_delta_pipi_coeff : D := #4 / #3.
Definition get_lambda_piPi_coeff : D := #6 / #5.
Definition get_lambda_Pipi_coeff : D := #8 / #5.
Definition get_delta_PiPi_coeff : D := #2 / #3.

(** The six coefficient groups computed at the head of
    [nCausalityConstraints], from the squared speed of sound and the two
    relaxation-time factors. *)
Record nParts : Type := {
  transportPart_n13 : D;
  viscousPart1_n13 : D;
  viscousPart2_n13 : D;
  transportPart_n56 : D;
  viscousPart1_n56 : D;
  viscousPart2_n56 : D
}.

Definition make_nParts (cs2 shear_relax_time_factor bulk_relax_time_factor : D)
  : nParts := {|
  transportPart_n13 := #2 * #1 / shear_relax_time_factor;
  viscousPart1_n13 := get_lambda_piPi_coeff;
  viscousPart2_n13 := (- #1) / #2 * get_tau_pipi_coeff;
  transportPart_n56 :=
    cs2 + #4 / #3 * #1 / shear_relax_time_factor
    + #1 / bulk_relax_time_factor * (#1 / #3 - cs2) * (#1 / #3 - cs2);
  viscousPart1_n56 :=
    #2 / #3 * get_lambda_piPi_coeff + get_delta_PiPi_coeff + cs2;
  viscousPart2_n56 :=
    get_delta_pipi_coeff + #1 / #3 * get_tau_pipi_coeff
    + get_lambda_Pipi_coeff * (#1 / #3 - cs2) + cs2
|}.

(** [n1], [n3], [n5], [n6] for a cell whose bulk pressure is [pi_b] and whose
    first and third cached eigenvalues are [L0] and [L2]. *)
Definition nCondition (p : nParts) (eps P pi_b L0 L2 : D) : list D :=
  [ transportPart_n13 p + viscousPart1_n13 p * pi_b / (eps + P)
      + viscousPart2_n13 p * abs_ L0 / (eps + P);
    transportPart_n13 p + viscousPart1_n13 p * pi_b / (eps + P)
      + viscousPart2_n13 p * L2 / (eps + P);
    transportPart_n56 p + viscousPart1_n56 p * pi_b / (eps + P)
      + viscousPart2_n56 p * L0 / (eps + P);
    (#1 - transportPart_n56 p) + (#1 - viscousPart1_n56 p) * pi_b / (eps + P)
      + (#1 - viscousPart2_n56 p) * L2 / (eps + P) ].

(** The [switch] of the loop: the value given to [alp] for a negative
    condition number [i]. *)
Definition nCandidate (p : nParts) (eps P pi_b L0 L2 : D) (i : nat) : D :=
  match i with
  | 0%nat =>
      (- transportPart_n13 p)
      / (viscousPart1_n13 p * pi_b / (eps + P)
         + viscousPart2_n13 p * abs_ L0 / (eps + P))
  | 1%nat =>
      (- transportPart_n13 p)
      / (viscousPart1_n13 p * pi_b / (eps + P)
         + viscousPart2_n13 p * L2 / (eps + P))
  | 2%nat =>
      (- transportPart_n56 p)
      / (viscousPart1_n56 p * pi_b / (eps + P)
         + viscousPart2_n56 p * L0 / (eps + P))
  | 3%nat =>
      (- (#1 - transportPart_n56 p))
      / ((#1 - viscousPart1_n56 p) * pi_b / (eps + P)
         + (#1 - viscousPart2_n56 p) * L2 / (eps + P))
  | _ => #1
  end.

End Closed_forms.
Arguments nParts D : clear implicits.

(** ** The methods of [class Advance] *)

Fixpoint for_loopM {St : Type} (n lo : nat) (body : nat -> St -> M St) (s : St)
  : M St :=
  match n with
  | O => ret s
  | S n' => s' <- body lo s ;; for_loopM n' (S lo) body s'
  end.

Definition set_Wmunu (w : list float) (c : Cell_small) : Cell_small :=
  {| epsilon := epsilon c; rhob := rhob c; u := u c;
     Wmunu := w; Lambdas := Lambdas c; pi_b := pi_b c |}.

Definition set_Lambdas (l : list float) (c : Cell_small) : Cell_small :=
  {| epsilon := epsilon c; rhob := rhob c; u := u c;
     Wmunu := Wmunu c; Lambdas := l; pi_b := pi_b c |}.

Definition set_pi_b (p : float) (c : Cell_small) : Cell_small :=
  {| epsilon := epsilon c; rhob := rhob c; u := u c;
     Wmunu := Wmunu c; Lambdas := Lambdas c; pi_b := p |}.

Section Methods.
Variable ext : Extern.
Variable self : Advance.

(** The constructor's last lines: the flag is set only behind a non-null
    source pointer. *)
Definition flag_add_hydro_source : bool :=
  match hydro_source_terms_ptr self with
  | Some h =>
      if (Initial_profile (DATA self) =? 42)%Z
      then (0 <? get_number_of_sources h)%Z
      else true
  | None => false
  end.

(** [get_TJb(const Cell_small &, mu, nu)]; the two asserts ([mu] in 0..4,
    [nu] in 0..3) hold at each call below. *)
Definition get_TJb (grid_p : Cell_small) (mu nu : nat) : float :=
  let rhob := rhob grid_p in
  let u_nu := u grid_p !!! nu in
  if (mu =? 4)%nat then rhob * u_nu
  else
    let e := epsilon grid_p in
    let '(u_mu, gfac) :=
      if (mu =? nu)%nat
      then (u_nu, if (mu =? 0)%nat then -1 else 1)
      else (u grid_p !!! mu, 0) in
    let pressure := get_pressure (eos self) e rhob in
    (e + pressure) * u_mu * u_nu + pressure * gfac.

(** [get_TJb(const ReconstCell &, rk_flag, mu, nu)] *)
Definition get_TJb_reconst (grid_p : ReconstCell.t) (rk_flag : Z) (mu nu : nat)
  : float :=
  let rhob := ReconstCell.rhob grid_p in
  let u_nu := ReconstCell.u grid_p !!! nu in
  if (mu =? 4)%nat then rhob * u_nu
  else
    let e := ReconstCell.e grid_p in
    let '(u_mu, gfac) :=
      if (mu =? nu)%nat
      then (u_nu, if (mu =? 0)%nat then -1 else 1)
      else (ReconstCell.u grid_p !!! mu, 0) in
    let pressure := get_pressure (eos self) e rhob in
    (e + pressure) * u_mu * u_nu + pressure * gfac.

Definition UpdateTJbRK (grid_rk : ReconstCell.t) (grid_pt : Cell_small)
  : Cell_small :=
  {| epsilon := ReconstCell.e grid_rk;
     rhob := ReconstCell.rhob grid_rk;
     u := ReconstCell.u grid_rk;
     Wmunu := Wmunu grid_pt; Lambdas := Lambdas grid_pt; pi_b := pi_b grid_pt |}.

(** *** FirstRKStepT *)

(** Lines 121-143: [qi_source].  The four energy-momentum entries are tested
    with [isnan] one by one, and the process exits at the first that is NaN;
    the net-baryon entry is stored as it comes. *)
Definition hydro_source (tau_rk x_local y_local eta_s_local : float)
    (arena_current : SCGrid) (ix iy ieta : Z) : M TJbVec :=
  let qi_source := [0; 0; 0; 0; 0] in
  if flag_add_hydro_source then
    match hydro_source_terms_ptr self with
    | None => ret qi_source
    | Some h =>
        let u_local := u (arena_current ix iy ieta) in
        let j_mu :=
          get_hydro_energy_source h tau_rk x_local y_local eta_s_local u_local in
        qi_source <-
          for_loopM 4 0 (fun ii qi_source =>
            let qi_source := <[ii := tau_rk * (j_mu !!! ii)]> qi_source in
            if is_nan (qi_source !!! ii) then
              emit (MusicMessage "error"
                      [Str "qi_source is nan. i = "; Int (Z.of_nat ii)]) ;;;
              exit 0
            else ret qi_source) qi_source ;;
        if (turn_on_rhob (DATA self) =? 1)%Z then
          ret (<[4%nat :=
                 tau_rk * get_hydro_rhob_source h tau_rk x_local y_local
                                                 eta_s_local u_local]> qi_source)
        else ret qi_source
    end
  else ret qi_source.

(** Lines 150-170: one turn of the loop over [alpha]. *)
Definition rk_combine (tau : float) (rk_flag : Z) (prev_cell : Cell_small)
    (dwmn qi_source : TJbVec) (alpha : nat) (qi : TJbVec) : TJbVec :=
  let q := qi !!! alpha in
  let q := q - (dwmn !!! alpha) * delta_tau (DATA self) in
  let q := q + (qi_source !!! alpha) * delta_tau (DATA self) in
  let q := q + double_of_int rk_flag * get_TJb prev_cell alpha 0 * tau in
  let q := q * (1 / (1 + double_of_int rk_flag)) in
  <[alpha := q]> qi.

(** The vector handed to the reconstruction at line 173. *)
Definition FirstRKStepT_qi (tau x_local y_local eta_s_local : float)
    (arena_current arena_future arena_prev : SCGrid) (ix iy ieta rk_flag : Z)
  : M TJbVec :=
  let tau_rk := tau + double_of_int rk_flag * delta_tau (DATA self) in
  qi <- MakeDeltaQI ext tau_rk arena_current ix iy ieta rk_flag ;;
  qi_source <-
    hydro_source tau_rk x_local y_local eta_s_local arena_current ix iy ieta ;;
  let dwmn :=
    MakeWSource (diss_helper self) tau_rk arena_current arena_prev ix iy ieta in
  ret (for_loop 5 0
         (rk_combine tau rk_flag (arena_prev ix iy ieta) dwmn qi_source) qi).

(** The call writes [arena_future(ix, iy, ieta)] and nothing else; the model
    returns the new value of that cell. *)
Definition FirstRKStepT (tau x_local y_local eta_s_local : float)
    (arena_current arena_future arena_prev : SCGrid) (ix iy ieta rk_flag : Z)
  : M Cell_small :=
  qi <- FirstRKStepT_qi tau x_local y_local eta_s_local
          arena_current arena_future arena_prev ix iy ieta rk_flag ;;
  let tau_next := tau + delta_tau (DATA self) in
  let grid_rk_t :=
    ReconstIt_shell (reconst_helper self) tau_next qi (arena_current ix iy ieta) in
  ret (UpdateTJbRK grid_rk_t (arena_future ix iy ieta)).

(** *** solveEigenvaluesWmunu *)

Definition solveEigenvaluesWmunu (grid_pt : Cell_small) : Cell_small :=
  let W := Wmunu grid_pt in
  let A :=
    [ [ - (W !!! 0%nat); W !!! 1%nat; W !!! 2%nat; W !!! 3%nat ];
      [ - (W !!! 1%nat); W !!! 4%nat; W !!! 5%nat; W !!! 6%nat ];
      [ - (W !!! 2%nat); W !!! 5%nat; W !!! 7%nat; W !!! 8%nat ];
      [ - (W !!! 3%nat); W !!! 6%nat; W !!! 8%nat; W !!! 9%nat ] ] in
  let es := eigenvalues_real ext A in
  let min := es !!! 0%nat in
  let max := min in
  let '(min, max) :=
    for_loop 3 1 (fun i '(min, max) =>
      let temp := es !!! i in
      if max <? temp then (min, temp)
      else if temp <? min then (temp, max)
      else (min, max)) (min, max) in
  set_Lambdas [min; - min - max; max] grid_pt.

(** *** nCausalityConstraints *)

(** The body of the loop over the conditions: [alp] for condition [i], then
    the update of [minAlp]. *)
Definition select_step (alp minAlp : float) : float :=
  if (0 <? alp) && (alp <? minAlp) then alp
  else if alp <? 0 then 0
  else minAlp.

Definition nCausality_parts (grid_pt : Cell_small) : nParts float :=
  let eps := epsilon grid_pt in
  let rhob := rhob grid_pt in
  let cs2 := get_cs2 (eos self) eps rhob in
  make_nParts cs2 (get_shear_relax_time_factor (transport_coeffs_ self))
                  (get_bulk_relax_time_factor (transport_coeffs_ self)).

(** The vector [nCondition {n1, n3, n5, n6}]. *)
Definition nCausality_nCondition (grid_pt : Cell_small) : list float :=
  let eps := epsilon grid_pt in
  let rhob := rhob grid_pt in
  let P := get_pressure (eos self) eps rhob in
  nCondition (nCausality_parts grid_pt) eps P (pi_b grid_pt)
             (Lambdas grid_pt !!! 0%nat) (Lambdas grid_pt !!! 2%nat).

Definition nCausality_alp (grid_pt : Cell_small) (i : nat) : float :=
  let eps := epsilon grid_pt in
  let rhob := rhob grid_pt in
  let P := get_pressure (eos self) eps rhob in
  if (nCausality_nCondition grid_pt !!! i) <? 0
  then nCandidate (nCausality_parts grid_pt) eps P (pi_b grid_pt)
                  (Lambdas grid_pt !!! 0%nat) (Lambdas grid_pt !!! 2%nat) i
  else 1.

Definition nCausality_minAlp (grid_pt : Cell_small) : float :=
  for_loop 4 0 (fun i minAlp => select_step (nCausality_alp grid_pt i) minAlp) 1.

Definition nCausalityConstraints (grid_pt : Cell_small) (tau : float)
  : M Cell_small :=
  let eps := epsilon grid_pt in
  let minAlp := nCausality_minAlp grid_pt in
  let grid_pt' :=
    {| epsilon := epsilon grid_pt; rhob := rhob grid_pt; u := u grid_pt;
       Wmunu := (fun pi => pi * minAlp) <$> Wmunu grid_pt;
       Lambdas := (fun lam => lam * minAlp) <$> Lambdas grid_pt;
       pi_b := pi_b grid_pt * minAlp |} in
  (if 0.01 <? eps
   then emit (Append "necessary_causality_reduction_factor_wtau.dat"
                [Dbl minAlp; Str "   "; Dbl eps; Str "   "; Dbl tau])
   else ret tt) ;;;
  ret grid_pt'.

(** *** BinarySearch and the three sufficiency functions *)

(** [func] stands for the hook with its object and cell; the second component
    of the result is what the call leaves in [result].  The C++ loop has no
    static bound: [fuel] counts its turns. *)
Fixpoint BinarySearch (fuel : nat) (left right : float) (func : float -> float)
    (result : float) : M (bool * float) :=
  if 1e-4 <? right - left then
    match fuel with
    | O => ([], OutOfFuel)
    | S fuel' =>
        if right <? left then
          emit (Cout [Str "Upper beta bound is smaller than the lower beta bound"]) ;;;
          ret (false, result)
        else if 0 <? func right * func left then ret (false, result)
        else
          let result := (left + right) / 2 in
          if func result <? 0
          then BinarySearch fuel' left result func result
          else BinarySearch fuel' result right func result
    end
  else ret (true, result).

(** The locals that [Suff5], [Suff7], [Suff8] and [sCausalityConstraints]
    all start with. *)
Record sLocals : Type := {
  cs2 : float; L1 : float; L2 : float; L3 : float; Pi : float;
  s_relax : float; b_relax : float;
  lam_piPi : float; tau_pipi : float; del_PiPi : float;
  del_pipi : float; lam_Pipi : float
}.

Definition make_sLocals (grid_pt : Cell_small) : sLocals :=
  let eps := epsilon grid_pt in
  let rhob := rhob grid_pt in
  let cs2 := get_cs2 (eos self) eps rhob in
  let P := get_pressure (eos self) eps rhob in
  {| cs2 := cs2;
     L1 := (Lambdas grid_pt !!! 0%nat) / (eps + P);
     L2 := (Lambdas grid_pt !!! 1%nat) / (eps + P);
     L3 := (Lambdas grid_pt !!! 2%nat) / (eps + P);
     Pi := pi_b grid_pt / (eps + P);
     s_relax := 1 / get_shear_relax_time_factor (transport_coeffs_ self);
     b_relax := 1 / get_bulk_relax_time_factor (transport_coeffs_ self)
                * (1 / 3 - cs2) * (1 / 3 - cs2);
     lam_piPi := get_lambda_piPi_coeff;
     tau_pipi := get_tau_pipi_coeff;
     del_PiPi := get_delta_PiPi_coeff;
     del_pipi := get_delta_pipi_coeff;
     lam_Pipi := get_lambda_Pipi_coeff |}.

Definition Suff5 (beta : float) (grid_pt : Cell_small) : float :=
  let v := make_sLocals grid_pt in
  let '(cs2, L1, L3, Pi) := (cs2 v, L1 v, L3 v, Pi v) in
  let '(s_relax, b_relax) := (s_relax v, b_relax v) in
  let '(lam_piPi, tau_pipi, del_PiPi) := (lam_piPi v, tau_pipi v, del_PiPi v) in
  let '(del_pipi, lam_Pipi) := (del_pipi v, lam_Pipi v) in
  1 - cs2 - 4 / 3 * s_relax - b_relax
  - beta * ((cs2 - 1 + 2 / 3 * lam_piPi + del_PiPi) * Pi
            + (del_pipi + 1 / 3 * tau_pipi + lam_Pipi + cs2) * L3 + abs L1)
  - beta * beta * (del_pipi - 1 / 12 * tau_pipi)
    * (lam_Pipi + cs2 - 1 / 12 * tau_pipi) * (L3 + abs L1) * (L3 + abs L1)
    / (1 - s_relax
       + beta * ((1 - 1 / 2 * lam_piPi) * Pi - abs L1 - 1 / 2 * tau_pipi * L3)).

Definition Suff7 (beta : float) (grid_pt : Cell_small) : float :=
  let v := make_sLocals grid_pt in
  let '(cs2, L1, L3, Pi) := (cs2 v, L1 v, L3 v, Pi v) in
  let '(s_relax, lam_piPi, tau_pipi) := (s_relax v, lam_piPi v, tau_pipi v) in
  let '(del_pipi, lam_Pipi) := (del_pipi v, lam_Pipi v) in
  (s_relax + beta * (1 / 2 * lam_piPi * Pi - 1 / 2 * tau_pipi * abs L1))
  * (s_relax + beta * (1 / 2 * lam_piPi * Pi - 1 / 2 * tau_pipi * abs L1))
  - beta * beta * (del_pipi - 1 / 12 * tau_pipi)
    * (lam_Pipi + cs2 - 1 / 12 * tau_pipi) * (L3 + abs L1) * (L3 + abs L1).

Definition Suff8 (beta : float) (grid_pt : Cell_small) : float :=
  let v := make_sLocals grid_pt in
  let '(cs2, L1, L2, L3, Pi) := (cs2 v, L1 v, L2 v, L3 v, Pi v) in
  let '(s_relax, b_relax) := (s_relax v, b_relax v) in
  let '(lam_piPi, tau_pipi, del_PiPi) := (lam_piPi v, tau_pipi v, del_PiPi v) in
  let '(del_pipi, lam_Pipi) := (del_pipi v, lam_Pipi v) in
  4 / 3 * s_relax + b_relax + cs2
  + beta * ((2 / 3 * lam_piPi + del_PiPi + cs2) * Pi
            - (del_pipi + 1 / 3 * tau_pipi - lam_Pipi + cs2) * abs L1)
  - (1 + beta * (Pi + L2)) * (1 + beta * (Pi + L3)) / 3
    / (1 + beta * (Pi - abs L1)) / (1 + beta * (Pi - abs L1))
    * (1 + 2 * s_relax + beta * ((1 + lam_piPi) * Pi - abs Pi + tau_pipi * L3)).

(** *** sCausalityConstraints *)

Definition sCausality_beta (grid_pt : Cell_small) (i : nat) : float :=
  let v := make_sLocals grid_pt in
  let '(cs2, L1, L3, Pi) := (cs2 v, L1 v, L3 v, Pi v) in
  let '(s_relax, b_relax) := (s_relax v, b_relax v) in
  let '(lam_piPi, tau_pipi, del_PiPi) := (lam_piPi v, tau_pipi v, del_PiPi v) in
  let '(del_pipi, lam_Pipi) := (del_pipi v, lam_Pipi v) in
  let s1 := 1 - s_relax - L1 + (1 - 1 / 2 * lam_piPi) * Pi - 1 / 2 * tau_pipi * L3 in
  let s2 := 2 * s_relax + lam_piPi * Pi - tau_pipi * abs L1 in
  let s6 := 1 / 3 * s_relax + b_relax + cs2
            + (1 / 6 * lam_piPi + del_PiPi + cs2) * Pi
            + (1 / 6 * tau_pipi - del_pipi + lam_Pipi - cs2) * abs L1 in
  let sCondition := [s1; s2; s6] in
  if (sCondition !!! i) <? 0 then
    match i with
    | 0%nat =>
        (s_relax - 1)
        / (- abs L1 + (1 - 1 / 2 * lam_piPi) * Pi - 1 / 2 * tau_pipi * L3)
    | 1%nat => (-2 * s_relax) / (lam_piPi * Pi - tau_pipi * abs L1)
    | 2%nat =>
        - (1 / 3 * s_relax + b_relax + cs2)
        / ((1 / 6 * lam_piPi + del_PiPi + cs2) * Pi
           + (1 / 6 * tau_pipi - del_pipi + lam_Pipi - cs2) * abs L1)
    | _ => 1
    end
  else 1.

(** [minBeta] after the loop over [s1], [s2], [s6]. *)
Definition sCausality_minBeta (grid_pt : Cell_small) : float :=
  for_loop 3 0 (fun i minBeta => select_step (sCausality_beta grid_pt i) minBeta) 1.

(** Lines 571-582.  The object [objA] that the hook is given is built from
    the same [eos], [DATA] and source pointer, so the hook is [Suff5]. *)
Definition Suff5_stage (fuel : nat) (grid_pt : Cell_small) (minBeta : float)
  : M float :=
  if Suff5 minBeta grid_pt <? 0 then
    sr <- BinarySearch fuel 0 minBeta (fun beta => Suff5 beta grid_pt) 0 ;;
    let '(status, result) := sr in
    if status then ret result
    else if cs2 (make_sLocals grid_pt) <? 0.15 then ret 0
    else emit (Cout [Str "Suff5 Fails Binary Search"]) ;;; ret minBeta
  else ret minBeta.

(** Lines 583-592. *)
Definition Suff7_stage (fuel : nat) (grid_pt : Cell_small) (minBeta : float)
  : M float :=
  if Suff7 minBeta grid_pt <? 0 then
    sr <- BinarySearch fuel 0 minBeta (fun beta => Suff7 beta grid_pt) 0 ;;
    let '(status, result) := sr in
    if status then ret result
    else emit (Cout [Str "Suff7 Fails Binary Search"]) ;;; ret minBeta
  else ret minBeta.

(** Lines 593-602. *)
Definition Suff8_stage (fuel : nat) (grid_pt : Cell_small) (minBeta : float)
  : M float :=
  if Suff8 minBeta grid_pt <? 0 then
    sr <- BinarySearch fuel 0 minBeta (fun beta => Suff8 beta grid_pt) 0 ;;
    let '(status, result) := sr in
    if status then ret result
    else emit (Cout [Str "Suff8 Fails Binary Search"]) ;;; ret minBeta
  else ret minBeta.

Definition sCausalityConstraints (fuel : nat) (grid_pt : Cell_small)
    (tau : float) : M Cell_small :=
  let eps := epsilon grid_pt in
  let minBeta := sCausality_minBeta grid_pt in
  minBeta <- Suff5_stage fuel grid_pt minBeta ;;
  minBeta <- Suff7_stage fuel grid_pt minBeta ;;
  minBeta <- Suff8_stage fuel grid_pt minBeta ;;
  let grid_pt' :=
    {| epsilon := epsilon grid_pt; rhob := rhob grid_pt; u := u grid_pt;
       Wmunu := (fun pi => pi * minBeta) <$> Wmunu grid_pt;
       Lambdas := (fun lam => lam * minBeta) <$> Lambdas grid_pt;
       pi_b := pi_b grid_pt * minBeta |} in
  (if 0.01 <? eps
   then emit (Append "sufficient_causality_reduction_factor_wtau.dat"
                [Dbl minBeta; Str "   "; Dbl eps; Str "   "; Dbl tau])
   else ret tt) ;;;
  ret grid_pt'.

(** *** QuestRevert *)

(** The two ratios of lines 669-670. *)
Definition QuestRevert_factor (e_local : float) : float :=
  let eps_scale := 0.1 in
  let xi := 0.05 in
  10 * quest_revert_strength (DATA self)
  * (1 / (exp ext (- (e_local - eps_scale) / xi) + 1)
     - 1 / (exp ext (eps_scale / xi) + 1)).

Definition QuestRevert_rho_shear (grid_pt : Cell_small) : float :=
  let e_local := epsilon grid_pt in
  let rhob := rhob grid_pt in
  let factor := QuestRevert_factor e_local in
  let W := Wmunu grid_pt in
  let pi_00 := W !!! 0%nat in
  let pi_01 := W !!! 1%nat in
  let pi_02 := W !!! 2%nat in
  let pi_03 := W !!! 3%nat in
  let pi_11 := W !!! 4%nat in
  let pi_12 := W !!! 5%nat in
  let pi_13 := W !!! 6%nat in
  let pi_22 := W !!! 7%nat in
  let pi_23 := W !!! 8%nat in
  let pi_33 := W !!! 9%nat in
  let pisize :=
    pi_00 * pi_00 + pi_11 * pi_11 + pi_22 * pi_22 + pi_33 * pi_33
    - 2 * (pi_01 * pi_01 + pi_02 * pi_02 + pi_03 * pi_03)
    + 2 * (pi_12 * pi_12 + pi_13 * pi_13 + pi_23 * pi_23) in
  let p_local := get_pressure (eos self) e_local rhob in
  let eq_size := e_local * e_local + 3 * p_local * p_local in
  PrimFloat.sqrt (pisize / eq_size) / factor.

Definition QuestRevert_rho_bulk (grid_pt : Cell_small) : float :=
  let e_local := epsilon grid_pt in
  let rhob := rhob grid_pt in
  let factor := QuestRevert_factor e_local in
  let factor_bulk := factor in
  let pi_local := pi_b grid_pt in
  let bulksize := 3 * pi_local * pi_local in
  let p_local := get_pressure (eos self) e_local rhob in
  let eq_size := e_local * e_local + 3 * p_local * p_local in
  PrimFloat.sqrt (bulksize / eq_size) / factor_bulk.

Definition QuestRevert_warning (what : string) (grid_pt : Cell_small)
    (ieta ix iy : Z) (rho : float) : M unit :=
  let eps_scale := 0.1 in
  let e_local := epsilon grid_pt in
  if (eps_scale <? e_local) && (5 <? echo_level (DATA self))%Z then
    emit (MusicMessage "warning"
            [Str "ieta = "; Int ieta; Str ", ix = "; Int ix; Str ", iy = "; Int iy;
             Str ", energy density = "; Dbl (e_local * hbarc ext);
             Str what; Dbl rho])
  else ret tt.

Definition QuestRevert (tau : float) (grid_pt : Cell_small) (ieta ix iy : Z)
  : M Cell_small :=
  let rho_shear := QuestRevert_rho_shear grid_pt in
  let rho_bulk := QuestRevert_rho_bulk grid_pt in
  let rho_shear_max := 0.1 in
  grid_pt <-
    (if is_nan rho_shear then
       ret (for_loop 10 0 (fun mu g => set_Wmunu (<[mu := 0]> (Wmunu g)) g) grid_pt)
     else if rho_shear_max <? rho_shear then
       QuestRevert_warning " GeV/fm^3, shear |pi/(epsilon+3*P)| = "
                           grid_pt ieta ix iy rho_shear ;;;
       ret (for_loop 10 0
              (fun mu g =>
                 set_Wmunu (<[mu := rho_shear_max / rho_shear * (Wmunu g !!! mu)]>
                              (Wmunu g)) g) grid_pt)
     else ret grid_pt) ;;
  let rho_bulk_max := 0.1 in
  if rho_bulk_max <? rho_bulk then
    QuestRevert_warning " GeV/fm^3, bulk |Pi/(epsilon+3*P)| = "
                        grid_pt ieta ix iy rho_bulk ;;;
    ret (set_pi_b (rho_bulk_max / rho_bulk * pi_b grid_pt) grid_pt)
  else ret grid_pt.

(** *** QuestRevert_qmu *)

Definition QuestRevert_qmu (tau : float) (grid_pt : Cell_small) (ieta ix iy : Z)
  : M Cell_small :=
  let eps_scale := 0.1 in
  let factor := QuestRevert_factor (epsilon grid_pt) in
  let q_mu_local :=
    for_loop 4 0 (fun i q => <[i := Wmunu grid_pt !!! (10 + i)%nat]> q) [0; 0; 0; 0] in
  let q_size :=
    for_loop 4 0 (fun i q_size =>
      let gfac := if (i =? 0)%nat then -1 else 1 in
      q_size + gfac * (q_mu_local !!! i) * (q_mu_local !!! i)) 0 in
  grid_pt <-
    (if q_size <? 0 then
       emit (MusicMessage "warning"
               [Str "Advance::QuestRevert_qmu: q^mu q_mu = "; Dbl q_size;
                Str " < 0!"]) ;;;
       emit (MusicMessage "warning" [Str "Reset it to zero!!!!"]) ;;;
       ret (for_loop 4 0
              (fun i g =>
                 let idx_1d := map_2d_idx_to_1d ext 4 (Z.of_nat i) in
                 set_Wmunu (<[idx_1d := 0]> (Wmunu g)) g) grid_pt)
     else ret grid_pt) ;;
  let e_local := epsilon grid_pt in
  let rhob_local := rhob grid_pt in
  let rho_q := PrimFloat.sqrt (q_size / (rhob_local * rhob_local)) / factor in
  let rho_q_max := 0.1 in
  if rho_q_max <? rho_q then
    (if (eps_scale <? e_local) && (5 <? echo_level (DATA self))%Z then
       emit (MusicMessage "warning"
               [Str "ieta = "; Int ieta; Str ", ix = "; Int ix; Str ", iy = "; Int iy;
                Str ", energy density = "; Dbl (e_local * hbarc ext);
                Str "GeV/fm^3"; Str ", rhob = "; Dbl rhob_local; Str "1/fm^3";
                Str "-- diffusion |q/rhob| = "; Dbl rho_q])
     else ret tt) ;;;
    ret (for_loop 4 0
           (fun i g =>
              set_Wmunu (<[(10 + i)%nat := rho_q_max / rho_q * (q_mu_local !!! i)]>
                           (Wmunu g)) g) grid_pt)
  else ret grid_pt.

(** *** MaxSpeed *)

(** Lines 873-910: the numerator [num] and the denominator [den]. *)
Definition MaxSpeed_num (direc : nat) (grid_p : ReconstCell.t) : M float :=
  let utau := ReconstCell.u grid_p !!! 0%nat in
  let utau2 := utau * utau in
  let ux := abs (ReconstCell.u grid_p !!! direc) in
  let ut2mux2 := utau2 - ux * ux in
  let eps := ReconstCell.e grid_p in
  let rhob := ReconstCell.rhob grid_p in
  let vs2 := get_cs2 (eos self) eps rhob in
  let num_temp_sqrt := (ut2mux2 - (ut2mux2 - 1) * vs2) * vs2 in
  if 0 <=? num_temp_sqrt then
    ret (utau * ux * (1 - vs2) + PrimFloat.sqrt num_temp_sqrt)
  else
    let dpde := get_dpde (eos self) eps rhob in
    let p := get_pressure (eos self) eps rhob in
    let h := p + eps in
    if dpde <? 0.001 then
      ret (PrimFloat.sqrt (- (h * dpde * h * (dpde * (-1 + ut2mux2) - ut2mux2)))
           - h * (-1 + dpde) * utau * ux)
    else
      emit (Stderr [Str "WARNING: in MaxSpeed. "]) ;;;
      emit (Stderr [Str "Expression under sqrt in num="; Dbl num_temp_sqrt]) ;;;
      emit (Stderr [Str "at value e="; Dbl eps]) ;;;
      emit (Stderr [Str "at value p="; Dbl p]) ;;;
      emit (Stderr [Str "at value h="; Dbl h]) ;;;
      emit (Stderr [Str "at value rhob="; Dbl rhob]) ;;;
      emit (Stderr [Str "at value utau="; Dbl utau]) ;;;
      emit (Stderr [Str "at value uk="; Dbl ux]) ;;;
      emit (Stderr [Str "at value vs^2="; Dbl vs2]) ;;;
      emit (Stderr [Str "at value dpde="; Dbl (get_dpde (eos self) eps rhob)]) ;;;
      emit (Stderr [Str "at value dpdrhob="; Dbl (get_dpdrhob (eos self) eps rhob)]) ;;;
      emit (Stderr [Str "MaxSpeed: exiting."]) ;;;
      exit 1.

Definition MaxSpeed_den (grid_p : ReconstCell.t) : float :=
  let utau := ReconstCell.u grid_p !!! 0%nat in
  let utau2 := utau * utau in
  let vs2 :=
    get_cs2 (eos self) (ReconstCell.e grid_p) (ReconstCell.rhob grid_p) in
  utau2 * (1 - vs2) + vs2.

(** Lines 911-934: "check for problems".  [v] is [ux/utau]. *)
Definition MaxSpeed_check (f num den vs2 v : float) : M float :=
  if f <? 0 then
    emit (Stderr [Str "SpeedMax = "; Dbl f; Str " is negative."]) ;;;
    emit (Stderr [Str "Can't happen."]) ;;;
    exit 0
  else if f <? v then
    if negb (num =? 0) then
      if abs (f - v) <? 0.0001 then ret v
      else
        emit (Stderr [Str "SpeedMax-v = "; Dbl (f - v)]) ;;;
        emit (Stderr [Str "SpeedMax = "; Dbl f; Str " is smaller than v = "; Dbl v]) ;;;
        emit (Stderr [Str "Can't happen."]) ;;;
        exit 0
    else ret f
  else if 1 <? f then
    emit (Stderr [Str "SpeedMax = "; Dbl f; Str " is bigger than 1."]) ;;;
    emit (Stderr [Str "Can't happen."]) ;;;
    emit (Stderr [Str "SpeedMax = num/den, num = "; Dbl num; Str ", den = "; Dbl den]) ;;;
    emit (Stderr [Str "cs2 = "; Dbl vs2]) ;;;
    (* f = 1.; *)
    exit 1
  else ret f.

(** The value of [f] at line 934, before [f *= g[direc-1]]. *)
Definition MaxSpeed_f (direc : nat) (grid_p : ReconstCell.t) : M float :=
  let utau := ReconstCell.u grid_p !!! 0%nat in
  let ux := abs (ReconstCell.u grid_p !!! direc) in
  let vs2 :=
    get_cs2 (eos self) (ReconstCell.e grid_p) (ReconstCell.rhob grid_p) in
  num <- MaxSpeed_num direc grid_p ;;
  let den := MaxSpeed_den grid_p in
  let f := num / std_max den (small_eps ext) in
  MaxSpeed_check f num den vs2 (ux / utau).

Definition MaxSpeed (tau : float) (direc : nat) (grid_p : ReconstCell.t)
  : M float :=
  let g := [1; 1; 1 / tau] in
  f <- MaxSpeed_f direc grid_p ;;
  ret (f * (g !!! (direc - 1)%nat)).

(** *** FirstRKStepW *)

(** The kinematic quantities that [AdvanceIt] computes for the cell and
    hands over. *)
Record Kinematics : Type := {
  theta_local : float;
  a_local : DumuVec;
  sigma_local : VelocityShearVec;
  omega_local : VorticityVec;
  baryon_diffusion_vector : DmuMuBoverTVec
}.

(** Lines 203-274: the three evolved quantities.  [grid_pt_prev] and
    [grid_pt_c] are read, the cell of the future snapshot is written; the
    three snapshots are distinct buffers.  [map_1d_idx_to_2d] returns the
    pair that the C++ leaves in [mu] and [nu]. *)
Section Evolve.
Variable tau : float.
Variables arena_prev arena_current : SCGrid.
Variable rk_flag : Z.
Variable k : Kinematics.
Variables ieta ix iy : Z.

(** Lines 204-229. *)
Definition FirstRKStepW_shear (grid_pt_f : Cell_small) : Cell_small :=
  let grid_pt_prev := arena_prev ix iy ieta in
  let grid_pt_c := arena_current ix iy ieta in
  let rk := double_of_int rk_flag in
  let tau_now := tau + rk * delta_tau (DATA self) in
  if (turn_on_shear (DATA self) =? 1)%Z then
    for_loop 5 4 (fun idx_1d grid_pt_f =>
      let mu := fst (map_1d_idx_to_2d ext idx_1d) in
      let nu := snd (map_1d_idx_to_2d ext idx_1d) in
      let w_rhs :=
        Make_uWRHS (diss_helper self) tau_now arena_current ix iy ieta mu nu
                   (theta_local k) (a_local k) in
      let tempf :=
        (1 - rk) * ((Wmunu grid_pt_c !!! idx_1d) * (u grid_pt_c !!! 0%nat))
        + rk * ((Wmunu grid_pt_prev !!! idx_1d) * (u grid_pt_prev !!! 0%nat)) in
      let temps :=
        Make_uWSource (diss_helper self) tau_now grid_pt_c grid_pt_prev mu nu
                      rk_flag (theta_local k) (a_local k) (sigma_local k)
                      (omega_local k) in
      let tempf := tempf + temps * delta_tau (DATA self) in
      let tempf := tempf + w_rhs in
      let tempf :=
        tempf + rk * ((Wmunu grid_pt_c !!! idx_1d) * (u grid_pt_c !!! 0%nat)) in
      let tempf := tempf * (1 / (1 + rk)) in
      set_Wmunu (<[idx_1d := tempf / (u grid_pt_f !!! 0%nat)]> (Wmunu grid_pt_f))
                grid_pt_f) grid_pt_f
  else
    for_loop 5 4 (fun idx_1d grid_pt_f =>
      set_Wmunu (<[idx_1d := 0]> (Wmunu grid_pt_f)) grid_pt_f) grid_pt_f.

(** Lines 231-247. *)
Definition FirstRKStepW_bulk (grid_pt_f : Cell_small) : Cell_small :=
  let grid_pt_prev := arena_prev ix iy ieta in
  let grid_pt_c := arena_current ix iy ieta in
  let rk := double_of_int rk_flag in
  let tau_now := tau + rk * delta_tau (DATA self) in
  if (turn_on_bulk (DATA self) =? 1)%Z then
    let p_rhs :=
      Make_uPRHS (diss_helper self) tau_now arena_current ix iy ieta
                 (theta_local k) in
    let tempf :=
      (1 - rk) * (pi_b grid_pt_c * (u grid_pt_c !!! 0%nat))
      + rk * (pi_b grid_pt_prev * (u grid_pt_prev !!! 0%nat)) in
    let temps :=
      Make_uPiSource (diss_helper self) tau_now grid_pt_c grid_pt_prev rk_flag
                     (theta_local k) (sigma_local k) in
    let tempf := tempf + temps * delta_tau (DATA self) in
    let tempf := tempf + p_rhs in
    let tempf := tempf + rk * (pi_b grid_pt_c * (u grid_pt_c !!! 0%nat)) in
    let tempf := tempf * (1 / (1 + rk)) in
    set_pi_b (tempf / (u grid_pt_f !!! 0%nat)) grid_pt_f
  else set_pi_b 0 grid_pt_f.

(** Lines 249-274. *)
Definition FirstRKStepW_diff (grid_pt_f : Cell_small) : Cell_small :=
  let grid_pt_prev := arena_prev ix iy ieta in
  let grid_pt_c := arena_current ix iy ieta in
  let rk := double_of_int rk_flag in
  let tau_now := tau + rk * delta_tau (DATA self) in
  if (turn_on_diff (DATA self) =? 1)%Z then
    let mu := 4%Z in
    for_loop 3 11 (fun idx_1d grid_pt_f =>
      let nu := (Z.of_nat idx_1d - 10)%Z in
      let w_rhs :=
        Make_uqRHS (diss_helper self) tau_now arena_current ix iy ieta mu nu in
      let tempf :=
        (1 - rk) * ((Wmunu grid_pt_c !!! idx_1d) * (u grid_pt_c !!! 0%nat))
        + rk * ((Wmunu grid_pt_prev !!! idx_1d) * (u grid_pt_prev !!! 0%nat)) in
      let temps :=
        Make_uqSource (diss_helper self) tau_now grid_pt_c grid_pt_prev nu
                      rk_flag (theta_local k) (a_local k) (sigma_local k)
                      (omega_local k) (baryon_diffusion_vector k) in
      let tempf := tempf + temps * delta_tau (DATA self) in
      let tempf := tempf + w_rhs in
      let tempf :=
        tempf + rk * ((Wmunu grid_pt_c !!! idx_1d) * (u grid_pt_c !!! 0%nat)) in
      let tempf := tempf * (1 / (1 + rk)) in
      set_Wmunu (<[idx_1d := tempf / (u grid_pt_f !!! 0%nat)]> (Wmunu grid_pt_f))
                grid_pt_f) grid_pt_f
  else
    for_loop 4 10 (fun idx_1d grid_pt_f =>
      set_Wmunu (<[idx_1d := 0]> (Wmunu grid_pt_f)) grid_pt_f) grid_pt_f.

End Evolve.

Definition FirstRKStepW_evolve (tau : float)
    (arena_prev arena_current arena_future : SCGrid) (rk_flag : Z)
    (k : Kinematics) (ieta ix iy : Z) : Cell_small :=
  FirstRKStepW_diff tau arena_prev arena_current rk_flag k ieta ix iy
    (FirstRKStepW_bulk tau arena_prev arena_current rk_flag k ieta ix iy
       (FirstRKStepW_shear tau arena_prev arena_current rk_flag k ieta ix iy
          (arena_future ix iy ieta))).

(** Lines 276-311: the components that are derived, not evolved. *)
Definition FirstRKStepW_remake (grid_pt_f : Cell_small) : Cell_small :=
  let u0 := u grid_pt_f !!! 0%nat in
  let u1 := u grid_pt_f !!! 1%nat in
  let u2 := u grid_pt_f !!! 2%nat in
  let u3 := u grid_pt_f !!! 3%nat in
  let W := Wmunu grid_pt_f in
  let grid_pt_f :=
    set_Wmunu
      (<[9%nat :=
          (2 * (u1 * u2 * (W !!! 5%nat) + u1 * u3 * (W !!! 6%nat)
                + u2 * u3 * (W !!! 8%nat))
           - (u0 * u0 - u1 * u1) * (W !!! 4%nat)
           - (u0 * u0 - u2 * u2) * (W !!! 7%nat))
          / (u0 * u0 - u3 * u3)]> W) grid_pt_f in
  let grid_pt_f :=
    for_loop 3 1 (fun mu grid_pt_f =>
      let tempf :=
        for_loop 3 1 (fun nu tempf =>
          let idx_1d := map_2d_idx_to_1d ext (Z.of_nat mu) (Z.of_nat nu) in
          tempf + (Wmunu grid_pt_f !!! idx_1d) * (u grid_pt_f !!! nu)) 0 in
      set_Wmunu (<[mu := tempf / (u grid_pt_f !!! 0%nat)]> (Wmunu grid_pt_f))
                grid_pt_f) grid_pt_f in
  let tempf :=
    for_loop 3 1 (fun nu tempf =>
      tempf + (Wmunu grid_pt_f !!! nu) * (u grid_pt_f !!! nu)) 0 in
  let grid_pt_f :=
    set_Wmunu (<[0%nat := tempf / (u grid_pt_f !!! 0%nat)]> (Wmunu grid_pt_f))
              grid_pt_f in
  let grid_pt_f := solveEigenvaluesWmunu grid_pt_f in
  let tempf :=
    for_loop 3 1 (fun nu tempf =>
      let idx_1d := map_2d_idx_to_1d ext 4 (Z.of_nat nu) in
      tempf + (Wmunu grid_pt_f !!! idx_1d) * (u grid_pt_f !!! nu)) 0 in
  set_Wmunu
    (<[10%nat := double_of_int (turn_on_diff (DATA self)) * tempf
                / (u grid_pt_f !!! 0%nat)]> (Wmunu grid_pt_f)) grid_pt_f.

(** Lines 313-325: the regularisation of the cell just written. *)
Definition FirstRKStepW_regulate (fuel : nat) (tau : float)
    (grid_pt_f : Cell_small) (ieta ix iy : Z) : M Cell_small :=
  if negb (Initial_profile (DATA self) =? 0)%Z
     && negb (Initial_profile (DATA self) =? 1)%Z then
    grid_pt_f <- QuestRevert tau grid_pt_f ieta ix iy ;;
    grid_pt_f <-
      (if (causality_method (DATA self) =? 1)%Z
       then nCausalityConstraints grid_pt_f tau
       else if (causality_method (DATA self) =? 2)%Z
       then sCausalityConstraints fuel grid_pt_f tau
       else ret grid_pt_f) ;;
    if (turn_on_diff (DATA self) =? 1)%Z
    then QuestRevert_qmu tau grid_pt_f ieta ix iy
    else ret grid_pt_f
  else ret grid_pt_f.

Definition FirstRKStepW (fuel : nat) (tau : float)
    (arena_prev arena_current arena_future : SCGrid) (rk_flag : Z)
    (k : Kinematics) (ieta ix iy : Z) : M Cell_small :=
  let grid_pt_f :=
    FirstRKStepW_evolve tau arena_prev arena_current arena_future rk_flag
                        k ieta ix iy in
  FirstRKStepW_regulate fuel tau (FirstRKStepW_remake grid_pt_f) ieta ix iy.

End Methods.

(** *** AdvanceIt *)

(** data.h: the fields of [InitData] that [AdvanceIt] alone reads. *)
Record InitData_grid : Type := {
  eta_size : float; delta_eta : float;
  x_size : float; delta_x : float;
  y_size : float; delta_y : float;
  viscosity_flag : Z
}.

(** u_derivative.h: the helper that [AdvanceIt] builds for each cell from
    [DATA] and [eos].  [dU] is what [MakedU] leaves in the helper; the
    getters return what they leave in their output argument. *)
Record U_derivative : Type := {
  dU : Type;
  MakedU : float -> SCGrid -> SCGrid -> Z -> Z -> Z -> dU;
  calculate_expansion_rate : dU -> float -> SCGrid -> Z -> Z -> Z -> float;
  calculate_Du_supmu : dU -> float -> SCGrid -> Z -> Z -> Z -> DumuVec;
  calculate_velocity_shear_tensor :
    dU -> float -> SCGrid -> Z -> Z -> Z -> DumuVec -> VelocityShearVec;
  calculate_kinetic_vorticity_with_spatial_projector :
    dU -> float -> SCGrid -> Z -> Z -> Z -> DumuVec -> VorticityVec;
  get_DmuMuBoverTVec : dU -> DmuMuBoverTVec
}.

(** [arena(ix, iy, ieta) = c] *)
Definition set_cell (arena : SCGrid) (ix iy ieta : Z) (c : Cell_small) : SCGrid :=
  fun x y e =>
    if (x =? ix)%Z && (y =? iy)%Z && (e =? ieta)%Z then c else arena x y e.

Section Sweep.
Variable ext : Extern.
Variable self : Advance.
Variable DATA_grid : InitData_grid.
Variable u_derivative_helper : U_derivative.

(** Lines 64-96: the body of the loops for one cell.  The two steps write
    [arena_future(ix, iy, ieta)]; the model returns the snapshot with that
    cell replaced. *)
Definition AdvanceIt_cell (fuel : nat) (tau : float)
    (arena_prev arena_current arena_future : SCGrid) (rk_flag : Z)
    (ieta ix iy : Z) : M SCGrid :=
  let eta_s_local :=
    - eta_size DATA_grid / 2 + double_of_int ieta * delta_eta DATA_grid in
  let x_local := - x_size DATA_grid / 2 + double_of_int ix * delta_x DATA_grid in
  let y_local := - y_size DATA_grid / 2 + double_of_int iy * delta_y DATA_grid in
  c <- FirstRKStepT ext self tau x_local y_local eta_s_local
         arena_current arena_future arena_prev ix iy ieta rk_flag ;;
  let arena_future := set_cell arena_future ix iy ieta c in
  if (viscosity_flag DATA_grid =? 1)%Z then
    let h := MakedU u_derivative_helper tau arena_prev arena_current ix iy ieta in
    let theta_local :=
      calculate_expansion_rate u_derivative_helper h tau arena_current ieta ix iy in
    let a_local :=
      calculate_Du_supmu u_derivative_helper h tau arena_current ieta ix iy in
    let sigma_local :=
      calculate_velocity_shear_tensor u_derivative_helper h tau arena_current
                                      ieta ix iy a_local in
    let omega_local :=
      calculate_kinetic_vorticity_with_spatial_projector
        u_derivative_helper h tau arena_current ieta ix iy a_local in
    let baryon_diffusion_vector := get_DmuMuBoverTVec u_derivative_helper h in
    c <- FirstRKStepW ext self fuel tau arena_prev arena_current arena_future
           rk_flag
           {| theta_local := theta_local; a_local := a_local;
              sigma_local := sigma_local; omega_local := omega_local;
              baryon_diffusion_vector := baryon_diffusion_vector |}
           ieta ix iy ;;
    ret (set_cell arena_future ix iy ieta c)
  else ret arena_future.

(** Lines 53-98.  [grid_neta], [grid_nx], [grid_ny] are what
    [arena_current.nEta()], [nX()] and [nY()] return.  OpenMP collapses the
    three loops and shares their turns among threads; the model runs them
    in the order in which they are written. *)
Definition AdvanceIt (fuel : nat) (tau : float)
    (arena_prev arena_current arena_future : SCGrid) (rk_flag : Z)
    (grid_neta grid_nx grid_ny : nat) : M SCGrid :=
  for_loopM grid_neta 0 (fun ieta arena_future =>
    for_loopM grid_nx 0 (fun ix arena_future =>
      for_loopM grid_ny 0 (fun iy arena_future =>
        AdvanceIt_cell fuel tau arena_prev arena_current arena_future rk_flag
                       (Z.of_nat ieta) (Z.of_nat ix) (Z.of_nat iy))
      arena_future) arena_future) arena_future.

End Sweep.

(** ** Reading the model *)

(** The call returns [a], whatever it printed. *)
Definition returns {A} (m : M A) (a : A) : Prop := exists out, m = (out, Ret a).

(** Two doubles hold the same number: they are the same double, or the two
    zeros. *)
Definition same_value (x y : float) : Prop :=
  x = y \/ (PrimFloat.is_zero x = true /\ PrimFloat.is_zero y = true).

(** The double is one of the two zeros. *)
Definition zero_SF (x : float) : Prop := exists s, Prim2SF x = S754_zero s.

(** The order of two positive finite doubles, by exponent, then mantissa. *)
Definition lex (e1 : Z) (m1 : positive) (e2 : Z) (m2 : positive) : comparison :=
  match Z.compare e1 e2 with
  | Lt => Lt
  | Gt => Gt
  | Eq => Pos.compare_cont Eq m1 m2
  end.

(** What [QuestRevert] leaves in the cell, without the messages. *)
Definition QuestRevert_shear (ext : Extern) (self : Advance)
    (grid_pt : Cell_small) : Cell_small :=
  let rho_shear := QuestRevert_rho_shear ext self grid_pt in
  if is_nan rho_shear then
    set_Wmunu (for_loop 10 0 (fun mu W => <[mu := 0]> W) (Wmunu grid_pt)) grid_pt
  else if 0.1 <? rho_shear then
    set_Wmunu
      (for_loop 10 0 (fun mu W => <[mu := 0.1 / rho_shear * (W !!! mu)]> W)
                (Wmunu grid_pt)) grid_pt
  else grid_pt.

Definition QuestRevert_bulk (rho_bulk : float) (grid_pt : Cell_small) : Cell_small :=
  if 0.1 <? rho_bulk then set_pi_b (0.1 / rho_bulk * pi_b grid_pt) grid_pt
  else grid_pt.

(** The loop over the candidates, as a fold over their list. *)
Definition select_all (cands : list float) (minAlp : float) : float :=
  fold_left (fun minAlp alp => select_step alp minAlp) cands minAlp.

(** Without a negative candidate, the factor is the least of 1 and the
    positive candidates. *)
Definition least_of (seen : list float) (m : float) : Prop :=
  (m = 1 \/ (In m seen /\ (0 <? m) = true /\ (m <? 1) = true)) /\
  (forall a, In a seen -> (0 <? a) = true -> (a <? m) = false).

(** What the call leaves in the cell for the factor [minAlp]. *)
Definition rescaled (minAlp : float) (c : Cell_small) : Cell_small :=
  {| epsilon := epsilon c; rhob := rhob c; u := u c;
     Wmunu := (fun pi => pi * minAlp) <$> Wmunu c;
     Lambdas := (fun lam => lam * minAlp) <$> Lambdas c;
     pi_b := pi_b c * minAlp |}.

(** The update of lines 212-223, 235-244 and 256-268, in the order in which
    the code adds its terms: the weighted old values, the source, the flux
    divergence, and at sub-step 1 the current value once more. *)
Definition evolved (rk cur cur_u0 prev prev_u0 source dtau flux fut_u0 : float)
  : float :=
  ((1 - rk) * (cur * cur_u0) + rk * (prev * prev_u0) + source * dtau + flux
   + rk * (cur * cur_u0))
  * (1 / (1 + rk)) / fut_u0.

(** The update in the words of the claim: no term after the source. *)
Definition evolved_as_claimed
    (w cur cur_u0 prev prev_u0 flux source dtau fut_u0 : float) : float :=
  ((1 - w) * (cur * cur_u0) + w * (prev * prev_u0) + flux + source * dtau)
  / (1 + w) / fut_u0.

(** The three values that [FirstRKStepW] writes for a future cell [g]. *)
Section Evolved_values.
Variable ext : Extern.
Variable self : Advance.
Variable tau : float.
Variables arena_prev arena_current : SCGrid.
Variable rk_flag : Z.
Variable k : Kinematics.
Variables ieta ix iy : Z.

Definition shear_value (idx : nat) (g : Cell_small) : float :=
  let p := arena_prev ix iy ieta in
  let c := arena_current ix iy ieta in
  let rk := double_of_int rk_flag in
  let tau_now := tau + rk * delta_tau (DATA self) in
  evolved rk (Wmunu c !!! idx) (u c !!! 0%nat) (Wmunu p !!! idx) (u p !!! 0%nat)
    (Make_uWSource (diss_helper self) tau_now c p
       (fst (map_1d_idx_to_2d ext idx)) (snd (map_1d_idx_to_2d ext idx))
       rk_flag (theta_local k) (a_local k) (sigma_local k) (omega_local k))
    (delta_tau (DATA self))
    (Make_uWRHS (diss_helper self) tau_now arena_current ix iy ieta
       (fst (map_1d_idx_to_2d ext idx)) (snd (map_1d_idx_to_2d ext idx))
       (theta_local k) (a_local k))
    (u g !!! 0%nat).

Definition bulk_value (g : Cell_small) : float :=
  let p := arena_prev ix iy ieta in
  let c := arena_current ix iy ieta in
  let rk := double_of_int rk_flag in
  let tau_now := tau + rk * delta_tau (DATA self) in
  evolved rk (pi_b c) (u c !!! 0%nat) (pi_b p) (u p !!! 0%nat)
    (Make_uPiSource (diss_helper self) tau_now c p rk_flag
       (theta_local k) (sigma_local k))
    (delta_tau (DATA self))
    (Make_uPRHS (diss_helper self) tau_now arena_current ix iy ieta
       (theta_local k))
    (u g !!! 0%nat).

Definition diff_value (idx : nat) (g : Cell_small) : float :=
  let p := arena_prev ix iy ieta in
  let c := arena_current ix iy ieta in
  let rk := double_of_int rk_flag in
  let tau_now := tau + rk * delta_tau (DATA self) in
  evolved rk (Wmunu c !!! idx) (u c !!! 0%nat) (Wmunu p !!! idx) (u p !!! 0%nat)
    (Make_uqSource (diss_helper self) tau_now c p (Z.of_nat idx - 10)
       rk_flag (theta_local k) (a_local k) (sigma_local k) (omega_local k)
       (baryon_diffusion_vector k))
    (delta_tau (DATA self))
    (Make_uqRHS (diss_helper self) tau_now arena_current ix iy ieta 4
       (Z.of_nat idx - 10))
    (u g !!! 0%nat).

End Evolved_values.

(** The call does not exit; if it returns, what it returns satisfies [P];
    if the model's loop counter runs out, [F] holds. *)
Definition ends_with {A} (m : M A) (P : A -> Prop) (F : Prop) : Prop :=
  match snd m with
  | Ret a => P a
  | Exit _ => False
  | OutOfFuel => F
  end.

(** Two cells hold the same primitive variables. *)
Definition same_primitives (c' c : Cell_small) : Prop :=
  epsilon c' = epsilon c /\ rhob c' = rhob c /\ u c' = u c.

(** Two cells hold the same dissipative quantities. *)
Definition same_dissipative (c' c : Cell_small) : Prop :=
  Wmunu c' = Wmunu c /\ Lambdas c' = Lambdas c /\ pi_b c' = pi_b c.

(** The double is a NaN or carries the sign bit [s]. *)
Definition signed (s : bool) (x : spec_float) : Prop :=
  match x with
  | S754_nan => True
  | S754_zero s' | S754_infinity s' | S754_finite s' _ _ => s' = s
  end.

(** The double is a NaN or one of the two zeros. *)
Definition zero_or_nan (x : spec_float) : Prop :=
  match x with
  | S754_nan | S754_zero _ => True
  | _ => False
  end.

(** The double is a NaN, a zero, or carries the sign bit. *)
Definition not_positive (x : spec_float) : Prop :=
  match x with
  | S754_nan | S754_zero _ => True
  | S754_infinity s | S754_finite s _ _ => s = true
  end.

(** The matrix that [solveEigenvaluesWmunu] hands to Eigen, by rows. *)
Definition Wmunu_matrix (c : Cell_small) : list (list float) :=
  let W := Wmunu c in
  [ [ - (W !!! 0%nat); W !!! 1%nat; W !!! 2%nat; W !!! 3%nat ];
    [ - (W !!! 1%nat); W !!! 4%nat; W !!! 5%nat; W !!! 6%nat ];
    [ - (W !!! 2%nat); W !!! 5%nat; W !!! 7%nat; W !!! 8%nat ];
    [ - (W !!! 3%nat); W !!! 6%nat; W !!! 8%nat; W !!! 9%nat ] ].

(** [mn] and [mx] are two of the entries [0 .. hi-1] of [es]; none of these
    entries is below [mn] or above [mx]. *)
Definition extremes_of (es : list float) (hi : nat) (mn mx : float) : Prop :=
  (exists i, (i < hi)%nat /\ mn = es !!! i) /\
  (exists i, (i < hi)%nat /\ mx = es !!! i) /\
  (forall i, (i < hi)%nat -> (es !!! i <? mn) = false /\ (mx <? es !!! i) = false) /\
  (mx <? mn) = false.

(** The locals [q_mu_local], [q_size] and [rho_q] of [QuestRevert_qmu]. *)
Definition QuestRevert_qmu_q_mu_local (grid_pt : Cell_small) : list float :=
  for_loop 4 0 (fun i q => <[i := Wmunu grid_pt !!! (10 + i)%nat]> q) [0; 0; 0; 0].

Definition QuestRevert_qmu_q_size (grid_pt : Cell_small) : float :=
  let q_mu_local := QuestRevert_qmu_q_mu_local grid_pt in
  for_loop 4 0 (fun i q_size =>
    let gfac := if (i =? 0)%nat then -1 else 1 in
    q_size + gfac * (q_mu_local !!! i) * (q_mu_local !!! i)) 0.

Definition QuestRevert_qmu_rho_q (ext : Extern) (self : Advance)
    (grid_pt : Cell_small) : float :=
  PrimFloat.sqrt (QuestRevert_qmu_q_size grid_pt / (rhob grid_pt * rhob grid_pt))
  / QuestRevert_factor ext self (epsilon grid_pt).

(** The vector [sCondition {s1, s2, s6}] of [sCausalityConstraints]. *)
Definition sCausality_sCondition (self : Advance) (grid_pt : Cell_small)
  : list float :=
  let v := make_sLocals self grid_pt in
  let '(cs2, L1, L3, Pi) := (cs2 v, L1 v, L3 v, Pi v) in
  let '(s_relax, b_relax) := (s_relax v, b_relax v) in
  let '(lam_piPi, tau_pipi, del_PiPi) := (lam_piPi v, tau_pipi v, del_PiPi v) in
  let '(del_pipi, lam_Pipi) := (del_pipi v, lam_Pipi v) in
  [ 1 - s_relax - L1 + (1 - 1 / 2 * lam_piPi) * Pi - 1 / 2 * tau_pipi * L3;
    2 * s_relax + lam_piPi * Pi - tau_pipi * abs L1;
    1 / 3 * s_relax + b_relax + cs2
    + (1 / 6 * lam_piPi + del_PiPi + cs2) * Pi
    + (1 / 6 * tau_pipi - del_pipi + lam_Pipi - cs2) * abs L1 ].

(** [func] is negative at the upper end of the bracket and not at its lower
    end. *)
Definition sign_change (func : float -> float) (left right : float) : Prop :=
  (func right <? 0) = true /\ (func left <? 0) = false.

(** The factor is 0 or lies in (0, 1]. *)
Definition unit_factor (m : float) : Prop :=
  m = 0 \/ ((0 <? m) = true /\ (m <=? 1) = true).

(** The expression under the square root at line 882 of [MaxSpeed]. *)
Definition MaxSpeed_num_temp_sqrt (self : Advance) (direc : nat)
    (grid_p : ReconstCell.t) : float :=
  let utau := ReconstCell.u grid_p !!! 0%nat in
  let utau2 := utau * utau in
  let ux := abs (ReconstCell.u grid_p !!! direc) in
  let ut2mux2 := utau2 - ux * ux in
  let vs2 := get_cs2 (eos self) (ReconstCell.e grid_p) (ReconstCell.rhob grid_p) in
  (ut2mux2 - (ut2mux2 - 1) * vs2) * vs2.

(** The call writes inside the footprint [F] only, and what it does depends
    on the cells of [F] only. *)
Definition local_on (F : Z -> Z -> Z -> Prop) (body : SCGrid -> M SCGrid) : Prop :=
  (forall fut out fut', body fut = (out, Ret fut') ->
     forall x y e, ~ F x y e -> fut' x y e = fut x y e) /\
  (forall fut1 fut2, (forall x y e, F x y e -> fut1 x y e = fut2 x y e) ->
     match body fut1, body fut2 with
     | (o1, Ret g1), (o2, Ret g2) =>
         o1 = o2 /\ forall x y e, F x y e -> g1 x y e = g2 x y e
     | (o1, Exit c1), (o2, Exit c2) => o1 = o2 /\ c1 = c2
     | (o1, OutOfFuel), (o2, OutOfFuel) => o1 = o2
     | _, _ => False
     end).

(** ** Concrete data, for running the model *)

(** util.h's [index_map], the layout that [solveEigenvaluesWmunu] and
    [QuestRevert] spell out entry by entry. *)
Definition util_map_2d_idx_to_1d (a b : Z) : nat :=
  ([ [0; 1; 2; 3]; [1; 4; 5; 6]; [2; 5; 7; 8]; [3; 6; 8; 9]; [10; 11; 12; 13] ]%nat
     !!! Z.to_nat a) !!! Z.to_nat b.

Definition util_map_1d_idx_to_2d (idx_1d : nat) : Z * Z :=
  ([0; 0; 0; 0; 1; 1; 1; 2; 2; 3; 4; 4; 4; 4]%Z !!! idx_1d,
   [0; 1; 2; 3; 1; 2; 3; 2; 3; 3; 0; 1; 2; 3]%Z !!! idx_1d).

(** A stand-in for libm's [exp]: the Taylor polynomial of degree 60. *)
Definition taylor_exp (x : float) : float :=
  fst (for_loop 60 1 (fun k '(sum, term) =>
         let term := term * x / double_of_int (Z.of_nat k) in
         (sum + term, term)) (1, 1)).

(** An equation of state that answers the same everywhere. *)
Definition constant_eos (cs2 P : float) : EOS :=
  {| get_cs2 := fun _ _ => cs2;
     get_pressure := fun _ _ => P;
     get_dpde := fun _ _ => cs2;
     get_dpdrhob := fun _ _ => 0 |}.

Definition quiet_diss : Diss :=
  {| MakeWSource := fun _ _ _ _ _ _ => [0; 0; 0; 0; 0];
     Make_uWRHS := fun _ _ _ _ _ _ _ _ _ => 0;
     Make_uWSource := fun _ _ _ _ _ _ _ _ _ _ => 0;
     Make_uPRHS := fun _ _ _ _ _ _ => 0;
     Make_uPiSource := fun _ _ _ _ _ _ => 0;
     Make_uqRHS := fun _ _ _ _ _ _ _ => 0;
     Make_uqSource := fun _ _ _ _ _ _ _ _ _ _ => 0 |}.

(** A reconstruction that reads the conserved vector of a fluid at rest:
    [qi = tau * (e, 0, 0, 0, rhob)]. *)
Definition rest_reconst : Reconst :=
  {| ReconstIt_shell := fun tau qi _ =>
       ReconstCell.mk ((qi !!! 0%nat) / tau) ((qi !!! 4%nat) / tau) [1; 0; 0; 0] |}.

Definition example_DATA (method : Z) : InitData :=
  {| delta_tau := 0.25;
     turn_on_rhob := 1; turn_on_shear := 1; turn_on_bulk := 1; turn_on_diff := 1;
     Initial_profile := 9; causality_method := method;
     quest_revert_strength := 10; echo_level := 1 |}.

(** MUSIC's default relaxation-time factors, 5 and 1/14.55. *)
Definition example_Advance (cs2 P : float) (source : option HydroSourceBase)
  : Advance :=
  {| DATA := example_DATA 1;
     eos := constant_eos cs2 P;
     diss_helper := quiet_diss;
     reconst_helper := rest_reconst;
     transport_coeffs_ :=
       {| get_shear_relax_time_factor := 5;
          get_bulk_relax_time_factor := 1 / 14.55 |};
     hydro_source_terms_ptr := source |}.

Definition example_Extern : Extern :=
  {| exp := taylor_exp;
     small_eps := 1e-16;
     hbarc := 0.19733;
     map_2d_idx_to_1d := util_map_2d_idx_to_1d;
     map_1d_idx_to_2d := util_map_1d_idx_to_2d;
     eigenvalues_real := fun A =>
       [(A !!! 0%nat) !!! 0%nat; (A !!! 1%nat) !!! 1%nat;
        (A !!! 2%nat) !!! 2%nat; (A !!! 3%nat) !!! 3%nat];
     MakeDeltaQI := fun tau arena ix iy ieta _ =>
       ret ((fun q => q * tau) <$>
            [epsilon (arena ix iy ieta); 0; 0; 0; rhob (arena ix iy ieta)]) |}.

Definition example_cell (eps pi : float) (W L : list float) : Cell_small :=
  {| epsilon := eps; rhob := 0; u := [1; 0; 0; 0];
     Wmunu := W; Lambdas := L; pi_b := pi |}.

(** MUSIC's default shear factor and bulk factor replaced by others. *)
Definition example_Advance_with (cs2 P shear_factor bulk_factor : float) : Advance :=
  {| DATA := example_DATA 2;
     eos := constant_eos cs2 P;
     diss_helper := quiet_diss;
     reconst_helper := rest_reconst;
     transport_coeffs_ :=
       {| get_shear_relax_time_factor := shear_factor;
          get_bulk_relax_time_factor := bulk_factor |};
     hydro_source_terms_ptr := None |}.

(** Snapshots of a uniform grid. *)
Definition uniform_grid (c : Cell_small) : SCGrid := fun _ _ _ => c.

(** Cells at rest, named after what they are used to show: a dilute cell
    whose shear tensor and bulk pressure dwarf the equilibrium scale; a
    malformed one with a NaN in the tensor and a NaN bulk pressure; a cell
    whose first necessary-condition pass settles it, and one whose first
    pass does not; a cell under compression and one under expansion; two
    plain cells of energy density 2 and 3; a current and a previous cell
    that carry stress. *)
Definition large_stress_cell : Cell_small :=
  example_cell 0.5 (-40) [30; 0; 0; 0; 10; 0; 0; 10; 0; 10; 1; 0; 0; 0] [-10; 0; 10].

Definition malformed_cell : Cell_small :=
  example_cell 0.5 nan [30; 0; 0; 0; nan; 0; 0; 10; 0; 10; 1; 0; 0; 0] [-10; 0; 10].

Definition settled_cell : Cell_small :=
  example_cell 0.5 (-1.5) [2; 0; 0; 0; 1; 0; 0; 0; 0; 1; 0; 0; 0; 0] [-1; 0; 1].

Definition unsettled_cell : Cell_small :=
  example_cell 2 (-3) [2; 0; 0; 0; 1; 0; 0; 0; 0; 1; 0; 0; 0; 0] [-1; 0; 1].

Definition compressed_cell : Cell_small :=
  example_cell 2 (-1) [2; 0; 0; 0; 1; 0; 0; 0; 0; 1; 0; 0; 0; 0] [-1; 0; 1].


Definition current_cell : Cell_small :=
  example_cell 2 0 [0; 0; 0; 0; 0; 0; 0; 0; 0; 0; 0; 0; 0; 0] [0; 0; 0].

Definition previous_cell : Cell_small :=
  example_cell 3 0 [0; 0; 0; 0; 0; 0; 0; 0; 0; 0; 0; 0; 0; 0] [0; 0; 0].

Definition stressed_current : Cell_small :=
  example_cell 2 1 [0; 0; 0; 0; 1; 2; 3; 4; 5; 0; 0; 6; 7; 8] [0; 0; 0].

Definition stressed_previous : Cell_small :=
  example_cell 2 3 [0; 0; 0; 0; 3; 2; 1; 0; 1; 0; 0; 2; 3; 4] [0; 0; 0].

(** No expansion, no acceleration, no shear, no vorticity. *)
Definition still_kinematics : Kinematics :=
  {| theta_local := 0; a_local := [0; 0; 0; 0; 0];
     sigma_local := [0; 0; 0; 0; 0; 0; 0; 0; 0; 0];
     omega_local := [0; 0; 0; 0; 0; 0];
     baryon_diffusion_vector := [0; 0; 0; 0] |}.

(** Two face states: a fluid moving at 0.6 c along x, and one with
    [u = (3, 1, 0, 0)]. *)
Definition moving_face : ReconstCell.t := ReconstCell.mk 2 0 [1.25; 0.75; 0; 0].

Definition stiff_face : ReconstCell.t := ReconstCell.mk 2 0 [3; 1; 0; 0].

(** A source whose energy-momentum deposit is finite and whose net-baryon
    deposit is NaN. *)
Definition nan_rhob_source : HydroSourceBase :=
  {| get_number_of_sources := 1;
     get_hydro_energy_source := fun _ _ _ _ _ => [0.5; 0; 0; 0];
     get_hydro_rhob_source := fun _ _ _ _ _ => nan |}.

(** Two cells with a net-baryon density of 1 and a diffusion current: one
    whose current is timelike, [q = (2, 1, 0, 0)], and one whose current is
    large against the density, [q = (0, 30, 0, 0)]. *)
Definition timelike_current_cell : Cell_small :=
  {| epsilon := 0.5; rhob := 1; u := [1; 0; 0; 0];
     Wmunu := [0; 0; 0; 0; 0; 0; 0; 0; 0; 0; 2; 1; 0; 0];
     Lambdas := [0; 0; 0]; pi_b := 0 |}.

Definition large_current_cell : Cell_small :=
  {| epsilon := 0.5; rhob := 1; u := [1; 0; 0; 0];
     Wmunu := [0; 0; 0; 0; 0; 0; 0; 0; 0; 0; 0; 30; 0; 0];
     Lambdas := [0; 0; 0]; pi_b := 0 |}.

(** A cell moving at 0.6 c along x, with stale derived entries. *)
Definition boosted_cell : Cell_small :=
  {| epsilon := 2; rhob := 0; u := [1.25; 0.75; 0; 0];
     Wmunu := [9; 9; 9; 9; 1; 2; 3; 4; 5; 9; 9; 6; 7; 8];
     Lambdas := [0; 0; 0]; pi_b := 1 |}.

(** The evolution of the three dissipative quantities switched off. *)
Definition example_Advance_off : Advance :=
  {| DATA :=
       {| delta_tau := 0.25;
          turn_on_rhob := 0; turn_on_shear := 0; turn_on_bulk := 0;
          turn_on_diff := 0;
          Initial_profile := 9; causality_method := 0;
          quest_revert_strength := 10; echo_level := 1 |};
     eos := constant_eos (1 / 3) 0.5;
     diss_helper := quiet_diss;
     reconst_helper := rest_reconst;
     transport_coeffs_ :=
       {| get_shear_relax_time_factor := 5;
          get_bulk_relax_time_factor := 1 / 14.55 |};
     hydro_source_terms_ptr := None |}.

(** A face state whose [u] is not a velocity: [utau^2 - ux^2 = -3]. *)
Definition spacelike_face : ReconstCell.t := ReconstCell.mk 2 0 [1; 2; 0; 0].

(** A source whose second energy-momentum entry is NaN. *)
Definition nan_energy_source : HydroSourceBase :=
  {| get_number_of_sources := 1;
     get_hydro_energy_source := fun _ _ _ _ _ => [0.5; nan; 0; 0];
     get_hydro_rhob_source := fun _ _ _ _ _ => 0 |}.

(** A box of side 2 with a spacing of 1, and a helper that finds the fluid
    still everywhere. *)
Definition example_DATA_grid (viscosity : Z) : InitData_grid :=
  {| eta_size := 2; delta_eta := 1; x_size := 2; delta_x := 1;
     y_size := 2; delta_y := 1; viscosity_flag := viscosity |}.

Definition still_helper : U_derivative :=
  {| dU := unit;
     MakedU := fun _ _ _ _ _ _ => tt;
     calculate_expansion_rate := fun _ _ _ _ _ _ => theta_local still_kinematics;
     calculate_Du_supmu := fun _ _ _ _ _ _ => a_local still_kinematics;
     calculate_velocity_shear_tensor :=
       fun _ _ _ _ _ _ _ => sigma_local still_kinematics;
     calculate_kinetic_vorticity_with_spatial_projector :=
       fun _ _ _ _ _ _ _ => omega_local still_kinematics;
     get_DmuMuBoverTVec := fun _ => baryon_diffusion_vector still_kinematics |}.

(** A previous snapshot whose energy density has overflowed. *)
Definition hot_previous : Cell_small :=
  example_cell infinity 0 [0; 0; 0; 0; 0; 0; 0; 0; 0; 0; 0; 0; 0; 0] [0; 0; 0].


(** The face state of a fluid at rest. *)
Definition rest_face : ReconstCell.t := ReconstCell.mk 2 0 [1; 0; 0; 0].

(** * Facts about binary64, from the specification of the primitives *)

Module Ieee.

Lemma lex_Lt e1 m1 e2 m2 :
  lex e1 m1 e2 m2 = Lt <-> (e1 < e2 \/ (e1 = e2 /\ (m1 < m2)%positive))%Z.
Proof.
  unfold lex. change (Pos.compare_cont Eq m1 m2) with (Pos.compare m1 m2).
  destruct (Z.compare_spec e1 e2); destruct (Pos.compare_spec m1 m2);
    split; intros; try discriminate; try reflexivity; lia.
Qed.

Lemma lex_Gt e1 m1 e2 m2 :
  lex e1 m1 e2 m2 = Gt <-> (e2 < e1 \/ (e1 = e2 /\ (m2 < m1)%positive))%Z.
Proof.
  unfold lex. change (Pos.compare_cont Eq m1 m2) with (Pos.compare m1 m2).
  destruct (Z.compare_spec e1 e2); destruct (Pos.compare_spec m1 m2);
    split; intros; try discriminate; try reflexivity; lia.
Qed.

Lemma SFltb_finite s1 m1 e1 s2 m2 e2 :
  SFltb (S754_finite s1 m1 e1) (S754_finite s2 m2 e2) =
  match s1, s2 with
  | true, false => true
  | false, true => false
  | false, false => match lex e1 m1 e2 m2 with Lt => true | _ => false end
  | true, true => match lex e1 m1 e2 m2 with Gt => true | _ => false end
  end.
Proof.
  unfold SFltb, SFcompare, lex.
  destruct s1, s2; try reflexivity;
    destruct (e1 ?= e2)%Z; try reflexivity;
    destruct (Pos.compare_cont Eq m1 m2); reflexivity.
Qed.

Lemma SFltb_trans x y z :
  SFltb x y = true -> SFltb y z = true -> SFltb x z = true.
Proof.
  destruct x as [sx|sx| |sx mx ex], y as [sy|sy| |sy my ey],
           z as [sz|sz| |sz mz ez];
    try (destruct sx); try (destruct sy); try (destruct sz);
    try discriminate; try reflexivity;
    rewrite ?SFltb_finite; try discriminate; try reflexivity.
  - destruct (lex ex mx ey my) eqn:H1; try discriminate.
    destruct (lex ey my ez mz) eqn:H2; try discriminate.
    apply lex_Gt in H1, H2. intros _ _.
    assert (H : lex ex mx ez mz = Gt) by (apply lex_Gt; lia).
    now rewrite H.
  - destruct (lex ex mx ey my) eqn:H1; try discriminate.
    destruct (lex ey my ez mz) eqn:H2; try discriminate.
    apply lex_Lt in H1, H2. intros _ _.
    assert (H : lex ex mx ez mz = Lt) by (apply lex_Lt; lia).
    now rewrite H.
Qed.

Lemma SFltb_asym x y : SFltb x y = true -> SFltb y x = false.
Proof.
  destruct x as [sx|sx| |sx mx ex], y as [sy|sy| |sy my ey];
    try (destruct sx); try (destruct sy);
    try discriminate; try reflexivity;
    rewrite ?SFltb_finite; try discriminate; try reflexivity.
  - destruct (lex ex mx ey my) eqn:H1; try discriminate. intros _.
    apply lex_Gt in H1. destruct (lex ey my ex mx) eqn:H2; try reflexivity.
    apply lex_Gt in H2. lia.
  - destruct (lex ex mx ey my) eqn:H1; try discriminate. intros _.
    apply lex_Lt in H1. destruct (lex ey my ex mx) eqn:H2; try reflexivity.
    apply lex_Lt in H2. lia.
Qed.

Lemma ltb_trans x y z :
  (x <? y) = true -> (y <? z) = true -> (x <? z) = true.
Proof. rewrite !FloatAxioms.ltb_spec. apply SFltb_trans. Qed.

Lemma ltb_asym x y : (x <? y) = true -> (y <? x) = false.
Proof. rewrite !FloatAxioms.ltb_spec. apply SFltb_asym. Qed.

Lemma ltb_irrefl x : (x <? x) = false.
Proof.
  destruct (x <? x) eqn:H; [|reflexivity]. now rewrite (ltb_asym _ _ H) in H.
Qed.

Lemma is_nan_SF x : is_nan x = true -> Prim2SF x = S754_nan.
Proof.
  unfold is_nan. rewrite FloatAxioms.eqb_spec.
  destruct (Prim2SF x) as [s|s| |s m e]; try reflexivity.
  - discriminate.
  - destruct s; discriminate.
  - unfold SFeqb, SFcompare. rewrite Z.compare_refl.
    change (Pos.compare_cont Eq m m) with (Pos.compare m m).
    rewrite Pos.compare_refl. destruct s; discriminate.
Qed.

Lemma ltb_nan_r x y : is_nan y = true -> (x <? y) = false.
Proof.
  intros H. rewrite FloatAxioms.ltb_spec, (is_nan_SF _ H).
  unfold SFltb, SFcompare. now destruct (Prim2SF x).
Qed.

Lemma ltb_nan_l x y : is_nan x = true -> (x <? y) = false.
Proof. intros H. rewrite FloatAxioms.ltb_spec, (is_nan_SF _ H). reflexivity. Qed.

Lemma ltb_not_nan_r x y : (x <? y) = true -> is_nan y = false.
Proof.
  intros H. destruct (is_nan y) eqn:Hn; [|reflexivity].
  now rewrite (ltb_nan_r x y Hn) in H.
Qed.

Lemma SFcompare_antisym x y :
  SFcompare y x = option_map CompOpp (SFcompare x y).
Proof.
  destruct x as [sx|sx| |sx mx ex], y as [sy|sy| |sy my ey];
    try (destruct sx); try (destruct sy); try reflexivity; cbn;
    rewrite (Z.compare_antisym ex ey); destruct (ex ?= ey)%Z; cbn;
    try reflexivity;
    change (Pos.compare_cont Eq my mx) with (Pos.compare my mx);
    change (Pos.compare_cont Eq mx my) with (Pos.compare mx my);
    rewrite (Pos.compare_antisym mx my); destruct (mx ?= my)%positive;
    reflexivity.
Qed.

Lemma not_nan_SF x : is_nan x = false -> Prim2SF x <> S754_nan.
Proof.
  unfold is_nan. rewrite FloatAxioms.eqb_spec. intros H E.
  rewrite E in H. discriminate.
Qed.

(** Two doubles that are numbers are comparable: not below is at least. *)
Lemma leb_of_not_ltb x y :
  is_nan x = false -> is_nan y = false -> (x <? y) = false -> (y <=? x) = true.
Proof.
  intros Hx%not_nan_SF Hy%not_nan_SF.
  rewrite FloatAxioms.ltb_spec, FloatAxioms.leb_spec.
  unfold SFltb, SFleb. rewrite (SFcompare_antisym (Prim2SF x) (Prim2SF y)).
  assert (Hc : exists c, SFcompare (Prim2SF x) (Prim2SF y) = Some c).
  { destruct (Prim2SF x) as [sx|sx| |sx mx ex]; try contradiction;
      destruct (Prim2SF y) as [sy|sy| |sy my ey]; try contradiction;
      cbn; eauto. }
  destruct Hc as [c ->]. destruct c; cbn; congruence.
Qed.

(** Multiplying by 1 is exact: the product of a 53-bit mantissa by 2^52 is
    shifted back by 52 bits with nothing lost. *)
Lemma SFmul_one_r (x : spec_float) :
  valid_binary x = true -> SF64mul x (Prim2SF 1) = x.
Proof.
  destruct x as [s|s| |s m e]; try (destruct s; reflexivity); try reflexivity.
  intros Hv. change (Prim2SF 1) with (S754_finite false 4503599627370496 (-52)).
  unfold SF64mul, SFmul. rewrite Pos.mul_comm.
  change (4503599627370496 * m)%positive with (Pos.iter xO m 52%positive).
  cbn [valid_binary] in Hv. unfold bounded, canonical_mantissa in Hv.
  apply andb_prop in Hv as [Hc Hb]. apply Z.eqb_eq in Hc.
  unfold binary_round_aux, shr_fexp. cbn [Zdigits2].
  change (Z.pos (digits2_pos (Pos.iter xO m 52)))
    with (Z.pos (Pos.iter Pos.succ (digits2_pos m) 52)).
  replace (Z.pos (Pos.iter Pos.succ (digits2_pos m) 52) + (e + -52))%Z
    with (Z.pos (digits2_pos m) + e)%Z
    by (cbn [Pos.iter]; rewrite !Pos2Z.inj_succ; lia).
  rewrite Hc. replace (e - (e + -52))%Z with 52%Z by lia.
  cbn [shr shr_record_of_loc].
  change (SpecFloat.iter_pos shr_1 52
            {| shr_m := Z.pos (Pos.iter xO m 52); shr_r := false; shr_s := false |})
    with {| shr_m := Z.pos m; shr_r := false; shr_s := false |}.
  cbn [shr_m loc_of_shr_record round_nearest_even Zdigits2].
  replace (e + -52 + 52)%Z with e by lia.
  rewrite Hc, Z.sub_diag. cbn [shr shr_record_of_loc shr_m].
  rewrite Hb. now destruct s.
Qed.

Lemma SFmul_comm x y : SF64mul x y = SF64mul y x.
Proof.
  unfold SF64mul, SFmul.
  destruct x as [sx|sx| |sx mx ex], y as [sy|sy| |sy my ey];
    try reflexivity; rewrite ?(xorb_comm sx sy); try reflexivity.
  now rewrite Pos.mul_comm, Z.add_comm.
Qed.

Lemma mul_1_r (x : float) : x * 1 = x.
Proof.
  apply Prim2SF_inj. rewrite FloatAxioms.mul_spec. apply SFmul_one_r, Prim2SF_valid.
Qed.

Lemma mul_1_l (x : float) : 1 * x = x.
Proof.
  apply Prim2SF_inj. rewrite FloatAxioms.mul_spec, SFmul_comm.
  apply SFmul_one_r, Prim2SF_valid.
Qed.

Lemma is_finite_SF x :
  is_finite x = true ->
  match Prim2SF x with
  | S754_zero _ | S754_finite _ _ _ => True
  | _ => False
  end.
Proof.
  unfold is_finite, is_nan, is_infinity.
  rewrite !FloatAxioms.eqb_spec, FloatAxioms.abs_spec.
  change (Prim2SF infinity) with (S754_infinity false).
  destruct (Prim2SF x) as [s|s| |s m e]; try exact (fun _ => I).
  - destruct s; discriminate.
  - discriminate.
Qed.

Lemma zero_SF_0 : zero_SF 0.
Proof. now exists false. Qed.

Lemma zero_SF_mul_finite z x : zero_SF z -> is_finite x = true -> zero_SF (z * x).
Proof.
  intros [s Hz] Hx%is_finite_SF. unfold zero_SF.
  rewrite FloatAxioms.mul_spec, Hz. unfold SF64mul, SFmul.
  destruct (Prim2SF x) as [sx|sx| |sx mx ex]; try contradiction; eauto.
Qed.

Lemma zero_SF_is_zero z : zero_SF z -> PrimFloat.is_zero z = true.
Proof.
  intros [s Hz]. unfold PrimFloat.is_zero. rewrite FloatAxioms.eqb_spec, Hz.
  reflexivity.
Qed.

Lemma add_zero_same x z : zero_SF z -> same_value (x + z) x.
Proof.
  intros [s Hz].
  assert (Hadd : Prim2SF (x + z) = SF64add (Prim2SF x) (S754_zero s))
    by (now rewrite FloatAxioms.add_spec, Hz).
  destruct (Prim2SF x) as [sx|sx| |sx mx ex] eqn:Hx.
  - right. split; apply zero_SF_is_zero.
    + unfold zero_SF. rewrite Hadd. cbn. destruct sx, s; eauto.
    + now exists sx.
  - left. apply Prim2SF_inj. now rewrite Hadd, Hx.
  - left. apply Prim2SF_inj. now rewrite Hadd, Hx.
  - left. apply Prim2SF_inj. now rewrite Hadd, Hx.
Qed.

Lemma binary_round_aux_signed prec emax s m e l :
  signed s (binary_round_aux prec emax s m e l).
Proof.
  unfold binary_round_aux.
  destruct (shr_fexp prec emax m e l) as [mrs' e'].
  destruct (shr_fexp prec emax _ e' loc_Exact) as [mrs'' e''].
  destruct (shr_m mrs''); cbn; [reflexivity| |exact I].
  destruct (e'' <=? emax - prec)%Z; reflexivity.
Qed.

Lemma SFmul_signed sx sy x y :
  signed sx x -> signed sy y -> signed (xorb sx sy) (SF64mul x y).
Proof.
  unfold SF64mul, SFmul.
  destruct x as [s1|s1| |s1 m1 e1], y as [s2|s2| |s2 m2 e2]; cbn [signed];
    try (intros; exact I); try (intros -> ->; reflexivity).
  intros -> ->. apply binary_round_aux_signed.
Qed.

Lemma SFdiv_signed sx sy x y :
  signed sx x -> signed sy y -> signed (xorb sx sy) (SF64div x y).
Proof.
  unfold SF64div, SFdiv.
  destruct x as [s1|s1| |s1 m1 e1], y as [s2|s2| |s2 m2 e2]; cbn [signed];
    try (intros; exact I); try (intros -> ->; reflexivity).
  intros -> ->.
  destruct (SFdiv_core_binary prec emax (Z.pos m1) e1 (Z.pos m2) e2) as [[mz ez] lz].
  apply binary_round_aux_signed.
Qed.

Lemma mul_signed sx sy x y :
  signed sx (Prim2SF x) -> signed sy (Prim2SF y) ->
  signed (xorb sx sy) (Prim2SF (x * y)).
Proof. rewrite FloatAxioms.mul_spec. apply SFmul_signed. Qed.

Lemma div_signed sx sy x y :
  signed sx (Prim2SF x) -> signed sy (Prim2SF y) ->
  signed (xorb sx sy) (Prim2SF (x / y)).
Proof. rewrite FloatAxioms.div_spec. apply SFdiv_signed. Qed.

(** A square is a NaN or carries the sign bit of the non-negative doubles. *)
Lemma square_signed x : signed false (Prim2SF (x * x)).
Proof.
  rewrite FloatAxioms.mul_spec. unfold SF64mul, SFmul.
  destruct (Prim2SF x) as [s|s| |s m e]; cbn [signed];
    try exact I; try (now destruct s).
  replace false with (xorb s s) by now destruct s.
  apply binary_round_aux_signed.
Qed.

Lemma ltb_0_signed x : (x <? 0) = true -> signed true (Prim2SF x).
Proof.
  rewrite FloatAxioms.ltb_spec. change (Prim2SF 0) with (S754_zero false).
  destruct (Prim2SF x) as [s|s| |s m e]; cbn; try discriminate;
    destruct s; try discriminate; reflexivity.
Qed.

(** Nothing that carries the sign bit is above a double that is positive. *)
Lemma signed_not_above c x :
  (0 <? c) = true -> signed true (Prim2SF x) -> (c <? x) = false.
Proof.
  rewrite !FloatAxioms.ltb_spec. change (Prim2SF 0) with (S754_zero false).
  destruct (Prim2SF c) as [sc|sc| |sc mc ec]; cbn; try discriminate;
    destruct sc; try discriminate; intros _;
    destruct (Prim2SF x) as [s|s| |s m e]; cbn; try reflexivity;
    intros ->; reflexivity.
Qed.

Lemma signed_not_above_0 x : signed true (Prim2SF x) -> (0 <? x) = false.
Proof.
  rewrite !FloatAxioms.ltb_spec. change (Prim2SF 0) with (S754_zero false).
  destruct (Prim2SF x) as [s|s| |s m e]; cbn; try reflexivity;
    intros ->; reflexivity.
Qed.

Lemma signed_not_below_0 x : signed false (Prim2SF x) -> (x <? 0) = false.
Proof.
  rewrite !FloatAxioms.ltb_spec. change (Prim2SF 0) with (S754_zero false).
  destruct (Prim2SF x) as [s|s| |s m e]; cbn; try reflexivity;
    intros ->; reflexivity.
Qed.

Lemma zero_or_nan_not_above c x :
  (0 <? c) = true -> zero_or_nan (Prim2SF x) -> (c <? x) = false.
Proof.
  rewrite !FloatAxioms.ltb_spec. change (Prim2SF 0) with (S754_zero false).
  destruct (Prim2SF c) as [sc|sc| |sc mc ec]; cbn; try discriminate;
    destruct sc; try discriminate; intros _;
    destruct (Prim2SF x) as [s|s| |s m e]; cbn; try reflexivity; contradiction.
Qed.

(** The square root of what carries the sign bit is a NaN or the zero -0. *)
Lemma sqrt_signed x :
  signed true (Prim2SF x) -> zero_or_nan (Prim2SF (PrimFloat.sqrt x)).
Proof.
  rewrite FloatAxioms.sqrt_spec. unfold SF64sqrt, SFsqrt.
  destruct (Prim2SF x) as [s|s| |s m e]; cbn; try (intros; exact I);
    intros ->; exact I.
Qed.

Lemma div_zero_or_nan x y :
  zero_or_nan (Prim2SF x) -> zero_or_nan (Prim2SF (x / y)).
Proof.
  rewrite FloatAxioms.div_spec. unfold SF64div, SFdiv.
  destruct (Prim2SF x) as [s|s| |s m e]; cbn; try contradiction; intros _;
    destruct (Prim2SF y) as [s'|s'| |s' m' e']; exact I.
Qed.

(** The ratio built on a negative norm is never above the ceiling. *)
Lemma ratio_of_negative q d f c :
  (0 <? c) = true -> (q <? 0) = true ->
  (c <? PrimFloat.sqrt (q / (d * d)) / f) = false.
Proof.
  intros Hc Hq. apply zero_or_nan_not_above; [exact Hc|].
  apply div_zero_or_nan, sqrt_signed.
  change true with (xorb true false).
  apply div_signed; [now apply ltb_0_signed|apply square_signed].
Qed.

(** The mantissa of a double has as many bits as [digits2_pos] counts. *)
Lemma digits2_pos_bounds m :
  (2 ^ (Z.pos (digits2_pos m) - 1) <= Z.pos m < 2 ^ Z.pos (digits2_pos m))%Z.
Proof.
  induction m as [m IH|m IH|]; cbn [digits2_pos].
  - rewrite Pos2Z.inj_succ.
    replace (Z.succ (Z.pos (digits2_pos m)) - 1)%Z with (Z.pos (digits2_pos m)) by lia.
    rewrite Z.pow_succ_r by lia.
    replace (Z.pos (digits2_pos m)) with (Z.succ (Z.pos (digits2_pos m) - 1)) at 1 by lia.
    rewrite Z.pow_succ_r by lia. lia.
  - rewrite Pos2Z.inj_succ.
    replace (Z.succ (Z.pos (digits2_pos m)) - 1)%Z with (Z.pos (digits2_pos m)) by lia.
    rewrite Z.pow_succ_r by lia.
    replace (Z.pos (digits2_pos m)) with (Z.succ (Z.pos (digits2_pos m) - 1)) at 1 by lia.
    rewrite Z.pow_succ_r by lia. lia.
  - cbn. lia.
Qed.

Lemma iter_xO_pow m d : Z.pos (Pos.iter xO m d) = (Z.pos m * 2 ^ Z.pos d)%Z.
Proof.
  change (Pos.iter xO m d) with (shift_pos d m).
  rewrite shift_pos_correct, Z.pow_pos_fold. apply Z.mul_comm.
Qed.

(** Aligning a mantissa to a smaller exponent multiplies it by a power of 2. *)
Lemma shl_align_value m e e' :
  (e' <= e)%Z -> Z.pos (fst (shl_align m e e')) = (Z.pos m * 2 ^ (e - e'))%Z.
Proof.
  intros Hle. unfold shl_align. destruct (e' - e)%Z as [|d|d] eqn:Hd.
  - replace (e - e')%Z with 0%Z by lia. cbn [fst]. lia.
  - lia.
  - cbn [fst]. rewrite iter_xO_pow. f_equal. f_equal. lia.
Qed.

(** What validity says of a finite double: at most 53 bits, and exactly 53
    above the least exponent. *)
Lemma bounded_digits m e :
  bounded prec emax m e = true ->
  (Z.pos (digits2_pos m) <= 53)%Z /\
  ((-1074 < e)%Z -> Z.pos (digits2_pos m) = 53%Z).
Proof.
  unfold bounded, canonical_mantissa, fexp, emin, prec, emax.
  intros [Hc _]%andb_prop. apply Z.eqb_eq in Hc. lia.
Qed.

(** Of two valid positive doubles ordered by exponent then mantissa, the
    aligned mantissas are ordered the same way. *)
Lemma lex_Lt_aligned mx ex my ey :
  bounded prec emax mx ex = true -> bounded prec emax my ey = true ->
  lex ex mx ey my = Lt ->
  (Z.pos (fst (shl_align mx ex (Z.min ex ey)))
   < Z.pos (fst (shl_align my ey (Z.min ex ey))))%Z.
Proof.
  intros Hx Hy [Hlt|[-> Hlt]]%lex_Lt.
  - rewrite !shl_align_value by lia.
    replace (Z.min ex ey) with ex by lia. rewrite Z.sub_diag, Z.mul_1_r.
    destruct (bounded_digits _ _ Hx) as [Hdx _].
    destruct (bounded_digits _ _ Hy) as [_ Hdy].
    assert (Hey : (-1074 < ey)%Z).
    { unfold bounded, canonical_mantissa, fexp, emin, prec, emax in Hx.
      apply andb_prop in Hx as [Hc _]. apply Z.eqb_eq in Hc. lia. }
    specialize (Hdy Hey).
    pose proof (digits2_pos_bounds mx) as [_ Hmx].
    pose proof (digits2_pos_bounds my) as [Hmy _].
    rewrite Hdy in Hmy.
    assert (Hpow : (2 ^ 1 <= 2 ^ (ey - ex))%Z) by (apply Z.pow_le_mono_r; lia).
    assert (Hmx53 : (Z.pos mx < 2 ^ 53)%Z).
    { eapply Z.lt_le_trans; [exact Hmx|]. apply Z.pow_le_mono_r; lia. }
    change (2 ^ 1)%Z with 2%Z in Hpow.
    change (2 ^ (53 - 1))%Z with 4503599627370496%Z in Hmy.
    change (2 ^ 53)%Z with 9007199254740992%Z in Hmx53.
    nia.
  - rewrite Z.min_id. rewrite !shl_align_value by lia.
    rewrite Z.sub_diag, !Z.mul_1_r. lia.
Qed.

Lemma binary_normalize_not_positive m e :
  (m <= 0)%Z -> not_positive (binary_normalize prec emax m e false).
Proof.
  intros Hm. destruct m as [|m|m]; [exact I|lia|].
  unfold binary_normalize, binary_round.
  destruct (shl_align m e _) as [mz ez].
  pose proof (binary_round_aux_signed prec emax true (Z.pos mz) ez loc_Exact) as H.
  destruct (binary_round_aux _ _ _ _ _ _); cbn in *; auto.
Qed.

(** The difference of a double and a greater one is not positive. *)
Lemma SFsub_of_ltb x y :
  valid_binary x = true -> valid_binary y = true ->
  SFltb x y = true -> not_positive (SF64sub x y).
Proof.
  destruct x as [sx|sx| |sx mx ex], y as [sy|sy| |sy my ey];
    try (destruct sx); try (destruct sy); try discriminate;
    try (intros; exact I); try (intros; reflexivity).
  all: intros Hx Hy; rewrite SFltb_finite; intros Hlt;
    unfold SF64sub, SFsub; apply binary_normalize_not_positive;
    cbn [valid_binary] in Hx, Hy; cbn [cond_Zopp].
  - destruct (lex ex mx ey my) eqn:Hlex; try discriminate.
    assert (Hlex' : lex ey my ex mx = Lt).
    { apply lex_Lt. apply lex_Gt in Hlex. lia. }
    pose proof (lex_Lt_aligned _ _ _ _ Hy Hx Hlex') as H.
    rewrite (Z.min_comm ey ex) in H. lia.
  - lia.
  - destruct (lex ex mx ey my) eqn:Hlex; try discriminate.
    pose proof (lex_Lt_aligned _ _ _ _ Hx Hy Hlex) as H. lia.
Qed.

Lemma not_positive_not_above c x :
  (0 <? c) = true -> not_positive (Prim2SF x) -> (c <? x) = false.
Proof.
  rewrite !FloatAxioms.ltb_spec. change (Prim2SF 0) with (S754_zero false).
  destruct (Prim2SF c) as [sc|sc| |sc mc ec]; cbn; try discriminate;
    destruct sc; try discriminate; intros _;
    destruct (Prim2SF x) as [s|s| |s m e]; cbn; try reflexivity;
    intros ->; reflexivity.
Qed.

(** A bracket whose upper end is below its lower end is not wider than a
    positive width. *)
Lemma width_of_reversed c l r :
  (0 <? c) = true -> (r <? l) = true -> (c <? r - l) = false.
Proof.
  intros Hc Hlt. apply not_positive_not_above; [exact Hc|].
  rewrite FloatAxioms.sub_spec. rewrite FloatAxioms.ltb_spec in Hlt.
  apply SFsub_of_ltb; [apply Prim2SF_valid..|exact Hlt].
Qed.

(** The product of a negative double and one that is not negative is not
    positive. *)
Lemma mul_neg_nonneg a b :
  (a <? 0) = true -> (b <? 0) = false -> (0 <? a * b) = false.
Proof.
  rewrite !FloatAxioms.ltb_spec, FloatAxioms.mul_spec.
  change (Prim2SF 0) with (S754_zero false). unfold SF64mul, SFmul.
  destruct (Prim2SF a) as [sa|sa| |sa ma ea]; cbn; try discriminate;
    destruct sa; try discriminate; intros _;
    destruct (Prim2SF b) as [sb|sb| |sb mb eb]; cbn; try reflexivity;
    destruct sb; try discriminate; try reflexivity; intros _.
  pose proof (binary_round_aux_signed prec emax true (Z.pos (ma * mb)) (ea + eb)
                                      loc_Exact) as H.
  cbn [xorb].
  destruct (binary_round_aux _ _ _ _ _ _) as [s|s| |s m e]; cbn in H |- *;
    try reflexivity; now rewrite H.
Qed.

Lemma mul_zero_or_nan z b :
  zero_or_nan (Prim2SF z) -> zero_or_nan (Prim2SF (z * b)).
Proof.
  rewrite FloatAxioms.mul_spec. unfold SF64mul, SFmul.
  destruct (Prim2SF z) as [s|s| |s m e]; cbn; try contradiction; intros _;
    destruct (Prim2SF b) as [s'|s'| |s' m' e']; exact I.
Qed.

(** Taking a zero from what is not negative leaves it not negative. *)
Lemma sub_zero_signed a y :
  signed false (Prim2SF a) -> zero_or_nan (Prim2SF y) ->
  signed false (Prim2SF (a - y)).
Proof.
  rewrite FloatAxioms.sub_spec. unfold SF64sub, SFsub.
  destruct (Prim2SF a) as [sa|sa| |sa ma ea]; cbn; try (intros; exact I);
    intros ->; destruct (Prim2SF y) as [sy|sy| |sy my ey]; cbn;
    try contradiction; intros _; try reflexivity; try exact I.
  now destruct sy.
Qed.


Lemma SF_nan_is_nan x : Prim2SF x = S754_nan -> is_nan x = true.
Proof.
  intros H. unfold is_nan. rewrite FloatAxioms.eqb_spec, H. reflexivity.
Qed.

Lemma not_finite_SF x :
  is_finite x = false ->
  match Prim2SF x with
  | S754_nan | S754_infinity _ => True
  | _ => False
  end.
Proof.
  unfold is_finite, is_nan, is_infinity.
  rewrite !FloatAxioms.eqb_spec, FloatAxioms.abs_spec.
  change (Prim2SF infinity) with (S754_infinity false).
  destruct (Prim2SF x) as [s|s| |s m e]; try exact (fun _ => I).
  - destruct s; discriminate.
  - cbn. rewrite Z.compare_refl.
    change (PosDef.Pos.compare_cont Eq m m) with (Pos.compare m m).
    rewrite Pos.compare_refl. now destruct s.
Qed.

Lemma mul_nan_l x y : is_nan x = true -> is_nan (x * y) = true.
Proof.
  intros H%is_nan_SF. apply SF_nan_is_nan.
  now rewrite FloatAxioms.mul_spec, H.
Qed.

Lemma add_nan_r x y : is_nan y = true -> is_nan (x + y) = true.
Proof.
  intros H%is_nan_SF. apply SF_nan_is_nan.
  rewrite FloatAxioms.add_spec, H. now destruct (Prim2SF x).
Qed.

(** A zero times an infinity or a NaN is a NaN. *)
Lemma zero_mul_not_finite z x :
  zero_SF z -> is_finite x = false -> is_nan (z * x) = true.
Proof.
  intros [s Hz] Hx%not_finite_SF. apply SF_nan_is_nan.
  rewrite FloatAxioms.mul_spec, Hz. unfold SF64mul, SFmul.
  destruct (Prim2SF x) as [sx|sx| |sx mx ex]; try contradiction; reflexivity.
Qed.

(** A value and a time weighted by a zero: a zero when both are finite, a
    NaN when one is not. *)
Lemma zero_weighted z T tau :
  zero_SF z ->
  (is_finite T = true -> is_finite tau = true -> zero_SF (z * T * tau)) /\
  (is_finite T = false \/ is_finite tau = false -> is_nan (z * T * tau) = true).
Proof.
  intros Hz. split.
  - intros HT Htau. now apply zero_SF_mul_finite; [apply zero_SF_mul_finite|].
  - intros [HT|Htau].
    + apply mul_nan_l. now apply zero_mul_not_finite.
    + destruct (is_finite T) eqn:HT.
      * apply zero_mul_not_finite; [|exact Htau]. now apply zero_SF_mul_finite.
      * apply mul_nan_l. now apply zero_mul_not_finite.
Qed.

End Ieee.

(** * Properties *)

Import Ieee.

(** ** Loops over an array *)

Lemma for_loop_insert_length {A} (f : nat -> list A -> A) n lo (l : list A) :
  length (for_loop n lo (fun i l => <[i := f i l]> l) l) = length l.
Proof.
  revert lo l. induction n as [|n IH]; intros lo l; cbn; [reflexivity|].
  now rewrite IH, length_insert.
Qed.

Lemma for_loop_insert_before {A} `{Inhabited A} (f : nat -> list A -> A)
    n lo (l : list A) i :
  (i < lo)%nat ->
  for_loop n lo (fun i l => <[i := f i l]> l) l !!! i = l !!! i.
Proof.
  revert lo l. induction n as [|n IH]; intros lo l Hi; cbn; [reflexivity|].
  rewrite IH by lia. apply list_lookup_total_insert_ne. lia.
Qed.

(** A loop that rewrites entry [i] from entry [i] alone touches the entries
    of its range once each. *)
Lemma for_loop_pointwise {A} `{Inhabited A} (g : nat -> A -> A) n lo (l : list A) i :
  (i < length l)%nat ->
  for_loop n lo (fun i l => <[i := g i (l !!! i)]> l) l !!! i =
  if decide (lo <= i < lo + n)%nat then g i (l !!! i) else l !!! i.
Proof.
  revert lo l. induction n as [|n IH]; intros lo l Hi; cbn.
  - case_decide; [lia|reflexivity].
  - destruct (decide (i = lo)) as [->|Hne].
    + rewrite (for_loop_insert_before (fun i l => g i (l !!! i))) by lia.
      rewrite list_lookup_total_insert_eq by lia. case_decide; [reflexivity|lia].
    + rewrite IH by (rewrite length_insert; lia).
      rewrite list_lookup_total_insert_ne by lia.
      repeat case_decide; try reflexivity; lia.
Qed.

(** A loop over the cell that writes [Wmunu] only is a loop over [Wmunu]. *)
Lemma for_loop_set_Wmunu (F : nat -> list float -> list float) n lo c :
  for_loop n lo (fun mu g => set_Wmunu (F mu (Wmunu g)) g) c =
  set_Wmunu (for_loop n lo F (Wmunu c)) c.
Proof.
  revert lo c. induction n as [|n IH]; intros lo c; cbn.
  - now destruct c.
  - now rewrite IH.
Qed.

(** ** Calls that return *)

Lemma returns_ret {A} (a : A) : returns (ret a) a.
Proof. now exists []. Qed.

Lemma returns_emit ev : returns (emit ev) tt.
Proof. now exists [ev]. Qed.

Lemma returns_bind {A B} (m : M A) (k : A -> M B) a b :
  returns m a -> returns (k a) b -> returns (bind m k) b.
Proof.
  intros [out1 ->] [out2 Hk]. exists (out1 ++ out2). cbn. now rewrite Hk.
Qed.

Lemma returns_inj {A} (m : M A) a b : returns m a -> returns m b -> a = b.
Proof. intros [o1 ->] [o2 [= _ ->]]. reflexivity. Qed.

(** ** QuestRevert *)

Section QuestRevert_properties.
Variable ext : Extern.
Variable self : Advance.

Lemma QuestRevert_warning_returns what c ieta ix iy rho :
  returns (QuestRevert_warning ext self what c ieta ix iy rho) tt.
Proof.
  unfold QuestRevert_warning.
  destruct (_ && _); [apply returns_emit | apply returns_ret].
Qed.

(** [QuestRevert] always returns. *)
Lemma QuestRevert_returns tau c ieta ix iy :
  returns (QuestRevert ext self tau c ieta ix iy)
          (QuestRevert_bulk (QuestRevert_rho_bulk ext self c) (QuestRevert_shear ext self c)).
Proof.
  unfold QuestRevert. apply returns_bind with (a := QuestRevert_shear ext self c).
  - unfold QuestRevert_shear.
    destruct (is_nan _); [|destruct (0.1 <? _)].
    + rewrite (for_loop_set_Wmunu (fun mu W => <[mu := 0]> W)). apply returns_ret.
    + eapply returns_bind; [apply QuestRevert_warning_returns|].
      rewrite (for_loop_set_Wmunu
                 (fun mu W => <[mu := 0.1 / QuestRevert_rho_shear ext self c
                                      * (W !!! mu)]> W)).
      apply returns_ret.
    + apply returns_ret.
  - unfold QuestRevert_bulk. destruct (0.1 <? _); [|apply returns_ret].
    eapply returns_bind; [apply QuestRevert_warning_returns|apply returns_ret].
Qed.

Lemma QuestRevert_bulk_Wmunu rho c : Wmunu (QuestRevert_bulk rho c) = Wmunu c.
Proof. unfold QuestRevert_bulk. now destruct (0.1 <? rho). Qed.

Lemma QuestRevert_shear_pi_b c : pi_b (QuestRevert_shear ext self c) = pi_b c.
Proof.
  unfold QuestRevert_shear. destruct (is_nan _); [|destruct (0.1 <? _)]; reflexivity.
Qed.

Lemma QuestRevert_shear_nan c mu :
  is_nan (QuestRevert_rho_shear ext self c) = true ->
  (mu < 10)%nat -> (mu < length (Wmunu c))%nat ->
  Wmunu (QuestRevert_shear ext self c) !!! mu = 0.
Proof.
  intros Hnan Hmu Hlen. unfold QuestRevert_shear. rewrite Hnan.
  cbn [Wmunu set_Wmunu].
  pose proof (for_loop_pointwise (fun _ _ => 0) 10 0 (Wmunu c) mu Hlen) as E.
  cbn beta in E. rewrite E. case_decide; [reflexivity|lia].
Qed.

Lemma QuestRevert_shear_scaled c mu :
  (0.1 <? QuestRevert_rho_shear ext self c) = true ->
  (mu < 10)%nat -> (mu < length (Wmunu c))%nat ->
  Wmunu (QuestRevert_shear ext self c) !!! mu =
  0.1 / QuestRevert_rho_shear ext self c * (Wmunu c !!! mu).
Proof.
  intros Hgt Hmu Hlen. unfold QuestRevert_shear.
  rewrite (ltb_not_nan_r _ _ Hgt), Hgt. cbn [Wmunu set_Wmunu].
  pose proof (for_loop_pointwise
                (fun _ w => 0.1 / QuestRevert_rho_shear ext self c * w)
                10 0 (Wmunu c) mu Hlen) as E.
  cbn beta in E. rewrite E. case_decide; [reflexivity|lia].
Qed.

(** C4.  [QuestRevert] on a cell with its 14 entries of [Wmunu]: a NaN shear
    ratio sets the 10 shear entries to zero; a shear ratio above the ceiling
    0.1 multiplies the 10 shear entries by [0.1 / ratio]; a bulk ratio above
    0.1 multiplies [pi_b] by [0.1 / ratio]. *)
Theorem QuestRevert_caps_shear_and_bulk tau c ieta ix iy :
  length (Wmunu c) = 14%nat ->
  exists c',
    returns (QuestRevert ext self tau c ieta ix iy) c' /\
    (is_nan (QuestRevert_rho_shear ext self c) = true ->
     forall mu, (mu < 10)%nat -> Wmunu c' !!! mu = 0) /\
    ((0.1 <? QuestRevert_rho_shear ext self c) = true ->
     forall mu, (mu < 10)%nat ->
       Wmunu c' !!! mu =
       0.1 / QuestRevert_rho_shear ext self c * (Wmunu c !!! mu)) /\
    ((0.1 <? QuestRevert_rho_bulk ext self c) = true ->
     pi_b c' = 0.1 / QuestRevert_rho_bulk ext self c * pi_b c).
Proof.
  intros Hlen. eexists. split; [apply QuestRevert_returns|].
  rewrite QuestRevert_bulk_Wmunu. repeat split.
  - intros Hnan mu Hmu. apply QuestRevert_shear_nan; [assumption|lia|lia].
  - intros Hgt mu Hmu. apply QuestRevert_shear_scaled; [assumption|lia|lia].
  - intros Hgt. unfold QuestRevert_bulk. rewrite Hgt. cbn [pi_b set_pi_b].
    now rewrite QuestRevert_shear_pi_b.
Qed.

(** C10.  The two NaN cases of [QuestRevert] differ: a NaN shear ratio zeroes
    the 10 shear entries, a NaN bulk ratio fails the test [rho_bulk > 0.1]
    and leaves [pi_b] as it is. *)
Theorem QuestRevert_nan_asymmetry tau c ieta ix iy :
  length (Wmunu c) = 14%nat ->
  exists c',
    returns (QuestRevert ext self tau c ieta ix iy) c' /\
    (is_nan (QuestRevert_rho_shear ext self c) = true ->
     forall mu, (mu < 10)%nat -> Wmunu c' !!! mu = 0) /\
    (is_nan (QuestRevert_rho_bulk ext self c) = true ->
     (0.1 <? QuestRevert_rho_bulk ext self c) = false /\ pi_b c' = pi_b c).
Proof.
  intros Hlen. eexists. split; [apply QuestRevert_returns|].
  rewrite QuestRevert_bulk_Wmunu. split.
  - intros Hnan mu Hmu. apply QuestRevert_shear_nan; [assumption|lia|lia].
  - intros Hnan. pose proof (ltb_nan_r 0.1 _ Hnan) as Hlt. split; [exact Hlt|].
    unfold QuestRevert_bulk. rewrite Hlt. apply QuestRevert_shear_pi_b.
Qed.

(** QuestRevert leaves the primitive variables alone. *)
Lemma QuestRevert_frame tau c ieta ix iy :
  exists c',
    returns (QuestRevert ext self tau c ieta ix iy) c' /\
    epsilon c' = epsilon c /\ rhob c' = rhob c /\ u c' = u c /\
    Lambdas c' = Lambdas c.
Proof.
  eexists. split; [apply QuestRevert_returns|].
  unfold QuestRevert_bulk, QuestRevert_shear.
  destruct (0.1 <? QuestRevert_rho_bulk ext self c),
           (is_nan (QuestRevert_rho_shear ext self c)),
           (0.1 <? QuestRevert_rho_shear ext self c); repeat split.
Qed.

End QuestRevert_properties.

(** A run of C4: a cell whose shear and bulk ratios are both above the
    ceiling; the ten shear entries and the bulk pressure are scaled down. *)
Lemma QuestRevert_caps_shear_and_bulk_witness :
  length (Wmunu large_stress_cell) = 14%nat /\
  (0.1 <? QuestRevert_rho_shear example_Extern (example_Advance (1 / 3) 0.125 None)
            large_stress_cell) = true /\
  (0.1 <? QuestRevert_rho_bulk example_Extern (example_Advance (1 / 3) 0.125 None)
            large_stress_cell) = true /\
  exists c',
    returns (QuestRevert example_Extern (example_Advance (1 / 3) 0.125 None) 1
                         large_stress_cell 0 0 0) c' /\
    (forall mu, (mu < 10)%nat ->
       Wmunu c' !!! mu =
       0.1 / QuestRevert_rho_shear example_Extern
               (example_Advance (1 / 3) 0.125 None) large_stress_cell
       * (Wmunu large_stress_cell !!! mu)) /\
    pi_b c' =
    0.1 / QuestRevert_rho_bulk example_Extern
            (example_Advance (1 / 3) 0.125 None) large_stress_cell
    * pi_b large_stress_cell.
Proof.
  assert (Hs : (0.1 <? QuestRevert_rho_shear example_Extern
                         (example_Advance (1 / 3) 0.125 None) large_stress_cell) = true)
    by (vm_compute; reflexivity).
  assert (Hb : (0.1 <? QuestRevert_rho_bulk example_Extern
                         (example_Advance (1 / 3) 0.125 None) large_stress_cell) = true)
    by (vm_compute; reflexivity).
  destruct (QuestRevert_caps_shear_and_bulk example_Extern
              (example_Advance (1 / 3) 0.125 None) 1 large_stress_cell 0 0 0
              eq_refl) as (c' & Hret & _ & Hshear & Hbulk).
  repeat split; try assumption. exists c'. auto.
Defined.

(** A run of C10: a cell with a NaN in its shear tensor and a NaN bulk
    pressure; the shear entries are zeroed, the bulk pressure stays NaN. *)
Lemma QuestRevert_nan_asymmetry_witness :
  length (Wmunu malformed_cell) = 14%nat /\
  is_nan (QuestRevert_rho_shear example_Extern (example_Advance (1 / 3) 0.125 None)
            malformed_cell) = true /\
  is_nan (QuestRevert_rho_bulk example_Extern (example_Advance (1 / 3) 0.125 None)
            malformed_cell) = true /\
  exists c',
    returns (QuestRevert example_Extern (example_Advance (1 / 3) 0.125 None) 1
                         malformed_cell 0 0 0) c' /\
    (forall mu, (mu < 10)%nat -> Wmunu c' !!! mu = 0) /\
    pi_b c' = pi_b malformed_cell.
Proof.
  assert (Hs : is_nan (QuestRevert_rho_shear example_Extern
                         (example_Advance (1 / 3) 0.125 None) malformed_cell) = true)
    by (vm_compute; reflexivity).
  assert (Hb : is_nan (QuestRevert_rho_bulk example_Extern
                         (example_Advance (1 / 3) 0.125 None) malformed_cell) = true)
    by (vm_compute; reflexivity).
  destruct (QuestRevert_nan_asymmetry example_Extern
              (example_Advance (1 / 3) 0.125 None) 1 malformed_cell 0 0 0
              eq_refl) as (c' & Hret & Hshear & Hbulk).
  repeat split; try assumption. exists c'. repeat split; auto. now apply Hbulk.
Defined.

(** ** The choice of the damping factor *)

Lemma select_step_negative alp minAlp :
  (alp <? 0) = true -> select_step alp minAlp = 0.
Proof.
  intros Hneg. unfold select_step.
  destruct (0 <? alp) eqn:Hpos.
  - now rewrite (ltb_asym _ _ Hpos) in Hneg.
  - cbn. now rewrite Hneg.
Qed.

Lemma select_step_zero alp : select_step alp 0 = 0.
Proof.
  unfold select_step. destruct (0 <? alp) eqn:Hpos.
  - rewrite (ltb_asym _ _ Hpos). reflexivity.
  - cbn. now destruct (alp <? 0).
Qed.

Lemma select_all_zero cands : select_all cands 0 = 0.
Proof.
  induction cands as [|a cands IH]; [reflexivity|].
  cbn. rewrite select_step_zero. exact IH.
Qed.

(** Any negative candidate forces the factor to 0. *)
Lemma select_all_negative cands minAlp alp :
  In alp cands -> (alp <? 0) = true -> select_all cands minAlp = 0.
Proof.
  revert minAlp. induction cands as [|a cands IH]; intros minAlp Hin Hneg.
  - destruct Hin.
  - cbn. destruct Hin as [->|Hin].
    + rewrite select_step_negative by assumption. apply select_all_zero.
    + now apply IH.
Qed.

Lemma select_all_least cands seen m :
  least_of seen m ->
  (forall a, In a cands -> (a <? 0) = false) ->
  least_of (seen ++ cands) (select_all cands m).
Proof.
  revert seen m. induction cands as [|a cands IH]; intros seen m Hm Hnn.
  - now rewrite app_nil_r.
  - cbn. replace (seen ++ a :: cands) with ((seen ++ [a]) ++ cands)
      by now rewrite <- app_assoc.
    apply IH; [|intros b Hb; apply Hnn; now right].
    destruct Hm as [Hm Hmin]. unfold select_step.
    rewrite (Hnn a) by now left.
    destruct (0 <? a) eqn:Hpos; cbn; [destruct (a <? m) eqn:Hlt|].
    + split.
      * right. split; [apply in_or_app; right; now left|]. split; [assumption|].
        destruct Hm as [->|(_ & _ & Hm1)]; [assumption|].
        exact (ltb_trans _ _ _ Hlt Hm1).
      * intros b [Hb|[<-|[]]]%in_app_or Hbpos; [|apply ltb_irrefl].
        destruct (b <? a) eqn:Hba; [|reflexivity].
        pose proof (Hmin b Hb Hbpos) as Hbm.
        now rewrite (ltb_trans _ _ _ Hba Hlt) in Hbm.
    + split.
      * destruct Hm as [->|(Hin & H0 & H1)]; [now left|right].
        split; [apply in_or_app; now left|]. now split.
      * intros b [Hb|[<-|[]]]%in_app_or Hbpos; [now apply Hmin|assumption].
    + split.
      * destruct Hm as [->|(Hin & H0 & H1)]; [now left|right].
        split; [apply in_or_app; now left|]. now split.
      * intros b [Hb|[<-|[]]]%in_app_or Hbpos; [now apply Hmin|congruence].
Qed.

(** In exact arithmetic, a candidate that is not 0 is the root of its
    condition: after the rescaling by it, the condition is 0.  The first
    condition reads the absolute value of an eigenvalue, so its candidate
    has to be positive. *)
Lemma candidate_root (T A B : R) :
  (- T / (A + B) <> 0)%R ->
  (T + A * (- T / (A + B)) + B * (- T / (A + B)) = 0)%R.
Proof.
  intros Hcand.
  assert (HD : (A + B <> 0)%R).
  { intros HD. apply Hcand. rewrite HD. unfold Rdiv.
    now rewrite Rinv_0, Rmult_0_r. }
  field. exact HD.
Qed.

Lemma nCandidate_root (p : nParts R) (eps P pi_b L0 L2 : R) (i : nat) :
  (i < 4)%nat ->
  (0 < nCandidate p eps P pi_b L0 L2 i)%R \/
  (i <> 0%nat /\ nCandidate p eps P pi_b L0 L2 i <> 0%R) ->
  nth i (nCondition p eps P
           (pi_b * nCandidate p eps P pi_b L0 L2 i)%R
           (L0 * nCandidate p eps P pi_b L0 L2 i)%R
           (L2 * nCandidate p eps P pi_b L0 L2 i)%R) 0%R = 0%R.
Proof.
  intros Hi Hcand.
  assert (Hne : nCandidate p eps P pi_b L0 L2 i <> 0%R).
  { destruct Hcand as [Hpos|[_ Hne]]; [lra|exact Hne]. }
  destruct i as [|[|[|[|i]]]]; [| | | |lia]; cbn in Hcand, Hne |- *.
  - destruct Hcand as [Hpos|[Hi0 _]]; [|congruence].
    rewrite Rabs_mult, (Rabs_pos_eq (_ / _)) by lra.
    rewrite <- (candidate_root _ _ _ Hne) at 1. unfold Rdiv. ring.
  - rewrite <- (candidate_root _ _ _ Hne) at 1. unfold Rdiv. ring.
  - rewrite <- (candidate_root _ _ _ Hne) at 1. unfold Rdiv. ring.
  - rewrite <- (candidate_root _ _ _ Hne) at 1. unfold Rdiv. ring.
Qed.

(** ** nCausalityConstraints *)

Section nCausality_properties.
Variable self : Advance.

Lemma nCausality_minAlp_fold c :
  nCausality_minAlp self c =
  select_all (nCausality_alp self c <$> [0; 1; 2; 3]%nat) 1.
Proof. reflexivity. Qed.

Lemma In_candidates c a :
  In a (nCausality_alp self c <$> [0; 1; 2; 3]%nat) <->
  exists i, (i < 4)%nat /\ a = nCausality_alp self c i.
Proof.
  cbn. split.
  - intros [<-|[<-|[<-|[<-|[]]]]]; eexists; (split; [|reflexivity]); lia.
  - intros (i & Hi & ->). destruct i as [|[|[|[|i]]]]; auto; lia.
Qed.

Lemma nCausalityConstraints_eq c tau :
  nCausalityConstraints self c tau =
  ((if 0.01 <? epsilon c
    then [Append "necessary_causality_reduction_factor_wtau.dat"
            [Dbl (nCausality_minAlp self c); Str "   "; Dbl (epsilon c);
             Str "   "; Dbl tau]]
    else []),
   Ret (rescaled (nCausality_minAlp self c) c)).
Proof.
  unfold nCausalityConstraints. now destruct (0.01 <? epsilon c).
Qed.

(** C3, as the code has it.  [nCausalityConstraints] on a cell.  Each
    negative condition gets the candidate of the [switch], the negated
    transport part of the condition over the sum of its two viscous terms;
    the other conditions get 1.  Read in exact arithmetic, the same closed
    form is the root of its condition under the rescaling when it is
    positive (for [n3], [n5], [n6]: when it is not 0).  A negative candidate
    forces the factor to 0; otherwise the factor is the least of 1 and the
    positive candidates, so it lies in (0, 1].  The bulk pressure, every
    entry of [Wmunu] and the three eigenvalues are multiplied by the factor,
    the primitive variables are kept, and one record (factor, energy
    density, proper time) is appended exactly when the energy density
    exceeds 0.01. *)
Theorem nCausalityConstraints_rescales c tau :
  let eps := epsilon c in
  let P := get_pressure (eos self) eps (rhob c) in
  let L0 := Lambdas c !!! 0%nat in
  let L2 := Lambdas c !!! 2%nat in
  let alp := nCausality_alp self c in
  let minAlp := nCausality_minAlp self c in
  (forall i, (i < 4)%nat ->
     alp i = if (nCausality_nCondition self c !!! i) <? 0
             then nCandidate (nCausality_parts self c) eps P (pi_b c) L0 L2 i
             else 1) /\
  (forall (p : nParts R) (eps P pi_b L0 L2 : R) i, (i < 4)%nat ->
     (0 < nCandidate p eps P pi_b L0 L2 i)%R \/
     (i <> 0%nat /\ nCandidate p eps P pi_b L0 L2 i <> 0%R) ->
     nth i (nCondition p eps P
              (pi_b * nCandidate p eps P pi_b L0 L2 i)%R
              (L0 * nCandidate p eps P pi_b L0 L2 i)%R
              (L2 * nCandidate p eps P pi_b L0 L2 i)%R) 0%R = 0%R) /\
  ((exists i, (i < 4)%nat /\ (alp i <? 0) = true) -> minAlp = 0) /\
  ((forall i, (i < 4)%nat -> (alp i <? 0) = false) ->
     (minAlp = 1 \/
      exists i, (i < 4)%nat /\ minAlp = alp i /\
                (0 <? minAlp) = true /\ (minAlp <? 1) = true) /\
     (forall i, (i < 4)%nat -> (0 <? alp i) = true -> (alp i <? minAlp) = false)) /\
  nCausalityConstraints self c tau =
  ((if 0.01 <? eps
    then [Append "necessary_causality_reduction_factor_wtau.dat"
            [Dbl minAlp; Str "   "; Dbl eps; Str "   "; Dbl tau]]
    else []),
   Ret {| epsilon := epsilon c; rhob := rhob c; u := u c;
          Wmunu := (fun pi => pi * minAlp) <$> Wmunu c;
          Lambdas := (fun lam => lam * minAlp) <$> Lambdas c;
          pi_b := pi_b c * minAlp |}).
Proof.
  intros eps P L0 L2 alp minAlp.
  assert (Hleast : (forall i, (i < 4)%nat -> (alp i <? 0) = false) ->
                   least_of (nCausality_alp self c <$> [0; 1; 2; 3]%nat) minAlp).
  { intros Hnn. subst minAlp. rewrite nCausality_minAlp_fold.
    apply (select_all_least _ [] 1).
    - split; [now left|]. intros a [].
    - intros a (i & Hi & ->)%In_candidates. now apply Hnn. }
  refine (conj _ (conj _ (conj _ (conj _ _)))).
  - intros i Hi. reflexivity.
  - intros p eps' P' pi_b' L0' L2' i Hi Hpos. now apply nCandidate_root.
  - intros (i & Hi & Hneg). subst minAlp. rewrite nCausality_minAlp_fold.
    apply select_all_negative with (alp := alp i); [|assumption].
    apply In_candidates. now exists i.
  - intros Hnn. destruct (Hleast Hnn) as [Hm Hmin]. split.
    + destruct Hm as [Hone|(Hin & H0 & H1)]; [now left|right].
      apply In_candidates in Hin as (i & Hi & Hin). now exists i.
    + intros i Hi Hpos. apply Hmin; [|assumption].
      apply In_candidates. now exists i.
  - apply nCausalityConstraints_eq.
Qed.

End nCausality_properties.

(** *** A second pass *)

Lemma fmap_mul_1 (l : list float) : (fun x => x * 1) <$> l = l.
Proof.
  induction l as [|x l IH]; [reflexivity|]. cbn. now rewrite mul_1_r, IH.
Qed.

Lemma rescaled_1 c :
  pi_b (rescaled 1 c) = pi_b c /\ Wmunu (rescaled 1 c) = Wmunu c /\
  Lambdas (rescaled 1 c) = Lambdas c.
Proof. cbn. now rewrite mul_1_r, !fmap_mul_1. Qed.

(** C9, as the code has it.  When none of the four conditions is negative on
    the cell that a first call returned, a second call computes the factor 1
    and leaves the bulk pressure, [Wmunu] and the eigenvalues as they are. *)
Theorem nCausalityConstraints_second_pass self c tau c1 :
  returns (nCausalityConstraints self c tau) c1 ->
  (forall i, (i < 4)%nat -> (nCausality_nCondition self c1 !!! i <? 0) = false) ->
  nCausality_minAlp self c1 = 1 /\
  exists c2,
    returns (nCausalityConstraints self c1 tau) c2 /\
    pi_b c2 = pi_b c1 /\ Wmunu c2 = Wmunu c1 /\ Lambdas c2 = Lambdas c1.
Proof.
  intros _ Hnn.
  assert (Hone : nCausality_minAlp self c1 = 1).
  { rewrite nCausality_minAlp_fold. cbn [fmap list_fmap].
    unfold nCausality_alp. rewrite !Hnn by lia. reflexivity. }
  split; [exact Hone|]. exists (rescaled 1 c1). split.
  - rewrite nCausalityConstraints_eq, Hone. eexists; reflexivity.
  - apply rescaled_1.
Qed.

(** A run of C9 where the first pass settles the cell (energy density 0.5,
    pressure 0.5, bulk pressure -1.5, eigenvalues -1, 0, 1): the first pass
    damps by 0.1238..., the four conditions on the damped cell are not
    negative, and the second pass changes nothing. *)
Lemma nCausalityConstraints_second_pass_witness :
  exists c1,
    returns (nCausalityConstraints (example_Advance (1 / 3) 0.5 None)
                                   settled_cell 1) c1 /\
    (nCausality_minAlp (example_Advance (1 / 3) 0.5 None) settled_cell <? 1) = true /\
    (forall i, (i < 4)%nat ->
       (nCausality_nCondition (example_Advance (1 / 3) 0.5 None) c1 !!! i <? 0)
       = false) /\
    nCausality_minAlp (example_Advance (1 / 3) 0.5 None) c1 = 1 /\
    exists c2,
      returns (nCausalityConstraints (example_Advance (1 / 3) 0.5 None) c1 1) c2 /\
      pi_b c2 = pi_b c1 /\ Wmunu c2 = Wmunu c1 /\ Lambdas c2 = Lambdas c1.
Proof.
  set (self := example_Advance (1 / 3) 0.5 None).
  set (c1 := rescaled (nCausality_minAlp self settled_cell) settled_cell).
  assert (Hret : returns (nCausalityConstraints self settled_cell 1) c1)
    by (rewrite nCausalityConstraints_eq; eexists; reflexivity).
  assert (Hnn : forall i, (i < 4)%nat ->
                  (nCausality_nCondition self c1 !!! i <? 0) = false).
  { intros i Hi. destruct i as [|[|[|[|i]]]]; [| | | |lia]; vm_compute; reflexivity. }
  exists c1. split; [exact Hret|]. split; [vm_compute; reflexivity|].
  split; [exact Hnn|].
  exact (nCausalityConstraints_second_pass self settled_cell 1 c1 Hret Hnn).
Defined.

(** C9, as the claim has it, fails.  For the cell below (energy density 2,
    pressure 0.5, bulk pressure -3, eigenvalues -1, 0, 1, the default
    relaxation factors), the first pass damps by 0.1988...; on the damped
    cell the third condition [n5] comes out at -5.55e-17, so the second pass
    damps again, by 0.99999999999999978, and the bulk pressure moves. *)

Lemma nCausalityConstraints_second_pass_counterexample :
  exists c1 c2,
    returns (nCausalityConstraints (example_Advance (1 / 3) 0.5 None)
                                   unsettled_cell 1) c1 /\
    returns (nCausalityConstraints (example_Advance (1 / 3) 0.5 None) c1 1) c2 /\
    (nCausality_nCondition (example_Advance (1 / 3) 0.5 None) c1 !!! 2%nat <? 0)
    = true /\
    nCausality_minAlp (example_Advance (1 / 3) 0.5 None) c1 = 0.99999999999999978 /\
    (nCausality_minAlp (example_Advance (1 / 3) 0.5 None) c1 <? 1) = true /\
    pi_b c1 = -0.59659090909090917 /\
    pi_b c2 = -0.59659090909090906 /\
    (pi_b c2 =? pi_b c1) = false.
Proof.
  set (self := example_Advance (1 / 3) 0.5 None).
  set (c1 := rescaled (nCausality_minAlp self unsettled_cell) unsettled_cell).
  exists c1, (rescaled (nCausality_minAlp self c1) c1).
  split; [rewrite nCausalityConstraints_eq; eexists; reflexivity|].
  split; [rewrite nCausalityConstraints_eq; eexists; reflexivity|].
  repeat split; vm_compute; reflexivity.
Qed.

(** A run of C3: on [unsettled_cell] three conditions are negative, their
    candidates are 0.2317..., 0.2317... and 0.1988..., none is negative, and
    the factor is the least of them. *)
Lemma nCausalityConstraints_rescales_witness :
  (forall i, (i < 4)%nat ->
     (nCausality_alp (example_Advance (1 / 3) 0.5 None) unsettled_cell i <? 0)
     = false) /\
  (forall i, (i < 4)%nat ->
     (0 <? nCausality_alp (example_Advance (1 / 3) 0.5 None) unsettled_cell i)
     = true ->
     (nCausality_alp (example_Advance (1 / 3) 0.5 None) unsettled_cell i
      <? nCausality_minAlp (example_Advance (1 / 3) 0.5 None) unsettled_cell)
     = false) /\
  nCausality_minAlp (example_Advance (1 / 3) 0.5 None) unsettled_cell
  = nCausality_alp (example_Advance (1 / 3) 0.5 None) unsettled_cell 2 /\
  nCausalityConstraints (example_Advance (1 / 3) 0.5 None) unsettled_cell 1
  = ([Append "necessary_causality_reduction_factor_wtau.dat"
        [Dbl 0.19886363636363638; Str "   "; Dbl 2; Str "   "; Dbl 1]],
     Ret (rescaled 0.19886363636363638 unsettled_cell)).
Proof.
  assert (Hnn : forall i, (i < 4)%nat ->
            (nCausality_alp (example_Advance (1 / 3) 0.5 None) unsettled_cell i
             <? 0) = false).
  { intros i Hi. destruct i as [|[|[|[|i]]]]; [| | | |lia]; vm_compute; reflexivity. }
  destruct (nCausalityConstraints_rescales (example_Advance (1 / 3) 0.5 None)
              unsettled_cell 1) as (_ & _ & _ & Hleast & Hrun).
  destruct (Hleast Hnn) as [_ Hmin].
  split; [exact Hnn|]. split; [exact Hmin|]. split; [vm_compute; reflexivity|].
  exact Hrun.
Defined.

(** C3, as the claim has it, fails: in binary64 the candidate does not solve
    its condition at equality.  On [unsettled_cell] the third condition [n5]
    is negative, its candidate 0.1988... is the least and becomes the
    factor, and [n5] on the cell rescaled by it is -5.55e-17, not 0. *)

Lemma nCausalityConstraints_candidate_counterexample :
  (nCausality_nCondition (example_Advance (1 / 3) 0.5 None) unsettled_cell !!! 2%nat
   <? 0) = true /\
  nCausality_alp (example_Advance (1 / 3) 0.5 None) unsettled_cell 2
  = 0.19886363636363638 /\
  nCausality_minAlp (example_Advance (1 / 3) 0.5 None) unsettled_cell
  = 0.19886363636363638 /\
  nCausalityConstraints (example_Advance (1 / 3) 0.5 None) unsettled_cell 1
  = ([Append "necessary_causality_reduction_factor_wtau.dat"
        [Dbl 0.19886363636363638; Str "   "; Dbl 2; Str "   "; Dbl 1]],
     Ret (rescaled 0.19886363636363638 unsettled_cell)) /\
  nCausality_nCondition (example_Advance (1 / 3) 0.5 None)
    (rescaled 0.19886363636363638 unsettled_cell) !!! 2%nat
  = -5.5511151231257827e-17 /\
  (nCausality_nCondition (example_Advance (1 / 3) 0.5 None)
     (rescaled 0.19886363636363638 unsettled_cell) !!! 2%nat =? 0) = false.
Proof. repeat split; vm_compute; reflexivity. Qed.

(** ** sCausalityConstraints *)

Section sCausality_properties.
Variable self : Advance.

(** Each stage returns a factor or runs out of fuel; none exits. *)
Lemma sCausalityConstraints_frame fuel c tau :
  match snd (sCausalityConstraints self fuel c tau) with
  | Ret c' => epsilon c' = epsilon c /\ rhob c' = rhob c /\ u c' = u c
  | Exit _ => False
  | OutOfFuel => True
  end.
Proof.
  assert (Hsearch : forall fuel left right func result,
            match snd (BinarySearch fuel left right func result) with
            | Exit _ => False | _ => True end).
  { intros n. induction n as [|n IH]; intros left right func result; cbn.
    - now destruct (1e-4 <? right - left).
    - destruct (1e-4 <? right - left); [|exact I].
      destruct (right <? left); [exact I|].
      destruct (0 <? func right * func left); [exact I|].
      destruct (func ((left + right) / 2) <? 0); apply IH. }
  assert (H5 : match snd (Suff5_stage self fuel c (sCausality_minBeta self c)) with
               | Exit _ => False | _ => True end).
  { unfold Suff5_stage. destruct (Suff5 self _ c <? 0); [|exact I].
    pose proof (Hsearch fuel 0 (sCausality_minBeta self c)
                        (fun beta => Suff5 self beta c) 0) as Hs.
    destruct (BinarySearch fuel 0 (sCausality_minBeta self c) _ 0)
      as [out [[[] r]| |]]; cbn in *; try exact I; try contradiction.
    destruct (get_cs2 (eos self) (epsilon c) (rhob c) <? 0.15); exact I. }
  assert (H7 : forall minBeta,
            match snd (Suff7_stage self fuel c minBeta) with
            | Exit _ => False | _ => True end).
  { intros minBeta. unfold Suff7_stage. destruct (Suff7 self _ c <? 0); [|exact I].
    pose proof (Hsearch fuel 0 minBeta (fun beta => Suff7 self beta c) 0) as Hs.
    destruct (BinarySearch fuel 0 minBeta _ 0)
      as [out [[[] r]| |]]; cbn in *; try exact I; contradiction. }
  assert (H8 : forall minBeta,
            match snd (Suff8_stage self fuel c minBeta) with
            | Exit _ => False | _ => True end).
  { intros minBeta. unfold Suff8_stage. destruct (Suff8 self _ c <? 0); [|exact I].
    pose proof (Hsearch fuel 0 minBeta (fun beta => Suff8 self beta c) 0) as Hs.
    destruct (BinarySearch fuel 0 minBeta _ 0)
      as [out [[[] r]| |]]; cbn in *; try exact I; contradiction. }
  unfold sCausalityConstraints.
  destruct (Suff5_stage self fuel c (sCausality_minBeta self c))
    as [out5 [b5| |]]; cbn in *; try exact I; try contradiction.
  specialize (H7 b5).
  destruct (Suff7_stage self fuel c b5)
    as [out7 [b7| |]]; cbn in *; try exact I; try contradiction.
  specialize (H8 b7).
  destruct (Suff8_stage self fuel c b7)
    as [out8 [b8| |]]; cbn in *; try exact I; try contradiction.
  destruct (0.01 <? epsilon c); cbn; auto.
Qed.

End sCausality_properties.

(** ** The regularisations keep the primitive variables *)

(** C8.  [QuestRevert] and [nCausalityConstraints] always return, and
    [sCausalityConstraints] never exits; whenever one of the three returns,
    the energy density, the charge density and the four-velocity of the cell
    are those it was given.  What they write is [Wmunu], [pi_b] and
    [Lambdas], the other three fields of the cell. *)
Theorem regularisation_keeps_primitives ext self fuel tau c ieta ix iy :
  (exists c',
     returns (QuestRevert ext self tau c ieta ix iy) c' /\
     epsilon c' = epsilon c /\ rhob c' = rhob c /\ u c' = u c) /\
  (exists c',
     returns (nCausalityConstraints self c tau) c' /\
     epsilon c' = epsilon c /\ rhob c' = rhob c /\ u c' = u c) /\
  match snd (sCausalityConstraints self fuel c tau) with
  | Ret c' => epsilon c' = epsilon c /\ rhob c' = rhob c /\ u c' = u c
  | Exit _ => False
  | OutOfFuel => True
  end.
Proof.
  refine (conj _ (conj _ _)).
  - destruct (QuestRevert_frame ext self tau c ieta ix iy)
      as (c' & Hret & He & Hr & Hu & _).
    exists c'. auto.
  - exists (rescaled (nCausality_minAlp self c) c). split.
    + rewrite nCausalityConstraints_eq. eexists; reflexivity.
    + repeat split.
  - apply sCausalityConstraints_frame.
Qed.

(** A run of [sCausalityConstraints] whose bisections end within 64 turns. *)
Lemma sCausalityConstraints_example_returns :
  snd (sCausalityConstraints (example_Advance_with 0.1 0.5 5 10) 64
                             compressed_cell 1)
  = Ret (rescaled 0.1224117337361626 compressed_cell).
Proof. vm_compute. reflexivity. Qed.

(** ** MaxSpeed *)

Lemma snd_bind_ret {A B} (m : M A) (k : A -> M B) out a :
  m = (out, Ret a) -> snd (bind m k) = snd (k a).
Proof. intros ->. cbn. now destruct (k a). Qed.

(** The four ways out of the checks of lines 911-934, and what is known of
    a value that is returned. *)
Lemma MaxSpeed_check_cases f num den vs2 v :
  ((f <? 0) = true -> snd (MaxSpeed_check f num den vs2 v) = Exit 0) /\
  ((f <? 0) = false -> (f <? v) = true -> (num =? 0) = false ->
   (abs (f - v) <? 0.0001) = true ->
   snd (MaxSpeed_check f num den vs2 v) = Ret v) /\
  ((f <? 0) = false -> (f <? v) = true -> (num =? 0) = false ->
   (abs (f - v) <? 0.0001) = false ->
   snd (MaxSpeed_check f num den vs2 v) = Exit 0) /\
  ((f <? 0) = false -> (f <? v) = false -> (1 <? f) = true ->
   snd (MaxSpeed_check f num den vs2 v) = Exit 1) /\
  (forall f', snd (MaxSpeed_check f num den vs2 v) = Ret f' ->
     ((num =? 0) = false ->
      (f' <? v) = false /\
      (is_nan f' = false -> is_nan v = false -> (v <=? f') = true)) /\
     ((1 <? v) = false ->
      (1 <? f') = false /\ (is_nan f' = false -> (f' <=? 1) = true))).
Proof.
  assert (Hbounds : forall f',
            snd (MaxSpeed_check f num den vs2 v) = Ret f' ->
            ((num =? 0) = false -> (f' <? v) = false) /\
            ((1 <? v) = false -> (1 <? f') = false)).
  { unfold MaxSpeed_check. intros f'.
    destruct (f <? 0) eqn:Hneg; [discriminate|].
    destruct (f <? v) eqn:Hlow.
    - destruct (num =? 0) eqn:Hnum; cbn [negb].
      + intros [= <-]. split; [discriminate|]. intros Hv.
        destruct (1 <? f) eqn:Hbig; [|reflexivity].
        now rewrite (ltb_trans _ _ _ Hbig Hlow) in Hv.
      + destruct (abs (f - v) <? 0.0001); [|discriminate].
        intros [= <-]. split; [intros _; apply ltb_irrefl|auto].
    - destruct (1 <? f) eqn:Hbig; [discriminate|].
      intros [= <-]. auto. }
  refine (conj _ (conj _ (conj _ (conj _ _)))).
  - unfold MaxSpeed_check. now intros ->.
  - unfold MaxSpeed_check. now intros -> -> -> ->.
  - unfold MaxSpeed_check. now intros -> -> -> ->.
  - unfold MaxSpeed_check. now intros -> -> ->.
  - intros f' Hret. destruct (Hbounds f' Hret) as [Hlow Hhigh]. split.
    + intros Hnum. split; [now apply Hlow|].
      intros Hf Hv. apply leb_of_not_ltb; auto.
    + intros Hv. split; [now apply Hhigh|].
      intros Hf. apply leb_of_not_ltb; auto.
Qed.

(** The values that pass the checks of lines 911-934 as they are, and the
    one that is replaced. *)
Lemma MaxSpeed_check_returns f num den vs2 v :
  ((f <? 0) = false -> (f <? v) = true -> (num =? 0) = true ->
   MaxSpeed_check f num den vs2 v = ([], Ret f)) /\
  ((f <? 0) = false -> (f <? v) = false -> (1 <? f) = false ->
   MaxSpeed_check f num den vs2 v = ([], Ret f)) /\
  (is_nan f = true -> MaxSpeed_check f num den vs2 v = ([], Ret f)) /\
  ((f <? 0) = false -> (f <? v) = true -> (num =? 0) = false ->
   (abs (f - v) <? 0.0001) = true ->
   MaxSpeed_check f num den vs2 v = ([], Ret v)).
Proof.
  unfold MaxSpeed_check. refine (conj _ (conj _ (conj _ _))).
  - now intros -> -> ->.
  - now intros -> -> ->.
  - intros Hnan.
    now rewrite (ltb_nan_l f 0 Hnan), (ltb_nan_l f v Hnan), (ltb_nan_r 1 f Hnan).
  - now intros -> -> -> ->.
Qed.

Lemma bind_ret_nil {A B} (m : M A) (k : A -> M B) out a b :
  m = (out, Ret a) -> k a = ([], Ret b) -> bind m k = (out, Ret b).
Proof. intros -> Hk. cbn. rewrite Hk. now rewrite app_nil_r. Qed.

(** C5, as the code has it.  When the numerator is computed (no exit on an
    imaginary characteristic speed), with [f = num / max(den, small_eps)]
    and [v = ux/utau]: a negative [f] exits; an [f] below [v] with
    [num != 0] is returned as [v] if it misses [v] by less than 1e-4 and
    exits otherwise; an [f] below [v] with [num == 0] is returned as it is;
    an [f] not below [v] and above 1 exits with code 1; any other [f] is
    returned as it is, and so is a NaN, which fails every test.  Hence a
    value that is returned with [num != 0] is not below [v], and is at least
    [v] when neither is a NaN; a value that is returned with [v] not above 1
    is not above 1, and is at most 1 when it is not a NaN. *)
Theorem MaxSpeed_f_bounds ext self direc grid_p out num :
  MaxSpeed_num self direc grid_p = (out, Ret num) ->
  let utau := ReconstCell.u grid_p !!! 0%nat in
  let ux := abs (ReconstCell.u grid_p !!! direc) in
  let v := ux / utau in
  let f := num / std_max (MaxSpeed_den self grid_p) (small_eps ext) in
  ((f <? 0) = true -> snd (MaxSpeed_f ext self direc grid_p) = Exit 0) /\
  ((f <? 0) = false -> (f <? v) = true -> (num =? 0) = false ->
   (abs (f - v) <? 0.0001) = true ->
   MaxSpeed_f ext self direc grid_p = (out, Ret v)) /\
  ((f <? 0) = false -> (f <? v) = true -> (num =? 0) = false ->
   (abs (f - v) <? 0.0001) = false ->
   snd (MaxSpeed_f ext self direc grid_p) = Exit 0) /\
  ((f <? 0) = false -> (f <? v) = true -> (num =? 0) = true ->
   MaxSpeed_f ext self direc grid_p = (out, Ret f)) /\
  ((f <? 0) = false -> (f <? v) = false -> (1 <? f) = true ->
   snd (MaxSpeed_f ext self direc grid_p) = Exit 1) /\
  ((f <? 0) = false -> (f <? v) = false -> (1 <? f) = false ->
   MaxSpeed_f ext self direc grid_p = (out, Ret f)) /\
  (is_nan f = true -> MaxSpeed_f ext self direc grid_p = (out, Ret f)) /\
  (forall f', snd (MaxSpeed_f ext self direc grid_p) = Ret f' ->
     ((num =? 0) = false ->
      (f' <? v) = false /\
      (is_nan f' = false -> is_nan v = false -> (v <=? f') = true)) /\
     ((1 <? v) = false ->
      (1 <? f') = false /\ (is_nan f' = false -> (f' <=? 1) = true))).
Proof.
  intros Hnum utau ux v f.
  pose proof (MaxSpeed_check_cases f num (MaxSpeed_den self grid_p)
                (get_cs2 (eos self) (ReconstCell.e grid_p) (ReconstCell.rhob grid_p))
                v) as (Hneg & _ & Hfar & Hbig & Hbounds).
  pose proof (MaxSpeed_check_returns f num (MaxSpeed_den self grid_p)
                (get_cs2 (eos self) (ReconstCell.e grid_p) (ReconstCell.rhob grid_p))
                v) as (Hskip & Hpass & Hnan & Hsnap).
  assert (Hsnd : snd (MaxSpeed_f ext self direc grid_p)
                 = snd (MaxSpeed_check f num (MaxSpeed_den self grid_p)
                          (get_cs2 (eos self) (ReconstCell.e grid_p)
                                   (ReconstCell.rhob grid_p)) v)).
  { unfold MaxSpeed_f. now rewrite (snd_bind_ret _ _ _ _ Hnum). }
  assert (Hret : forall b,
            MaxSpeed_check f num (MaxSpeed_den self grid_p)
              (get_cs2 (eos self) (ReconstCell.e grid_p) (ReconstCell.rhob grid_p))
              v = ([], Ret b) ->
            MaxSpeed_f ext self direc grid_p = (out, Ret b)).
  { intros b Hb. unfold MaxSpeed_f. exact (bind_ret_nil _ _ _ _ _ Hnum Hb). }
  rewrite Hsnd.
  refine (conj Hneg (conj _ (conj Hfar (conj _ (conj Hbig (conj _ (conj _ Hbounds))))))).
  - intros H1 H2 H3 H4. apply Hret. now apply Hsnap.
  - intros H1 H2 H3. apply Hret. now apply Hskip.
  - intros H1 H2 H3. apply Hret. now apply Hpass.
  - intros H1. apply Hret. now apply Hnan.
Qed.

(** Three runs of C5.  The face of a fluid moving at 0.6 c along x, with a
    squared speed of sound of 1/3: the speed 0.8744... is returned, between
    0.6 and 1.  The face of a fluid at rest with an equation of state that
    answers -0.1 for the squared speed of sound and for [dpde]: the
    numerator is the square root of a negative number, and the NaN is
    returned.  The face with [u = (3, 1, 0, 0)] and a squared speed of sound
    of 1.125: the numerator is 0, and the speed 0 is returned as it is. *)
Lemma MaxSpeed_f_bounds_witness :
  (MaxSpeed_num (example_Advance (1 / 3) 0.5 None) 1 moving_face
   = ([], Ret 1.2023502691896257) /\
   snd (MaxSpeed_f example_Extern (example_Advance (1 / 3) 0.5 None) 1 moving_face)
   = Ret 0.87443655941063692 /\
   (0.75 / 1.25 <=? 0.87443655941063692) = true /\
   (0.87443655941063692 <=? 1) = true) /\
  (MaxSpeed_num (example_Advance (-0.1) 0.5 None) 1 rest_face = ([], Ret nan) /\
   MaxSpeed_f example_Extern (example_Advance (-0.1) 0.5 None) 1 rest_face
   = ([], Ret nan)) /\
  (MaxSpeed_num (example_Advance 1.125 0.5 None) 1 stiff_face = ([], Ret 0) /\
   MaxSpeed_f example_Extern (example_Advance 1.125 0.5 None) 1 stiff_face
   = ([], Ret 0)).
Proof.
  split; [|split].
  - assert (Hnum : MaxSpeed_num (example_Advance (1 / 3) 0.5 None) 1 moving_face
                   = ([], Ret 1.2023502691896257)) by (vm_compute; reflexivity).
    assert (Hret : snd (MaxSpeed_f example_Extern (example_Advance (1 / 3) 0.5 None)
                                   1 moving_face) = Ret 0.87443655941063692)
      by (vm_compute; reflexivity).
    destruct (MaxSpeed_f_bounds example_Extern (example_Advance (1 / 3) 0.5 None)
                1 moving_face [] _ Hnum) as (_ & _ & _ & _ & _ & _ & _ & Hbounds).
    destruct (Hbounds _ Hret) as [Hlow Hhigh].
    split; [exact Hnum|]. split; [exact Hret|]. split.
    + refine (proj2 (Hlow _) _ _); vm_compute; reflexivity.
    + refine (proj2 (Hhigh _) _); vm_compute; reflexivity.
  - assert (Hnum : MaxSpeed_num (example_Advance (-0.1) 0.5 None) 1 rest_face
                   = ([], Ret nan)) by (vm_compute; reflexivity).
    split; [exact Hnum|].
    destruct (MaxSpeed_f_bounds example_Extern (example_Advance (-0.1) 0.5 None)
                1 rest_face [] _ Hnum) as (_ & _ & _ & _ & _ & _ & Hnan & _).
    rewrite Hnan by (vm_compute; reflexivity). vm_compute. reflexivity.
  - assert (Hnum : MaxSpeed_num (example_Advance 1.125 0.5 None) 1 stiff_face
                   = ([], Ret 0)) by (vm_compute; reflexivity).
    split; [exact Hnum|].
    destruct (MaxSpeed_f_bounds example_Extern (example_Advance 1.125 0.5 None)
                1 stiff_face [] _ Hnum) as (_ & _ & _ & Hskip & _).
    rewrite Hskip by (vm_compute; reflexivity). vm_compute. reflexivity.
Defined.

(** C5, as the claim has it, fails.  With [u = (3, 1, 0, 0)] and a squared
    speed of sound of 1.125: [ut2mux2 = 8], [num_temp_sqrt = (8 - 7*1.125) *
    1.125 = 0.140625], [num = 3*1*(1 - 1.125) + 0.375 = 0], [den = 9*(1 -
    1.125) + 1.125 = 0], so [f = 0 / small_eps = 0].  [f] is not negative, it
    is below [ux/utau = 1/3], and since [num == 0] the call returns it. *)

Lemma MaxSpeed_f_below_velocity_counterexample :
  MaxSpeed_num (example_Advance 1.125 0.5 None) 1 stiff_face = ([], Ret 0) /\
  MaxSpeed_den (example_Advance 1.125 0.5 None) stiff_face = 0 /\
  MaxSpeed_f example_Extern (example_Advance 1.125 0.5 None) 1 stiff_face
  = ([], Ret 0) /\
  (0 <? abs (ReconstCell.u stiff_face !!! 1%nat)
        / (ReconstCell.u stiff_face !!! 0%nat)) = true.
Proof. repeat split; vm_compute; reflexivity. Qed.

(** ** FirstRKStepT *)

Section FirstRKStepT_properties.
Variable ext : Extern.
Variable self : Advance.

(** The loop of lines 150-170 rewrites each of the five entries from itself. *)
Lemma rk_combine_loop tau rk_flag prev_cell dwmn qi_source qi alpha :
  length qi = 5%nat -> (alpha < 5)%nat ->
  for_loop 5 0 (rk_combine self tau rk_flag prev_cell dwmn qi_source) qi !!! alpha =
  ((qi !!! alpha) - (dwmn !!! alpha) * delta_tau (DATA self)
   + (qi_source !!! alpha) * delta_tau (DATA self)
   + double_of_int rk_flag * get_TJb self prev_cell alpha 0 * tau)
  * (1 / (1 + double_of_int rk_flag)).
Proof.
  intros Hlen Halpha.
  pose proof (for_loop_pointwise
    (fun alpha q =>
       (q - (dwmn !!! alpha) * delta_tau (DATA self)
        + (qi_source !!! alpha) * delta_tau (DATA self)
        + double_of_int rk_flag * get_TJb self prev_cell alpha 0 * tau)
       * (1 / (1 + double_of_int rk_flag))) 5 0 qi alpha) as E.
  cbn beta in E. rewrite decide_True in E by lia. apply E. lia.
Qed.

(** C1, as the code has it.  When [MakeDeltaQI] and the source terms return,
    [FirstRKStepT] returns the cell reconstructed from a vector [stored]
    which holds, for each of the five components, with
    [raw = qi - dwmn*delta_tau + qi_source*delta_tau] and [T] the component
    of the previous snapshot's conserved vector: at sub-step 1,
    [(raw + T*tau) * 0.5]; at sub-step 0, [raw + 0*T*tau] (the code adds the
    previous value with the weight 0 and multiplies by [1/(1+0)]), which is
    the number [raw], up to the sign of a zero, when [T] and [tau] are
    finite, and a NaN when one of them is not. *)
Theorem FirstRKStepT_weighting tau x_local y_local eta_s_local
    arena_current arena_future arena_prev ix iy ieta rk_flag
    out1 qi out2 qi_source alpha :
  let tau_rk := tau + double_of_int rk_flag * delta_tau (DATA self) in
  let dwmn :=
    MakeWSource (diss_helper self) tau_rk arena_current arena_prev ix iy ieta in
  let raw :=
    (qi !!! alpha) - (dwmn !!! alpha) * delta_tau (DATA self)
    + (qi_source !!! alpha) * delta_tau (DATA self) in
  let T := get_TJb self (arena_prev ix iy ieta) alpha 0 in
  MakeDeltaQI ext tau_rk arena_current ix iy ieta rk_flag = (out1, Ret qi) ->
  hydro_source self tau_rk x_local y_local eta_s_local arena_current ix iy ieta
  = (out2, Ret qi_source) ->
  length qi = 5%nat -> (alpha < 5)%nat ->
  exists stored,
    FirstRKStepT_qi ext self tau x_local y_local eta_s_local
                    arena_current arena_future arena_prev ix iy ieta rk_flag
    = (out1 ++ out2, Ret stored) /\
    FirstRKStepT ext self tau x_local y_local eta_s_local
                 arena_current arena_future arena_prev ix iy ieta rk_flag
    = (out1 ++ out2,
       Ret (UpdateTJbRK
              (ReconstIt_shell (reconst_helper self)
                 (tau + delta_tau (DATA self)) stored (arena_current ix iy ieta))
              (arena_future ix iy ieta))) /\
    (rk_flag = 0%Z -> stored !!! alpha = raw + 0 * T * tau) /\
    (rk_flag = 0%Z -> is_finite T = true -> is_finite tau = true ->
     same_value (stored !!! alpha) raw) /\
    (rk_flag = 0%Z -> is_finite T = false \/ is_finite tau = false ->
     is_nan (stored !!! alpha) = true) /\
    (rk_flag = 1%Z -> stored !!! alpha = (raw + T * tau) * 0.5).
Proof.
  intros tau_rk dwmn raw T HQ HS Hlen Halpha.
  assert (Hqi : FirstRKStepT_qi ext self tau x_local y_local eta_s_local
                  arena_current arena_future arena_prev ix iy ieta rk_flag
                = (out1 ++ out2,
                   Ret (for_loop 5 0
                          (rk_combine self tau rk_flag (arena_prev ix iy ieta)
                                      dwmn qi_source) qi))).
  { unfold FirstRKStepT_qi. fold tau_rk. rewrite HQ. cbn [bind].
    rewrite HS. cbn [bind ret]. rewrite app_nil_r. reflexivity. }
  assert (Hzero : rk_flag = 0%Z ->
            for_loop 5 0 (rk_combine self tau rk_flag (arena_prev ix iy ieta)
                                     dwmn qi_source) qi !!! alpha
            = raw + 0 * T * tau).
  { intros ->. rewrite rk_combine_loop by assumption.
    change (double_of_int 0) with 0. change (1 / (1 + 0)) with 1.
    now rewrite mul_1_r. }
  eexists. split; [exact Hqi|].
  refine (conj _ (conj Hzero (conj _ (conj _ _)))).
  - unfold FirstRKStepT. rewrite Hqi. cbn [bind ret].
    rewrite app_nil_r. reflexivity.
  - intros H0 HT Htau. rewrite (Hzero H0).
    apply add_zero_same. now apply (zero_weighted 0 T tau zero_SF_0).
  - intros H0 Hinf. rewrite (Hzero H0).
    apply add_nan_r. now apply (zero_weighted 0 T tau zero_SF_0).
  - intros ->. rewrite rk_combine_loop by assumption.
    change (double_of_int 1) with 1. change (1 / (1 + 1)) with 0.5.
    rewrite mul_1_l. reflexivity.
Qed.

End FirstRKStepT_properties.

(** Two runs of C1 on a uniform grid at rest, first component: at sub-step 0
    the raw update 2 is stored; at sub-step 1 the raw update 2.5 is averaged
    with the previous energy density 3 at [tau = 1]. *)
Lemma FirstRKStepT_weighting_witness :
  (exists stored,
     FirstRKStepT_qi example_Extern (example_Advance (1 / 3) 0.5 None) 1 0 0 0
       (uniform_grid current_cell) (uniform_grid current_cell)
       (uniform_grid previous_cell) 0 0 0 0
     = ([], Ret stored) /\
     same_value (stored !!! 0%nat) 2) /\
  (exists stored,
     FirstRKStepT_qi example_Extern (example_Advance (1 / 3) 0.5 None) 1 0 0 0
       (uniform_grid current_cell) (uniform_grid current_cell)
       (uniform_grid previous_cell) 0 0 0 1
     = ([], Ret stored) /\
     stored !!! 0%nat = (2.5 + 3 * 1) * 0.5).
Proof.
  split.
  - destruct (FirstRKStepT_weighting example_Extern
                (example_Advance (1 / 3) 0.5 None) 1 0 0 0
                (uniform_grid current_cell) (uniform_grid current_cell)
                (uniform_grid previous_cell) 0 0 0 0
                [] [2; 0; 0; 0; 0] [] [0; 0; 0; 0; 0] 0%nat
                eq_refl eq_refl eq_refl ltac:(lia))
      as (stored & Hrun & _ & _ & Hzero & _).
    exists stored. split; [exact Hrun|].
    exact (Hzero eq_refl eq_refl eq_refl).
  - destruct (FirstRKStepT_weighting example_Extern
                (example_Advance (1 / 3) 0.5 None) 1 0 0 0
                (uniform_grid current_cell) (uniform_grid current_cell)
                (uniform_grid previous_cell) 0 0 0 1
                [] [2.5; 0; 0; 0; 0] [] [0; 0; 0; 0; 0] 0%nat
                eq_refl eq_refl eq_refl ltac:(lia))
      as (stored & Hrun & _ & _ & _ & _ & Hone).
    exists stored. split; [exact Hrun|].
    exact (Hone eq_refl).
Defined.

(** C1, as the claim has it, fails at sub-step 0.  On the same grid with a
    previous snapshot of infinite energy density, [MakeDeltaQI] gives
    [(2, 0, 0, 0, 0)], there is no source and [dwmn] is zero, so the raw update
    of the first component is 2.  The previous conserved vector is
    [(inf, nan, nan, nan, 0)]; the code adds [0 * T * tau] to each raw
    update, which is a NaN for the first four, and the cell is reconstructed
    from NaN. *)

Lemma FirstRKStepT_weighting_counterexample :
  MakeDeltaQI example_Extern 1 (uniform_grid current_cell) 0 0 0 0
  = ([], Ret [2; 0; 0; 0; 0]) /\
  hydro_source (example_Advance (1 / 3) 0.5 None) 1 0 0 0
               (uniform_grid current_cell) 0 0 0
  = ([], Ret [0; 0; 0; 0; 0]) /\
  2 - (MakeWSource (diss_helper (example_Advance (1 / 3) 0.5 None)) 1
         (uniform_grid current_cell) (uniform_grid hot_previous) 0 0 0 !!! 0%nat)
      * delta_tau (DATA (example_Advance (1 / 3) 0.5 None))
    + 0 * delta_tau (DATA (example_Advance (1 / 3) 0.5 None)) = 2 /\
  get_TJb (example_Advance (1 / 3) 0.5 None) hot_previous 0 0 = infinity /\
  FirstRKStepT_qi example_Extern (example_Advance (1 / 3) 0.5 None) 1 0 0 0
    (uniform_grid current_cell) (uniform_grid current_cell)
    (uniform_grid hot_previous) 0 0 0 0
  = ([], Ret [nan; nan; nan; nan; 0]) /\
  FirstRKStepT example_Extern (example_Advance (1 / 3) 0.5 None) 1 0 0 0
    (uniform_grid current_cell) (uniform_grid current_cell)
    (uniform_grid hot_previous) 0 0 0 0
  = ([], Ret {| epsilon := nan; rhob := 0; u := [1; 0; 0; 0];
                Wmunu := Wmunu current_cell; Lambdas := Lambdas current_cell;
                pi_b := pi_b current_cell |}).
Proof. repeat split; vm_compute; reflexivity. Qed.

(** *** NaN source terms *)

Ltac run_M :=
  cbn [for_loopM bind ret emit exit insert list_insert lookup_total
       list_lookup_total snd fst app].

Section Source_properties.
Variable self : Advance.
Variable h : HydroSourceBase.
Hypothesis source_set : hydro_source_terms_ptr self = Some h.
Hypothesis flag_set : flag_add_hydro_source self = true.

(** The tested path: a NaN among the four energy-momentum entries ends the
    process, with the message of the first NaN entry. *)
Lemma hydro_source_energy_nan_exits tau_rk x_local y_local eta_s_local
    arena_current ix iy ieta ii :
  (ii < 4)%nat ->
  is_nan (tau_rk * (get_hydro_energy_source h tau_rk x_local y_local eta_s_local
                      (u (arena_current ix iy ieta)) !!! ii)) = true ->
  snd (hydro_source self tau_rk x_local y_local eta_s_local
                    arena_current ix iy ieta) = Exit 0.
Proof.
  intros Hii Hnan. unfold hydro_source. rewrite flag_set, source_set.
  set (j_mu := get_hydro_energy_source h tau_rk x_local y_local eta_s_local
                 (u (arena_current ix iy ieta))) in *.
  run_M.
  destruct (is_nan (tau_rk * (j_mu !!! 0%nat))) eqn:H0; run_M; [reflexivity|].
  destruct (is_nan (tau_rk * (j_mu !!! 1%nat))) eqn:H1; run_M; [reflexivity|].
  destruct (is_nan (tau_rk * (j_mu !!! 2%nat))) eqn:H2; run_M; [reflexivity|].
  destruct (is_nan (tau_rk * (j_mu !!! 3%nat))) eqn:H3; run_M; [reflexivity|].
  destruct ii as [|[|[|[|ii]]]]; try congruence. lia.
Qed.

(** The untested path: with four energy-momentum entries that are numbers,
    the net-baryon entry is stored whatever it is, NaN included, and the call
    returns. *)
Lemma hydro_source_rhob_unchecked tau_rk x_local y_local eta_s_local
    arena_current ix iy ieta :
  turn_on_rhob (DATA self) = 1%Z ->
  (forall ii, (ii < 4)%nat ->
     is_nan (tau_rk * (get_hydro_energy_source h tau_rk x_local y_local
                         eta_s_local (u (arena_current ix iy ieta)) !!! ii))
     = false) ->
  exists qi_source,
    hydro_source self tau_rk x_local y_local eta_s_local arena_current ix iy ieta
    = ([], Ret qi_source) /\
    qi_source !!! 4%nat =
    tau_rk * get_hydro_rhob_source h tau_rk x_local y_local eta_s_local
               (u (arena_current ix iy ieta)).
Proof.
  intros Hrhob Hnum. unfold hydro_source. rewrite flag_set, source_set, Hrhob.
  set (j_mu := get_hydro_energy_source h tau_rk x_local y_local eta_s_local
                 (u (arena_current ix iy ieta))) in *.
  run_M. rewrite (Hnum 0%nat) by lia. run_M.
  rewrite (Hnum 1%nat) by lia. run_M.
  rewrite (Hnum 2%nat) by lia. run_M.
  rewrite (Hnum 3%nat) by lia. run_M.
  eexists. split; reflexivity.
Qed.

End Source_properties.

(** C7 at a failing input: a source whose energy-momentum deposit is finite
    and whose net-baryon deposit is NaN.  The source vector comes back with
    the NaN in its fifth entry, [FirstRKStepT] returns, and the cell written
    to the future snapshot has a NaN charge density. *)

Lemma FirstRKStepT_nan_rhob_source_returns :
  hydro_source (example_Advance (1 / 3) 0.5 (Some nan_rhob_source)) 1 0 0 0
               (uniform_grid current_cell) 0 0 0
  = ([], Ret [0.5; 0; 0; 0; nan]) /\
  FirstRKStepT example_Extern (example_Advance (1 / 3) 0.5 (Some nan_rhob_source))
               1 0 0 0 (uniform_grid current_cell) (uniform_grid current_cell)
               (uniform_grid previous_cell) 0 0 0 0
  = ([], Ret {| epsilon := 1.7; rhob := nan; u := [1; 0; 0; 0];
                Wmunu := Wmunu current_cell; Lambdas := Lambdas current_cell;
                pi_b := pi_b current_cell |}).
Proof. split; vm_compute; reflexivity. Qed.

(** ** FirstRKStepW *)

Lemma for_loop_ext {St} (body1 body2 : nat -> St -> St) n lo s :
  (forall i s, body1 i s = body2 i s) ->
  for_loop n lo body1 s = for_loop n lo body2 s.
Proof.
  intros Hext. revert lo s. induction n as [|n IH]; intros lo s; cbn;
    [reflexivity|]. now rewrite Hext, IH.
Qed.

(** A loop that writes entry [i] of [Wmunu] with a value that does not read
    [Wmunu] is a loop over [Wmunu] alone. *)
Lemma for_loop_write_Wmunu (val : nat -> Cell_small -> float) n lo c :
  (forall i w g, val i (set_Wmunu w g) = val i g) ->
  for_loop n lo (fun i g => set_Wmunu (<[i := val i g]> (Wmunu g)) g) c =
  set_Wmunu (for_loop n lo (fun i W => <[i := val i c]> W) (Wmunu c)) c.
Proof.
  intros Hval. revert lo c. induction n as [|n IH]; intros lo c; cbn.
  - now destruct c.
  - rewrite IH. cbn [Wmunu set_Wmunu].
    rewrite (for_loop_ext _ (fun i W => <[i := val i c]> W));
      [reflexivity|].
    intros i W. now rewrite Hval.
Qed.

Lemma for_loop_const_lookup {A} `{Inhabited A} (val : nat -> A) n lo (l : list A) i :
  (i < length l)%nat ->
  for_loop n lo (fun i l => <[i := val i]> l) l !!! i =
  if decide (lo <= i < lo + n)%nat then val i else l !!! i.
Proof.
  intros Hi. exact (for_loop_pointwise (fun i _ => val i) n lo l i Hi).
Qed.

Lemma for_loop_const_length {A} (val : nat -> A) n lo (l : list A) :
  length (for_loop n lo (fun i l => <[i := val i]> l) l) = length l.
Proof. exact (for_loop_insert_length (fun i _ => val i) n lo l). Qed.

Section FirstRKStepW_properties.
Variable ext : Extern.
Variable self : Advance.
Variable tau : float.
Variables arena_prev arena_current : SCGrid.
Variable rk_flag : Z.
Variable k : Kinematics.
Variables ieta ix iy : Z.

#[local] Abbreviation shear_value' :=
  (shear_value ext self tau arena_prev arena_current rk_flag k ieta ix iy).
#[local] Abbreviation bulk_value' :=
  (bulk_value self tau arena_prev arena_current rk_flag k ieta ix iy).
#[local] Abbreviation diff_value' :=
  (diff_value self tau arena_prev arena_current rk_flag k ieta ix iy).

Lemma FirstRKStepW_shear_eq g :
  FirstRKStepW_shear ext self tau arena_prev arena_current rk_flag k ieta ix iy g =
  set_Wmunu
    (if (turn_on_shear (DATA self) =? 1)%Z
     then for_loop 5 4 (fun i W => <[i := shear_value' i g]> W) (Wmunu g)
     else for_loop 5 4 (fun i W => <[i := 0]> W) (Wmunu g)) g.
Proof.
  unfold FirstRKStepW_shear. destruct (turn_on_shear (DATA self) =? 1)%Z.
  - exact (for_loop_write_Wmunu shear_value' 5 4 g (fun _ _ _ => eq_refl)).
  - exact (for_loop_set_Wmunu (fun i W => <[i := 0]> W) 5 4 g).
Qed.

Lemma FirstRKStepW_diff_eq g :
  FirstRKStepW_diff self tau arena_prev arena_current rk_flag k ieta ix iy g =
  set_Wmunu
    (if (turn_on_diff (DATA self) =? 1)%Z
     then for_loop 3 11 (fun i W => <[i := diff_value' i g]> W) (Wmunu g)
     else for_loop 4 10 (fun i W => <[i := 0]> W) (Wmunu g)) g.
Proof.
  unfold FirstRKStepW_diff. destruct (turn_on_diff (DATA self) =? 1)%Z.
  - exact (for_loop_write_Wmunu diff_value' 3 11 g (fun _ _ _ => eq_refl)).
  - exact (for_loop_set_Wmunu (fun i W => <[i := 0]> W) 4 10 g).
Qed.

Lemma FirstRKStepW_bulk_eq g :
  FirstRKStepW_bulk self tau arena_prev arena_current rk_flag k ieta ix iy g =
  set_pi_b (if (turn_on_bulk (DATA self) =? 1)%Z then bulk_value' g else 0) g.
Proof.
  unfold FirstRKStepW_bulk. now destruct (turn_on_bulk (DATA self) =? 1)%Z.
Qed.

(** C2, as the code has it.  For each evolved quantity that is switched on
    (the shear entries 4..8 of [Wmunu], the bulk pressure, the diffusion
    entries 11..13), the value written to the future cell is [evolved]: the
    weighted old values, plus the source times [delta_tau], plus the flux
    divergence, plus [w * (current value * current u0)], all times
    [1/(1+w)] and divided by the future [u0]. *)
Theorem FirstRKStepW_evolve_formula arena_future :
  let p := arena_prev ix iy ieta in
  let c := arena_current ix iy ieta in
  let rk := double_of_int rk_flag in
  let tau_now := tau + rk * delta_tau (DATA self) in
  let f := arena_future ix iy ieta in
  let f' := FirstRKStepW_evolve ext self tau arena_prev arena_current
                                arena_future rk_flag k ieta ix iy in
  length (Wmunu f) = 14%nat ->
  (turn_on_shear (DATA self) = 1%Z ->
   forall idx, (4 <= idx < 9)%nat ->
     Wmunu f' !!! idx =
     evolved rk (Wmunu c !!! idx) (u c !!! 0%nat) (Wmunu p !!! idx) (u p !!! 0%nat)
       (Make_uWSource (diss_helper self) tau_now c p
          (fst (map_1d_idx_to_2d ext idx)) (snd (map_1d_idx_to_2d ext idx))
          rk_flag (theta_local k) (a_local k) (sigma_local k) (omega_local k))
       (delta_tau (DATA self))
       (Make_uWRHS (diss_helper self) tau_now arena_current ix iy ieta
          (fst (map_1d_idx_to_2d ext idx)) (snd (map_1d_idx_to_2d ext idx))
          (theta_local k) (a_local k))
       (u f !!! 0%nat)) /\
  (turn_on_bulk (DATA self) = 1%Z ->
   pi_b f' =
   evolved rk (pi_b c) (u c !!! 0%nat) (pi_b p) (u p !!! 0%nat)
     (Make_uPiSource (diss_helper self) tau_now c p rk_flag
        (theta_local k) (sigma_local k))
     (delta_tau (DATA self))
     (Make_uPRHS (diss_helper self) tau_now arena_current ix iy ieta
        (theta_local k))
     (u f !!! 0%nat)) /\
  (turn_on_diff (DATA self) = 1%Z ->
   forall idx, (11 <= idx < 14)%nat ->
     Wmunu f' !!! idx =
     evolved rk (Wmunu c !!! idx) (u c !!! 0%nat) (Wmunu p !!! idx) (u p !!! 0%nat)
       (Make_uqSource (diss_helper self) tau_now c p (Z.of_nat idx - 10)
          rk_flag (theta_local k) (a_local k) (sigma_local k) (omega_local k)
          (baryon_diffusion_vector k))
       (delta_tau (DATA self))
       (Make_uqRHS (diss_helper self) tau_now arena_current ix iy ieta 4
          (Z.of_nat idx - 10))
       (u f !!! 0%nat)).
Proof.
  intros p c rk tau_now f f' Hlen. subst f'. unfold FirstRKStepW_evolve. fold f.
  rewrite FirstRKStepW_diff_eq, FirstRKStepW_bulk_eq, FirstRKStepW_shear_eq.
  cbn [Wmunu pi_b set_Wmunu set_pi_b].
  set (W1 := if (turn_on_shear (DATA self) =? 1)%Z
             then for_loop 5 4 (fun i W => <[i := shear_value' i f]> W) (Wmunu f)
             else for_loop 5 4 (fun i W => <[i := 0]> W) (Wmunu f)).
  assert (Hlen1 : length W1 = 14%nat).
  { subst W1. destruct (turn_on_shear (DATA self) =? 1)%Z;
      now rewrite for_loop_const_length. }
  refine (conj _ (conj _ _)).
  - intros Hshear idx Hidx.
    assert (HW1 : W1 !!! idx = shear_value' idx f).
    { subst W1. rewrite Hshear. cbn [Z.eqb Pos.eqb].
      rewrite for_loop_const_lookup by lia. now rewrite decide_True by lia. }
    destruct (turn_on_diff (DATA self) =? 1)%Z;
      rewrite for_loop_const_lookup by lia;
      rewrite decide_False by lia; exact HW1.
  - intros ->. reflexivity.
  - intros -> idx Hidx. cbn [Z.eqb Pos.eqb].
    rewrite for_loop_const_lookup by lia. now rewrite decide_True by lia.
Qed.

End FirstRKStepW_properties.

(** A run of C2 at the second sub-step on a uniform grid at rest with no
    sources and no fluxes: one shear entry, the bulk pressure and one
    diffusion entry. *)
Lemma FirstRKStepW_evolve_formula_witness :
  length (Wmunu (uniform_grid current_cell 0 0 0)%Z) = 14%nat /\
  Wmunu (FirstRKStepW_evolve example_Extern (example_Advance (1 / 3) 0.5 None) 1
           (uniform_grid stressed_previous) (uniform_grid stressed_current)
           (uniform_grid current_cell) 1 still_kinematics 0 0 0) !!! 4%nat
  = evolved 1 1 1 3 1 0 0.25 0 1 /\
  pi_b (FirstRKStepW_evolve example_Extern (example_Advance (1 / 3) 0.5 None) 1
          (uniform_grid stressed_previous) (uniform_grid stressed_current)
          (uniform_grid current_cell) 1 still_kinematics 0 0 0)
  = evolved 1 1 1 3 1 0 0.25 0 1 /\
  Wmunu (FirstRKStepW_evolve example_Extern (example_Advance (1 / 3) 0.5 None) 1
           (uniform_grid stressed_previous) (uniform_grid stressed_current)
           (uniform_grid current_cell) 1 still_kinematics 0 0 0) !!! 12%nat
  = evolved 1 7 1 3 1 0 0.25 0 1.
Proof.
  destruct (FirstRKStepW_evolve_formula example_Extern
              (example_Advance (1 / 3) 0.5 None) 1
              (uniform_grid stressed_previous) (uniform_grid stressed_current)
              1 still_kinematics 0 0 0 (uniform_grid current_cell) eq_refl)
    as (Hshear & Hbulk & Hdiff).
  split; [reflexivity|]. split; [|split].
  - exact (Hshear eq_refl 4%nat ltac:(lia)).
  - exact (Hbulk eq_refl).
  - exact (Hdiff eq_refl 12%nat ltac:(lia)).
Defined.

(** C2, as the claim has it, fails at the second sub-step.  In the run
    above the code writes [(0*(1*1) + 1*(3*1) + 0*0.25 + 0 + 1*(1*1)) * 0.5 /
    1 = 2] for the bulk pressure and for [Wmunu[4]]; the claimed formula
    gives [(0 + 3 + 0 + 0) / 2 / 1 = 1.5]. *)
Lemma FirstRKStepW_evolve_counterexample :
  pi_b (FirstRKStepW_evolve example_Extern (example_Advance (1 / 3) 0.5 None) 1
          (uniform_grid stressed_previous) (uniform_grid stressed_current)
          (uniform_grid current_cell) 1 still_kinematics 0 0 0) = 2 /\
  evolved_as_claimed (double_of_int 1)
    (pi_b stressed_current) (u stressed_current !!! 0%nat)
    (pi_b stressed_previous) (u stressed_previous !!! 0%nat)
    (Make_uPRHS quiet_diss (1 + 1 * 0.25) (uniform_grid stressed_current) 0 0 0 0)
    (Make_uPiSource quiet_diss (1 + 1 * 0.25) stressed_current stressed_previous 1
       0 (sigma_local still_kinematics))
    0.25 (u current_cell !!! 0%nat) = 1.5 /\
  Wmunu (FirstRKStepW_evolve example_Extern (example_Advance (1 / 3) 0.5 None) 1
           (uniform_grid stressed_previous) (uniform_grid stressed_current)
           (uniform_grid current_cell) 1 still_kinematics 0 0 0) !!! 4%nat = 2 /\
  (2 =? 1.5) = false.
Proof. repeat split; vm_compute; reflexivity. Qed.
(** * Further properties *)

(** ** Calls that end, loops that keep *)

Lemma ends_with_ret {A} (a : A) (P : A -> Prop) F : P a -> ends_with (ret a) P F.
Proof. intros H. exact H. Qed.

Lemma ends_with_returns {A} (m : M A) a (P : A -> Prop) F :
  returns m a -> P a -> ends_with m P F.
Proof. intros [out ->] H. exact H. Qed.

Lemma ends_with_bind {A B} (m : M A) (k : A -> M B) (P : A -> Prop)
    (Q : B -> Prop) F :
  ends_with m P F -> (forall a, P a -> ends_with (k a) Q F) ->
  ends_with (bind m k) Q F.
Proof.
  unfold ends_with. destruct m as [out [a| |]]; cbn; intros Hm Hk;
    [|contradiction|exact Hm].
  specialize (Hk a Hm). destruct (k a) as [out' r]. exact Hk.
Qed.

Lemma for_loop_invariant {St} (P : St -> Prop) (body : nat -> St -> St) n lo s :
  (forall i s, P s -> P (body i s)) -> P s -> P (for_loop n lo body s).
Proof.
  intros Hbody. revert lo s. induction n as [|n IH]; intros lo s Hs; cbn;
    [exact Hs|]. apply IH, Hbody, Hs.
Qed.

Lemma same_primitives_refl c : same_primitives c c.
Proof. now repeat split. Qed.

Lemma same_primitives_trans c1 c2 c3 :
  same_primitives c1 c2 -> same_primitives c2 c3 -> same_primitives c1 c3.
Proof. intros (? & ? & ?) (? & ? & ?). repeat split; congruence. Qed.

Lemma set_Wmunu_primitives w c : same_primitives (set_Wmunu w c) c.
Proof. now repeat split. Qed.

Lemma set_pi_b_primitives p c : same_primitives (set_pi_b p c) c.
Proof. now repeat split. Qed.

Lemma for_loop_set_Wmunu_primitives (F : nat -> Cell_small -> list float) n lo g :
  same_primitives (for_loop n lo (fun i s => set_Wmunu (F i s) s) g) g.
Proof.
  apply (for_loop_invariant (fun s => same_primitives s g));
    [|apply same_primitives_refl].
  intros i s Hs. exact (same_primitives_trans _ _ _ (set_Wmunu_primitives _ s) Hs).
Qed.

(** A loop that writes zeros at the places [idx i]. *)
Lemma for_loop_zero_hit (idx : nat -> nat) n lo (W : list float) i :
  (lo <= i < lo + n)%nat -> (idx i < length W)%nat ->
  for_loop n lo (fun i W => <[idx i := 0]> W) W !!! idx i = 0.
Proof.
  revert lo W. induction n as [|n IH]; intros lo W Hi Hlen; cbn [for_loop]; [lia|].
  destruct (decide (i = lo)) as [E|Hne].
  - subst i. clear Hi IH. revert W Hlen. generalize (S lo) as lo'.
    induction n as [|n IH]; intros lo' W Hlen; cbn [for_loop].
    + apply list_lookup_total_insert_eq. lia.
    + destruct (decide (idx lo' = idx lo)) as [E|E].
      * rewrite E. rewrite list_insert_insert_eq. apply IH. exact Hlen.
      * rewrite list_insert_insert_ne by congruence.
        apply IH. rewrite length_insert. exact Hlen.
  - apply IH; [lia|]. rewrite length_insert. exact Hlen.
Qed.

Lemma for_loop_zero_miss (idx : nat -> nat) n lo (W : list float) j :
  (forall i, (lo <= i < lo + n)%nat -> idx i <> j) ->
  for_loop n lo (fun i W => <[idx i := 0]> W) W !!! j = W !!! j.
Proof.
  revert lo W. induction n as [|n IH]; intros lo W Hmiss; cbn [for_loop];
    [reflexivity|].
  rewrite IH by (intros i Hi; apply Hmiss; lia).
  apply list_lookup_total_insert_ne. apply Hmiss. lia.
Qed.

Lemma for_loop_zero_length (idx : nat -> nat) n lo (W : list float) :
  length (for_loop n lo (fun i W => <[idx i := 0]> W) W) = length W.
Proof.
  revert lo W. induction n as [|n IH]; intros lo W; cbn [for_loop]; [reflexivity|].
  now rewrite IH, length_insert.
Qed.

(** A loop that writes [val i] at the place [base + i]. *)
Lemma for_loop_write_at (val : nat -> float) (base : nat) n lo (W : list float) j :
  (j < length W)%nat ->
  for_loop n lo (fun i W => <[(base + i)%nat := val i]> W) W !!! j =
  if decide (base + lo <= j < base + lo + n)%nat then val (j - base)%nat else W !!! j.
Proof.
  revert lo W. induction n as [|n IH]; intros lo W Hj; cbn [for_loop].
  - case_decide; [lia|reflexivity].
  - rewrite IH by (rewrite length_insert; lia).
    destruct (decide (j = base + lo)%nat) as [->|Hne].
    + rewrite list_lookup_total_insert_eq by lia.
      replace (base + lo - base)%nat with lo by lia.
      repeat case_decide; try reflexivity; lia.
    + rewrite list_lookup_total_insert_ne by lia.
      repeat case_decide; try reflexivity; lia.
Qed.

(** ** solveEigenvaluesWmunu *)

Lemma solveEigenvaluesWmunu_Wmunu ext c :
  Wmunu (solveEigenvaluesWmunu ext c) = Wmunu c.
Proof. unfold solveEigenvaluesWmunu. now destruct (for_loop 3 1 _ _). Qed.

Lemma solveEigenvaluesWmunu_u ext c : u (solveEigenvaluesWmunu ext c) = u c.
Proof. unfold solveEigenvaluesWmunu. now destruct (for_loop 3 1 _ _). Qed.

Lemma solveEigenvaluesWmunu_pi_b ext c : pi_b (solveEigenvaluesWmunu ext c) = pi_b c.
Proof. unfold solveEigenvaluesWmunu. now destruct (for_loop 3 1 _ _). Qed.

Lemma solveEigenvaluesWmunu_primitives ext c :
  same_primitives (solveEigenvaluesWmunu ext c) c.
Proof.
  unfold solveEigenvaluesWmunu. destruct (for_loop 3 1 _ _). now repeat split.
Qed.

(** One turn of the loop of lines 358-365 keeps the two extremes. *)
Lemma extremes_step es k mn mx :
  extremes_of es k mn mx ->
  let temp := es !!! k in
  let '(mn', mx') :=
    if mx <? temp then (mn, temp)
    else if temp <? mn then (temp, mx) else (mn, mx) in
  extremes_of es (S k) mn' mx'.
Proof.
  intros (Hmn & Hmx & Hall & Hord) temp.
  assert (Hmn' : exists i, (i < S k)%nat /\ mn = es !!! i)
    by (destruct Hmn as (i & Hi & E); exists i; split; [lia|exact E]).
  assert (Hmx' : exists i, (i < S k)%nat /\ mx = es !!! i)
    by (destruct Hmx as (i & Hi & E); exists i; split; [lia|exact E]).
  assert (Hk : exists i, (i < S k)%nat /\ temp = es !!! i)
    by (exists k; split; [lia|reflexivity]).
  destruct (mx <? temp) eqn:Hup; [|destruct (temp <? mn) eqn:Hdown].
  - assert (Hnd : (temp <? mn) = false).
    { destruct (temp <? mn) eqn:H; [|reflexivity].
      now rewrite (ltb_trans _ _ _ Hup H) in Hord. }
    refine (conj Hmn' (conj Hk (conj _ Hnd))).
    intros i Hi. destruct (decide (i = k)) as [->|Hne].
    + split; [exact Hnd|apply ltb_irrefl].
    + destruct (Hall i ltac:(lia)) as [Hlo Hhi]. split; [exact Hlo|].
      destruct (temp <? es !!! i) eqn:H; [|reflexivity].
      now rewrite (ltb_trans _ _ _ Hup H) in Hhi.
  - refine (conj Hk (conj Hmx' (conj _ Hup))).
    intros i Hi. destruct (decide (i = k)) as [->|Hne].
    + split; [apply ltb_irrefl|exact Hup].
    + destruct (Hall i ltac:(lia)) as [Hlo Hhi]. split; [|exact Hhi].
      destruct (es !!! i <? temp) eqn:H; [|reflexivity].
      now rewrite (ltb_trans _ _ _ H Hdown) in Hlo.
  - refine (conj Hmn' (conj Hmx' (conj _ Hord))).
    intros i Hi. destruct (decide (i = k)) as [->|Hne].
    + split; assumption.
    + apply Hall. lia.
Qed.

(** X1.  Of the real parts [es] of the four eigenvalues that Eigen returns
    for the matrix of the cell, [solveEigenvaluesWmunu] caches the least as
    [Lambdas[0]] and the greatest as [Lambdas[2]], and [-min - max] as
    [Lambdas[1]]: both are entries of [es], no entry is below the first or
    above the second, and when no entry is a NaN every entry lies between
    them.  Nothing but [Lambdas] is written. *)
Theorem solveEigenvaluesWmunu_orders ext c :
  let es := eigenvalues_real ext (Wmunu_matrix c) in
  let c' := solveEigenvaluesWmunu ext c in
  exists mn mx,
    Lambdas c' = [mn; - mn - mx; mx] /\
    (exists i, (i < 4)%nat /\ mn = es !!! i) /\
    (exists i, (i < 4)%nat /\ mx = es !!! i) /\
    (forall i, (i < 4)%nat ->
       (es !!! i <? mn) = false /\ (mx <? es !!! i) = false) /\
    ((forall i, (i < 4)%nat -> is_nan (es !!! i) = false) ->
     forall i, (i < 4)%nat ->
       (mn <=? es !!! i) = true /\ (es !!! i <=? mx) = true) /\
    same_primitives c' c /\ Wmunu c' = Wmunu c /\ pi_b c' = pi_b c.
Proof.
  intros es c'.
  assert (H1 : extremes_of es 1 (es !!! 0%nat) (es !!! 0%nat)).
  { refine (conj _ (conj _ (conj _ _))).
    - exists 0%nat. split; [lia|reflexivity].
    - exists 0%nat. split; [lia|reflexivity].
    - intros i Hi. replace i with 0%nat by lia. split; apply ltb_irrefl.
    - apply ltb_irrefl. }
  assert (Hrest : same_primitives c' c /\ Wmunu c' = Wmunu c /\ pi_b c' = pi_b c).
  { subst c'. split; [apply solveEigenvaluesWmunu_primitives|].
    split; [apply solveEigenvaluesWmunu_Wmunu|apply solveEigenvaluesWmunu_pi_b]. }
  subst c'. unfold solveEigenvaluesWmunu in *. fold (Wmunu_matrix c) in *.
  fold es in Hrest |- *. cbn [for_loop] in *.
  pose proof (extremes_step es 1 _ _ H1) as H2. cbn zeta in H2.
  destruct (if es !!! 0%nat <? es !!! 1%nat then _ else _) as [mn2 mx2].
  pose proof (extremes_step es 2 _ _ H2) as H3. cbn zeta in H3.
  destruct (if mx2 <? es !!! 2%nat then _ else _) as [mn3 mx3].
  pose proof (extremes_step es 3 _ _ H3) as H4. cbn zeta in H4.
  destruct (if mx3 <? es !!! 3%nat then _ else _) as [mn4 mx4].
  destruct H4 as (Hmn & Hmx & Hall & _).
  exists mn4, mx4. split; [reflexivity|].
  split; [exact Hmn|]. split; [exact Hmx|]. split; [exact Hall|].
  split; [|exact Hrest].
  intros Hnum i Hi. destruct (Hall i Hi) as [Hlo Hhi].
  destruct Hmn as (imn & Himn & ->), Hmx as (imx & Himx & ->).
  split; apply leb_of_not_ltb; auto.
Qed.

(** ** QuestRevert_qmu *)

Section QuestRevert_qmu_properties.
Variable ext : Extern.
Variable self : Advance.

Lemma q_mu_local_lookup c i :
  (i < 4)%nat -> QuestRevert_qmu_q_mu_local c !!! i = Wmunu c !!! (10 + i)%nat.
Proof.
  intros Hi. destruct i as [|[|[|[|i]]]]; [reflexivity..|lia].
Qed.

(** X2.  [QuestRevert_qmu] on a cell whose diffusion current has a negative
    norm [q^mu q_mu]: the two warnings are printed, the four diffusion
    entries are set to zero (for the layout of util.h, where
    [map_2d_idx_to_1d(4, i)] is [10 + i]), and nothing else happens: the
    ratio [rho_q] is the square root of a negative number, so the test
    [rho_q > 0.1] fails and no rescaling follows. *)
Theorem QuestRevert_qmu_negative_norm tau c ieta ix iy :
  length (Wmunu c) = 14%nat ->
  (forall i, (i < 4)%nat -> map_2d_idx_to_1d ext 4 (Z.of_nat i) = (10 + i)%nat) ->
  (QuestRevert_qmu_q_size c <? 0) = true ->
  exists c',
    QuestRevert_qmu ext self tau c ieta ix iy =
    ([MusicMessage "warning"
        [Str "Advance::QuestRevert_qmu: q^mu q_mu = ";
         Dbl (QuestRevert_qmu_q_size c); Str " < 0!"];
      MusicMessage "warning" [Str "Reset it to zero!!!!"]], Ret c') /\
    (forall i, (i < 4)%nat -> Wmunu c' !!! (10 + i)%nat = 0) /\
    (forall mu, (mu < 10)%nat -> Wmunu c' !!! mu = Wmunu c !!! mu) /\
    length (Wmunu c') = 14%nat /\
    same_primitives c' c /\ Lambdas c' = Lambdas c /\ pi_b c' = pi_b c.
Proof.
  intros Hlen Hmap Hneg.
  exists (set_Wmunu
            (for_loop 4 0
               (fun i W => <[map_2d_idx_to_1d ext 4 (Z.of_nat i) := 0]> W)
               (Wmunu c)) c).
  split.
  - unfold QuestRevert_qmu.
    fold (QuestRevert_qmu_q_mu_local c). fold (QuestRevert_qmu_q_size c).
    rewrite Hneg. cbn [bind emit ret app].
    rewrite (for_loop_set_Wmunu
               (fun i W => <[map_2d_idx_to_1d ext 4 (Z.of_nat i) := 0]> W)).
    cbn [epsilon rhob set_Wmunu].
    rewrite (ratio_of_negative _ _ _ 0.1 eq_refl Hneg). reflexivity.
  - cbn [Wmunu set_Wmunu Lambdas pi_b].
    rewrite for_loop_zero_length.
    refine (conj _ (conj _ (conj Hlen _))); [| |repeat split].
    + intros i Hi. rewrite <- (Hmap i Hi).
      apply (for_loop_zero_hit (fun i => map_2d_idx_to_1d ext 4 (Z.of_nat i)));
        [lia|]. rewrite Hmap by lia. lia.
    + intros mu Hmu.
      apply (for_loop_zero_miss (fun i => map_2d_idx_to_1d ext 4 (Z.of_nat i))).
      intros i Hi. rewrite Hmap by lia. lia.
Qed.

(** X3.  [QuestRevert_qmu] on a cell whose ratio [rho_q] exceeds the ceiling
    0.1: the four diffusion entries [Wmunu[10..13]] are multiplied by
    [0.1 / rho_q], the ten shear entries and every other field are kept.
    With a ratio that does not exceed 0.1 and a norm that is not negative,
    the cell is returned as it is and nothing is printed. *)
Theorem QuestRevert_qmu_caps_diffusion tau c ieta ix iy :
  length (Wmunu c) = 14%nat ->
  let rho_q := QuestRevert_qmu_rho_q ext self c in
  ((0.1 <? rho_q) = true ->
   exists c',
     returns (QuestRevert_qmu ext self tau c ieta ix iy) c' /\
     (forall i, (i < 4)%nat ->
        Wmunu c' !!! (10 + i)%nat = 0.1 / rho_q * (Wmunu c !!! (10 + i)%nat)) /\
     (forall mu, (mu < 10)%nat -> Wmunu c' !!! mu = Wmunu c !!! mu) /\
     same_primitives c' c /\ Lambdas c' = Lambdas c /\ pi_b c' = pi_b c) /\
  ((0.1 <? rho_q) = false -> (QuestRevert_qmu_q_size c <? 0) = false ->
   QuestRevert_qmu ext self tau c ieta ix iy = ([], Ret c)).
Proof.
  intros Hlen rho_q. split.
  - intros Hgt.
    assert (Hnn : (QuestRevert_qmu_q_size c <? 0) = false).
    { destruct (QuestRevert_qmu_q_size c <? 0) eqn:Hneg; [|reflexivity].
      unfold rho_q, QuestRevert_qmu_rho_q in Hgt.
      now rewrite (ratio_of_negative _ _ _ 0.1 eq_refl Hneg) in Hgt. }
    exists (set_Wmunu
              (for_loop 4 0
                 (fun i W => <[(10 + i)%nat :=
                                 0.1 / rho_q * (QuestRevert_qmu_q_mu_local c !!! i)]> W)
                 (Wmunu c)) c).
    split.
    + unfold QuestRevert_qmu.
      fold (QuestRevert_qmu_q_mu_local c). fold (QuestRevert_qmu_q_size c).
      rewrite Hnn. cbn [bind ret app].
      fold (QuestRevert_qmu_rho_q ext self c). fold rho_q. rewrite Hgt.
      rewrite (for_loop_set_Wmunu
                 (fun i W => <[(10 + i)%nat :=
                                 0.1 / rho_q * (QuestRevert_qmu_q_mu_local c !!! i)]> W)).
      destruct (_ && _); cbn; eexists; reflexivity.
    + cbn [Wmunu set_Wmunu Lambdas pi_b].
      refine (conj _ (conj _ _)); [| |repeat split].
      * intros i Hi.
        rewrite (for_loop_write_at
                   (fun i => 0.1 / rho_q * (QuestRevert_qmu_q_mu_local c !!! i)))
          by lia.
        case_decide; [|lia].
        replace (10 + i - 10)%nat with i by lia.
        now rewrite q_mu_local_lookup.
      * intros mu Hmu.
        rewrite (for_loop_write_at
                   (fun i => 0.1 / rho_q * (QuestRevert_qmu_q_mu_local c !!! i)))
          by lia.
        case_decide; [lia|reflexivity].
  - intros Hle Hnn. unfold QuestRevert_qmu.
    fold (QuestRevert_qmu_q_mu_local c). fold (QuestRevert_qmu_q_size c).
    rewrite Hnn. cbn [bind ret app].
    fold (QuestRevert_qmu_rho_q ext self c). fold rho_q. now rewrite Hle.
Qed.

(** [QuestRevert_qmu] always returns, and keeps all but [Wmunu]. *)
Lemma QuestRevert_qmu_frame tau c ieta ix iy :
  exists c',
    returns (QuestRevert_qmu ext self tau c ieta ix iy) c' /\
    same_primitives c' c /\ Lambdas c' = Lambdas c /\ pi_b c' = pi_b c.
Proof.
  unfold QuestRevert_qmu.
  fold (QuestRevert_qmu_q_mu_local c). fold (QuestRevert_qmu_q_size c).
  set (zeroed := for_loop 4 0 _ c).
  assert (Hz : same_primitives zeroed c /\ Lambdas zeroed = Lambdas c
               /\ pi_b zeroed = pi_b c).
  { unfold zeroed.
    rewrite (for_loop_set_Wmunu
               (fun i W => <[map_2d_idx_to_1d ext 4 (Z.of_nat i) := 0]> W)).
    now repeat split. }
  assert (Hcap : forall g : Cell_small,
            (same_primitives g c /\ Lambdas g = Lambdas c /\ pi_b g = pi_b c) ->
            exists c',
              returns
                (let e_local := epsilon g in
                 let rhob_local := rhob g in
                 let rho_q :=
                   PrimFloat.sqrt (QuestRevert_qmu_q_size c / (rhob_local * rhob_local))
                   / QuestRevert_factor ext self (epsilon c) in
                 if 0.1 <? rho_q then
                   (if (0.1 <? e_local) && (5 <? echo_level (DATA self))%Z then
                      emit (MusicMessage "warning"
                              [Str "ieta = "; Int ieta; Str ", ix = "; Int ix;
                               Str ", iy = "; Int iy;
                               Str ", energy density = "; Dbl (e_local * hbarc ext);
                               Str "GeV/fm^3"; Str ", rhob = "; Dbl rhob_local;
                               Str "1/fm^3";
                               Str "-- diffusion |q/rhob| = "; Dbl rho_q])
                    else ret tt) ;;;
                   ret (for_loop 4 0
                          (fun i g =>
                             set_Wmunu
                               (<[(10 + i)%nat :=
                                    0.1 / rho_q * (QuestRevert_qmu_q_mu_local c !!! i)]>
                                  (Wmunu g)) g) g)
                 else ret g) c' /\
              same_primitives c' c /\ Lambdas c' = Lambdas c /\ pi_b c' = pi_b c).
  { intros g Hg. cbn zeta. destruct (0.1 <? _).
    - eexists. split.
      + eapply returns_bind; [|apply returns_ret].
        destruct (_ && _); [apply returns_emit|apply returns_ret].
      + rewrite (for_loop_set_Wmunu
                   (fun i W => <[(10 + i)%nat := _ * (QuestRevert_qmu_q_mu_local c !!! i)]> W)).
        exact Hg.
    - exists g. split; [apply returns_ret|exact Hg]. }
  destruct (QuestRevert_qmu_q_size c <? 0).
  - destruct (Hcap zeroed Hz) as (c' & Hret & Hc').
    exists c'. split; [|exact Hc'].
    eapply returns_bind; [|exact Hret].
    eapply returns_bind; [apply returns_emit|].
    eapply returns_bind; [apply returns_emit|apply returns_ret].
  - destruct (Hcap c) as (c' & Hret & Hc').
    { repeat split. }
    exists c'. split; [|exact Hc'].
    eapply returns_bind; [apply returns_ret|exact Hret].
Qed.

End QuestRevert_qmu_properties.

(** A run of X2: the current [q = (2, 1, 0, 0)] has the norm -3; it is
    reset, and the shear entries stay. *)
Lemma QuestRevert_qmu_negative_norm_witness :
  QuestRevert_qmu_q_size timelike_current_cell = -3 /\
  exists c',
    snd (QuestRevert_qmu example_Extern (example_Advance (1 / 3) 0.5 None) 1
           timelike_current_cell 0 0 0) = Ret c' /\
    Wmunu c' !!! 10%nat = 0 /\ Wmunu c' !!! 11%nat = 0.
Proof.
  split; [vm_compute; reflexivity|].
  destruct (QuestRevert_qmu_negative_norm example_Extern
              (example_Advance (1 / 3) 0.5 None) 1 timelike_current_cell 0 0 0)
    as (c' & Hrun & Hzero & _).
  - reflexivity.
  - intros i Hi. destruct i as [|[|[|[|i]]]]; [reflexivity..|lia].
  - vm_compute. reflexivity.
  - exists c'. rewrite Hrun. split; [reflexivity|].
    split; [exact (Hzero 0%nat ltac:(lia))|exact (Hzero 1%nat ltac:(lia))].
Defined.

(** A run of X3: a current of 30 against a density of 1 gives a ratio of
    0.34, and the current is scaled down by [0.1 / ratio]. *)
Lemma QuestRevert_qmu_caps_diffusion_witness :
  (0.1 <? QuestRevert_qmu_rho_q example_Extern (example_Advance (1 / 3) 0.5 None)
            large_current_cell) = true /\
  exists c',
    returns (QuestRevert_qmu example_Extern (example_Advance (1 / 3) 0.5 None) 1
               large_current_cell 0 0 0) c' /\
    Wmunu c' !!! 11%nat =
    0.1 / QuestRevert_qmu_rho_q example_Extern (example_Advance (1 / 3) 0.5 None)
            large_current_cell * 30.
Proof.
  assert (Hgt : (0.1 <? QuestRevert_qmu_rho_q example_Extern
                          (example_Advance (1 / 3) 0.5 None) large_current_cell)
                = true) by (vm_compute; reflexivity).
  split; [exact Hgt|].
  destruct (QuestRevert_qmu_caps_diffusion example_Extern
              (example_Advance (1 / 3) 0.5 None) 1 large_current_cell 0 0 0
              eq_refl) as [Hcap _].
  destruct (Hcap Hgt) as (c' & Hret & Hscaled & _).
  exists c'. split; [exact Hret|]. exact (Hscaled 1%nat ltac:(lia)).
Defined.

(** ** QuestRevert on a regular cell *)

(** X4.  [QuestRevert] prints only warnings: with an [echo_level] of at most
    5 it prints nothing.  On a cell whose shear ratio is a number and whose
    two ratios do not exceed 0.1, it returns the cell as it is. *)
Theorem QuestRevert_regular_cell ext self tau c ieta ix iy :
  ((echo_level (DATA self) <= 5)%Z ->
   fst (QuestRevert ext self tau c ieta ix iy) = []) /\
  (is_nan (QuestRevert_rho_shear ext self c) = false ->
   (0.1 <? QuestRevert_rho_shear ext self c) = false ->
   (0.1 <? QuestRevert_rho_bulk ext self c) = false ->
   QuestRevert ext self tau c ieta ix iy = ([], Ret c)).
Proof.
  split.
  - intros Hecho.
    assert (Hquiet : forall what g rho,
              QuestRevert_warning ext self what g ieta ix iy rho = ([], Ret tt)).
    { intros what g rho. unfold QuestRevert_warning.
      replace (5 <? echo_level (DATA self))%Z with false
        by (symmetry; apply Z.ltb_ge; exact Hecho).
      now rewrite andb_false_r. }
    unfold QuestRevert.
    destruct (is_nan _); [|destruct (0.1 <? QuestRevert_rho_shear ext self c)];
      rewrite ?Hquiet; cbn [bind ret app]; destruct (0.1 <? _);
      rewrite ?Hquiet; reflexivity.
  - intros Hnan Hshear Hbulk. unfold QuestRevert.
    now rewrite Hnan, Hshear, Hbulk.
Qed.

(** A run of X4: a cell without stress passes through. *)
Lemma QuestRevert_regular_cell_witness :
  QuestRevert example_Extern (example_Advance (1 / 3) 0.5 None) 1 current_cell 0 0 0
  = ([], Ret current_cell).
Proof.
  apply (QuestRevert_regular_cell example_Extern (example_Advance (1 / 3) 0.5 None)
           1 current_cell 0 0 0); vm_compute; reflexivity.
Defined.

(** ** The two half-steps write different fields *)

Section Half_steps.
Variable ext : Extern.
Variable self : Advance.

Lemma FirstRKStepW_evolve_primitives tau arena_prev arena_current arena_future
    rk_flag k ieta ix iy :
  same_primitives
    (FirstRKStepW_evolve ext self tau arena_prev arena_current arena_future
                         rk_flag k ieta ix iy)
    (arena_future ix iy ieta).
Proof.
  unfold FirstRKStepW_evolve.
  eapply same_primitives_trans; [|eapply same_primitives_trans].
  - unfold FirstRKStepW_diff. destruct (_ =? 1)%Z;
      apply for_loop_set_Wmunu_primitives.
  - unfold FirstRKStepW_bulk. destruct (_ =? 1)%Z; apply set_pi_b_primitives.
  - unfold FirstRKStepW_shear. destruct (_ =? 1)%Z;
      apply for_loop_set_Wmunu_primitives.
Qed.

Lemma FirstRKStepW_remake_primitives c :
  same_primitives (FirstRKStepW_remake ext self c) c.
Proof.
  unfold FirstRKStepW_remake.
  eapply same_primitives_trans; [apply set_Wmunu_primitives|].
  eapply same_primitives_trans; [apply solveEigenvaluesWmunu_primitives|].
  eapply same_primitives_trans; [apply set_Wmunu_primitives|].
  eapply same_primitives_trans; [|apply set_Wmunu_primitives].
  apply for_loop_set_Wmunu_primitives.
Qed.

Lemma FirstRKStepW_regulate_frame fuel tau c ieta ix iy :
  ends_with (FirstRKStepW_regulate ext self fuel tau c ieta ix iy)
            (fun c' => same_primitives c' c)
            (causality_method (DATA self) = 2%Z).
Proof.
  unfold FirstRKStepW_regulate.
  destruct (_ && _); [|apply ends_with_ret, same_primitives_refl].
  apply ends_with_bind with (P := fun c' => same_primitives c' c).
  { destruct (QuestRevert_frame ext self tau c ieta ix iy)
      as (c1 & Hret & He1 & Hr1 & Hu1 & _).
    apply (ends_with_returns _ c1); [exact Hret|now repeat split]. }
  intros c1 H1.
  apply ends_with_bind with (P := fun c' => same_primitives c' c).
  { destruct (causality_method (DATA self) =? 1)%Z eqn:Hm1;
      [|destruct (causality_method (DATA self) =? 2)%Z eqn:Hm2].
    - rewrite nCausalityConstraints_eq. exact H1.
    - pose proof (sCausalityConstraints_frame self fuel c1 tau) as Hs.
      unfold ends_with.
      destruct (snd (sCausalityConstraints self fuel c1 tau));
        [|contradiction|now apply Z.eqb_eq].
      exact (same_primitives_trans _ _ _ Hs H1).
    - apply ends_with_ret, H1. }
  intros c2 H2. destruct (_ =? 1)%Z; [|apply ends_with_ret, H2].
  destruct (QuestRevert_qmu_frame ext self tau c2 ieta ix iy)
    as (c3 & Hret & H3 & _).
  apply (ends_with_returns _ c3); [exact Hret|].
  exact (same_primitives_trans _ _ _ H3 H2).
Qed.

Lemma FirstRKStepT_dissipative tau x_local y_local eta_s_local
    arena_prev arena_current arena_future ix iy ieta rk_flag out c' :
  FirstRKStepT ext self tau x_local y_local eta_s_local
    arena_current arena_future arena_prev ix iy ieta rk_flag = (out, Ret c') ->
  same_dissipative c' (arena_future ix iy ieta).
Proof.
  unfold FirstRKStepT.
  destruct (FirstRKStepT_qi _ _ _ _ _ _ _ _ _ _ _ _ _) as [o [qi| |]];
    cbn [bind ret]; [|discriminate|discriminate].
  intros [= _ <-]. now repeat split.
Qed.

(** X5.  The two half-steps of a cell write different fields of the future
    cell.  [FirstRKStepT], when it returns, has written the primitive
    variables and kept [Wmunu], [Lambdas] and [pi_b].  [FirstRKStepW] never
    ends the process; when it returns it has kept the energy density, the
    charge density and the four-velocity; and it fails to return only when
    the bisections of the sufficient-condition module ([causality_method]
    2) outrun the model's loop counter. *)
Theorem half_steps_write_disjoint_fields fuel tau x_local y_local eta_s_local
    arena_prev arena_current arena_future ix iy ieta rk_flag k :
  match snd (FirstRKStepT ext self tau x_local y_local eta_s_local
               arena_current arena_future arena_prev ix iy ieta rk_flag) with
  | Ret c' =>
      Wmunu c' = Wmunu (arena_future ix iy ieta) /\
      Lambdas c' = Lambdas (arena_future ix iy ieta) /\
      pi_b c' = pi_b (arena_future ix iy ieta)
  | _ => True
  end /\
  match snd (FirstRKStepW ext self fuel tau arena_prev arena_current arena_future
               rk_flag k ieta ix iy) with
  | Ret c' =>
      epsilon c' = epsilon (arena_future ix iy ieta) /\
      rhob c' = rhob (arena_future ix iy ieta) /\
      u c' = u (arena_future ix iy ieta)
  | Exit _ => False
  | OutOfFuel => causality_method (DATA self) = 2%Z
  end.
Proof.
  split.
  - destruct (FirstRKStepT _ _ _ _ _ _ _ _ _ _ _ _ _) as [out [c'| |]] eqn:E;
      cbn [snd]; [|exact I|exact I].
    exact (FirstRKStepT_dissipative _ _ _ _ _ _ _ _ _ _ _ _ _ E).
  - unfold FirstRKStepW.
    pose proof (FirstRKStepW_regulate_frame fuel tau
                  (FirstRKStepW_remake ext self
                     (FirstRKStepW_evolve ext self tau arena_prev arena_current
                        arena_future rk_flag k ieta ix iy)) ieta ix iy) as H.
    unfold ends_with in H. destruct (snd _); try exact H.
    change (same_primitives a (arena_future ix iy ieta)).
    eapply same_primitives_trans; [exact H|].
    eapply same_primitives_trans; [apply FirstRKStepW_remake_primitives|].
    apply FirstRKStepW_evolve_primitives.
Qed.

End Half_steps.

(** ** FirstRKStepW: what is switched off, and what is derived *)

Section Evolve_off.
Variable ext : Extern.
Variable self : Advance.
Variable tau : float.
Variables arena_prev arena_current : SCGrid.
Variable rk_flag : Z.
Variable k : Kinematics.
Variables ieta ix iy : Z.

(** X6.  The evolution stage of [FirstRKStepW] on a future cell with its 14
    entries.  A quantity that is switched off is written as zero: the shear
    entries 4..8, the bulk pressure, the diffusion entries 10..13.  The
    entries 0..3 and 9 are never written by this stage, and with the
    diffusion switched on entry 10 is not written either (the loop of line
    252 starts at 11).  [Lambdas] is kept. *)
Theorem FirstRKStepW_evolve_switched_off arena_future :
  let f := arena_future ix iy ieta in
  let f' := FirstRKStepW_evolve ext self tau arena_prev arena_current
                                arena_future rk_flag k ieta ix iy in
  length (Wmunu f) = 14%nat ->
  (turn_on_shear (DATA self) <> 1%Z ->
   forall idx, (4 <= idx < 9)%nat -> Wmunu f' !!! idx = 0) /\
  (turn_on_bulk (DATA self) <> 1%Z -> pi_b f' = 0) /\
  (turn_on_diff (DATA self) <> 1%Z ->
   forall idx, (10 <= idx < 14)%nat -> Wmunu f' !!! idx = 0) /\
  (turn_on_diff (DATA self) = 1%Z -> Wmunu f' !!! 10%nat = Wmunu f !!! 10%nat) /\
  (forall idx, (idx < 4)%nat \/ idx = 9%nat -> Wmunu f' !!! idx = Wmunu f !!! idx) /\
  length (Wmunu f') = 14%nat /\ Lambdas f' = Lambdas f.
Proof.
  intros f f' Hlen. subst f'. unfold FirstRKStepW_evolve. fold f.
  rewrite FirstRKStepW_diff_eq, FirstRKStepW_bulk_eq, FirstRKStepW_shear_eq.
  cbn [Wmunu pi_b Lambdas set_Wmunu set_pi_b].
  set (W1 := if (turn_on_shear (DATA self) =? 1)%Z
             then for_loop 5 4 _ (Wmunu f)
             else for_loop 5 4 (fun i W => <[i := 0]> W) (Wmunu f)).
  assert (Hlen1 : length W1 = 14%nat).
  { subst W1. destruct (turn_on_shear (DATA self) =? 1)%Z;
      now rewrite for_loop_const_length. }
  assert (Hkeep1 : forall idx, (idx < 4)%nat \/ (9 <= idx < 14)%nat ->
                     W1 !!! idx = Wmunu f !!! idx).
  { intros idx Hidx. subst W1. destruct (turn_on_shear (DATA self) =? 1)%Z;
      rewrite for_loop_const_lookup by lia; now rewrite decide_False by lia. }
  refine (conj _ (conj _ (conj _ (conj _ (conj _ (conj _ _)))))).
  - intros Hoff idx Hidx.
    assert (HW1 : W1 !!! idx = 0).
    { subst W1. apply Z.eqb_neq in Hoff. rewrite Hoff.
      rewrite for_loop_const_lookup by lia. now rewrite decide_True by lia. }
    destruct (turn_on_diff (DATA self) =? 1)%Z;
      rewrite for_loop_const_lookup by lia;
      rewrite decide_False by lia; exact HW1.
  - intros Hoff. apply Z.eqb_neq in Hoff. now rewrite Hoff.
  - intros Hoff idx Hidx. apply Z.eqb_neq in Hoff. rewrite Hoff.
    rewrite for_loop_const_lookup by lia. now rewrite decide_True by lia.
  - intros ->. cbn [Z.eqb Pos.eqb].
    rewrite for_loop_const_lookup by lia. rewrite decide_False by lia.
    apply Hkeep1. lia.
  - intros idx Hidx.
    destruct (turn_on_diff (DATA self) =? 1)%Z;
      rewrite for_loop_const_lookup by lia;
      rewrite decide_False by lia; apply Hkeep1; lia.
  - destruct (turn_on_diff (DATA self) =? 1)%Z;
      now rewrite for_loop_const_length.
  - reflexivity.
Qed.

End Evolve_off.

(** A run of X6 with the three switches off: the stress of the future cell
    is wiped, its derived entries 0 and 9 are still there. *)
Lemma FirstRKStepW_evolve_switched_off_witness :
  let f' := FirstRKStepW_evolve example_Extern example_Advance_off 1
              (uniform_grid stressed_previous) (uniform_grid stressed_current)
              (uniform_grid boosted_cell) 0 still_kinematics 0 0 0 in
  Wmunu f' !!! 4%nat = 0 /\ pi_b f' = 0 /\ Wmunu f' !!! 10%nat = 0 /\
  Wmunu f' !!! 0%nat = 9 /\ Wmunu f' !!! 9%nat = 9.
Proof.
  destruct (FirstRKStepW_evolve_switched_off example_Extern example_Advance_off 1
              (uniform_grid stressed_previous) (uniform_grid stressed_current)
              0 still_kinematics 0 0 0 (uniform_grid boosted_cell) eq_refl)
    as (Hshear & Hbulk & Hdiff & _ & Hkeep & _).
  cbv zeta. split; [|split; [|split; [|split]]].
  - apply Hshear; [discriminate|lia].
  - apply Hbulk. discriminate.
  - apply Hdiff; [discriminate|lia].
  - exact (Hkeep 0%nat ltac:(lia)).
  - exact (Hkeep 9%nat ltac:(lia)).
Defined.

Ltac pull_let :=
  lazymatch goal with
  | |- context C [let x := ?v in @?b x] =>
      let y := fresh "v" in
      set (y := v);
      let g := context C [b y] in
      change g; cbv beta
  end.

(** Names the value of the local definition [v] by an equation, and forgets
    the definition. *)
Ltac name_value v E :=
  pose proof (eq_refl v) as E; unfold v at 2 in E; clearbody v.

Section Remake.
Variable ext : Extern.
Variable self : Advance.

Lemma FirstRKStepW_remake_pi_b c : pi_b (FirstRKStepW_remake ext self c) = pi_b c.
Proof.
  unfold FirstRKStepW_remake. cbn [pi_b set_Wmunu].
  rewrite solveEigenvaluesWmunu_pi_b. cbn [pi_b set_Wmunu].
  apply (for_loop_invariant (fun g => pi_b g = pi_b c)); [|reflexivity].
  intros i s Hs. exact Hs.
Qed.

(** The 14 entries that the re-make step leaves, for the layout of util.h. *)
Lemma FirstRKStepW_remake_Wmunu e r uu w0 w1 w2 w3 w4 w5 w6 w7 w8 w9 w10 w11
    w12 w13 L p :
  (forall a b, (1 <= a <= 4)%Z -> (1 <= b <= 3)%Z ->
     map_2d_idx_to_1d ext a b = util_map_2d_idx_to_1d a b) ->
  let u0 := uu !!! 0%nat in
  let u1 := uu !!! 1%nat in
  let u2 := uu !!! 2%nat in
  let u3 := uu !!! 3%nat in
  let n9 :=
    (2 * (u1 * u2 * w5 + u1 * u3 * w6 + u2 * u3 * w8)
     - (u0 * u0 - u1 * u1) * w4 - (u0 * u0 - u2 * u2) * w7)
    / (u0 * u0 - u3 * u3) in
  let n1 := (0 + w4 * u1 + w5 * u2 + w6 * u3) / u0 in
  let n2 := (0 + w5 * u1 + w7 * u2 + w8 * u3) / u0 in
  let n3 := (0 + w6 * u1 + w8 * u2 + n9 * u3) / u0 in
  Wmunu (FirstRKStepW_remake ext self
           {| epsilon := e; rhob := r; u := uu;
              Wmunu := [w0; w1; w2; w3; w4; w5; w6; w7; w8; w9; w10; w11; w12; w13];
              Lambdas := L; pi_b := p |}) =
  [ (0 + n1 * u1 + n2 * u2 + n3 * u3) / u0; n1; n2; n3; w4; w5; w6; w7; w8; n9;
    double_of_int (turn_on_diff (DATA self))
    * (0 + w11 * u1 + w12 * u2 + w13 * u3) / u0;
    w11; w12; w13 ].
Proof.
  intros Hmap u0 u1 u2 u3 n9 n1 n2 n3.
  cbv beta delta [FirstRKStepW_remake].
  do 11 pull_let.
  subst v v0 v1 v2 v3. cbn [u Wmunu] in v4.
  name_value v4 E4. cbn [set_Wmunu insert list_insert] in E4.
  name_value v5 E5. rewrite E4 in E5. cbn [for_loop] in E5.
  rewrite !Hmap in E5 by (cbn; lia). vm_compute in E5.
  name_value v6 E6. rewrite E5 in E6. vm_compute in E6.
  name_value v7 E7. rewrite E5, E6 in E7. vm_compute in E7.
  subst v9 v8. rewrite !solveEigenvaluesWmunu_Wmunu, !solveEigenvaluesWmunu_u.
  rewrite E7. cbn [for_loop]. rewrite !Hmap by (cbn; lia).
  subst u0 u1 u2 u3 n9 n1 n2 n3. vm_compute. reflexivity.
Qed.

(** X7.  The re-make step of [FirstRKStepW] (lines 276-311) on a cell with
    its 14 entries, for the layout of util.h.  It keeps the evolved entries
    4..8 and 11..13 and the bulk pressure, and derives the others from them
    and from [u]: entry 9 from the tracelessness, the entries 1..3 and then
    0 from the transversality (entry 3 reads the new entry 9, entry 0 the
    new entries 1..3), entry 10 from the diffusion entries, times
    [turn_on_diff].  What entries 0..3, 9 and 10 held before is not read. *)
Theorem FirstRKStepW_remake_derives c :
  let W := Wmunu c in
  let u0 := u c !!! 0%nat in
  let u1 := u c !!! 1%nat in
  let u2 := u c !!! 2%nat in
  let u3 := u c !!! 3%nat in
  let c' := FirstRKStepW_remake ext self c in
  let W' := Wmunu c' in
  length W = 14%nat ->
  (forall a b, (1 <= a <= 4)%Z -> (1 <= b <= 3)%Z ->
     map_2d_idx_to_1d ext a b = util_map_2d_idx_to_1d a b) ->
  (forall idx, (4 <= idx < 9)%nat \/ (11 <= idx < 14)%nat -> W' !!! idx = W !!! idx) /\
  pi_b c' = pi_b c /\
  W' !!! 9%nat =
    (2 * (u1 * u2 * (W !!! 5%nat) + u1 * u3 * (W !!! 6%nat) + u2 * u3 * (W !!! 8%nat))
     - (u0 * u0 - u1 * u1) * (W !!! 4%nat)
     - (u0 * u0 - u2 * u2) * (W !!! 7%nat))
    / (u0 * u0 - u3 * u3) /\
  W' !!! 1%nat =
    (0 + (W !!! 4%nat) * u1 + (W !!! 5%nat) * u2 + (W !!! 6%nat) * u3) / u0 /\
  W' !!! 2%nat =
    (0 + (W !!! 5%nat) * u1 + (W !!! 7%nat) * u2 + (W !!! 8%nat) * u3) / u0 /\
  W' !!! 3%nat =
    (0 + (W !!! 6%nat) * u1 + (W !!! 8%nat) * u2 + (W' !!! 9%nat) * u3) / u0 /\
  W' !!! 0%nat =
    (0 + (W' !!! 1%nat) * u1 + (W' !!! 2%nat) * u2 + (W' !!! 3%nat) * u3) / u0 /\
  W' !!! 10%nat =
    double_of_int (turn_on_diff (DATA self))
    * (0 + (W !!! 11%nat) * u1 + (W !!! 12%nat) * u2 + (W !!! 13%nat) * u3) / u0 /\
  length W' = 14%nat.
Proof.
  intros W u0 u1 u2 u3 c' W' Hlen Hmap.
  split; [|split; [apply FirstRKStepW_remake_pi_b|]].
  - subst W W' c' u0 u1 u2 u3. destruct c as [e r uu W L p]. cbn [Wmunu] in Hlen.
    destruct W as [|w0 [|w1 [|w2 [|w3 [|w4 [|w5 [|w6 [|w7 [|w8 [|w9 [|w10
                  [|w11 [|w12 [|w13 [|]]]]]]]]]]]]]]]; try discriminate Hlen.
    rewrite FirstRKStepW_remake_Wmunu by exact Hmap.
    intros idx Hidx.
    destruct idx as [|[|[|[|[|[|[|[|[|[|[|[|[|[|idx]]]]]]]]]]]]]];
      try reflexivity; lia.
  - subst W W' c' u0 u1 u2 u3. destruct c as [e r uu W L p]. cbn [Wmunu u] in *.
    destruct W as [|w0 [|w1 [|w2 [|w3 [|w4 [|w5 [|w6 [|w7 [|w8 [|w9 [|w10
                  [|w11 [|w12 [|w13 [|]]]]]]]]]]]]]]]; try discriminate Hlen.
    rewrite FirstRKStepW_remake_Wmunu by exact Hmap.
    repeat split.
Qed.

End Remake.

(** A run of X7 on a cell moving at 0.6 c along x: the stale 9s of the
    derived entries are gone, the evolved entries are kept. *)
Lemma FirstRKStepW_remake_derives_witness :
  let c' := FirstRKStepW_remake example_Extern (example_Advance (1 / 3) 0.5 None)
              boosted_cell in
  Wmunu c' !!! 4%nat = 1 /\ Wmunu c' !!! 13%nat = 8 /\
  Wmunu c' !!! 1%nat = (0 + 1 * 0.75 + 2 * 0 + 3 * 0) / 1.25 /\
  Wmunu c' !!! 10%nat = 1 * (0 + 6 * 0.75 + 7 * 0 + 8 * 0) / 1.25.
Proof.
  destruct (FirstRKStepW_remake_derives example_Extern
              (example_Advance (1 / 3) 0.5 None) boosted_cell eq_refl
              (fun _ _ _ _ => eq_refl))
    as (Hkeep & _ & _ & H1 & _ & _ & _ & H10 & _).
  cbv zeta. split; [|split; [|split]].
  - exact (Hkeep 4%nat ltac:(lia)).
  - exact (Hkeep 13%nat ltac:(lia)).
  - exact H1.
  - exact H10.
Defined.

(** ** The factors that the causality modules select *)

Lemma select_step_unit alp m : unit_factor m -> unit_factor (select_step alp m).
Proof.
  intros Hm. unfold select_step.
  destruct (0 <? alp) eqn:Hpos; cbn [andb]; [destruct (alp <? m) eqn:Hlt|].
  - right. split; [exact Hpos|].
    destruct Hm as [->|[Hm0 Hm1]].
    + now rewrite (ltb_asym _ _ Hpos) in Hlt.
    + apply leb_of_not_ltb; [reflexivity|exact (ltb_not_nan_r _ _ Hpos)|].
      destruct (1 <? alp) eqn:H1; [|reflexivity].
      pose proof (ltb_trans _ _ _ H1 Hlt) as H1m.
      rewrite FloatAxioms.ltb_spec in H1m. rewrite FloatAxioms.leb_spec in Hm1.
      unfold SFltb in H1m. unfold SFleb in Hm1.
      rewrite (SFcompare_antisym (Prim2SF 1) (Prim2SF m)) in Hm1.
      destruct (SFcompare (Prim2SF 1) (Prim2SF m)) as [[]|]; discriminate.
  - destruct (alp <? 0); [now left|exact Hm].
  - destruct (alp <? 0); [now left|exact Hm].
Qed.

Lemma select_all_unit cands m : unit_factor m -> unit_factor (select_all cands m).
Proof.
  revert m. induction cands as [|a cands IH]; intros m Hm; [exact Hm|].
  cbn. apply IH, select_step_unit, Hm.
Qed.

Lemma unit_factor_1 : unit_factor 1.
Proof. right. split; reflexivity. Qed.

Lemma sCausality_minBeta_fold self c :
  sCausality_minBeta self c =
  select_all (sCausality_beta self c <$> [0; 1; 2]%nat) 1.
Proof. reflexivity. Qed.

(** X8.  The factor that the loop over the conditions leaves in [minAlp]
    (necessary conditions) or [minBeta] (sufficient conditions, before the
    bisections) is 0 or a number in (0, 1], whatever the cell holds: a
    candidate that is a NaN, an infinity or more than the factor so far
    never replaces it. *)
Theorem selected_factor_in_unit_interval self c :
  (nCausality_minAlp self c = 0 \/
   ((0 <? nCausality_minAlp self c) = true /\
    (nCausality_minAlp self c <=? 1) = true)) /\
  (sCausality_minBeta self c = 0 \/
   ((0 <? sCausality_minBeta self c) = true /\
    (sCausality_minBeta self c <=? 1) = true)).
Proof.
  split.
  - rewrite nCausality_minAlp_fold. apply select_all_unit, unit_factor_1.
  - rewrite sCausality_minBeta_fold. apply select_all_unit, unit_factor_1.
Qed.

(** ** BinarySearch *)

Lemma BinarySearch_out fuel left right func result :
  fst (BinarySearch fuel left right func result) = [].
Proof.
  revert left right result.
  induction fuel as [|fuel IH]; intros left right result; cbn [BinarySearch].
  - now destruct (1e-4 <? right - left).
  - destruct (1e-4 <? right - left) eqn:Hwide; [|reflexivity].
    destruct (right <? left) eqn:Hrev.
    { now rewrite (width_of_reversed 1e-4 left right eq_refl Hrev) in Hwide. }
    destruct (0 <? func right * func left); [reflexivity|].
    destruct (func ((left + right) / 2) <? 0); apply IH.
Qed.

Lemma BinarySearch_no_exit fuel left right func result code :
  snd (BinarySearch fuel left right func result) <> Exit code.
Proof.
  revert left right result.
  induction fuel as [|fuel IH]; intros left right result; cbn [BinarySearch].
  - now destruct (1e-4 <? right - left).
  - destruct (1e-4 <? right - left); [|discriminate].
    destruct (right <? left); [discriminate|].
    destruct (0 <? func right * func left); [discriminate|].
    destruct (func ((left + right) / 2) <? 0); apply IH.
Qed.

Lemma BinarySearch_narrows fuel left right func result :
  sign_change func left right ->
  match snd (BinarySearch fuel left right func result) with
  | Ret (status, res) =>
      status = true /\
      exists l r,
        sign_change func l r /\ (1e-4 <? r - l) = false /\
        ((l = left /\ r = right /\ res = result) \/ res = l \/ res = r)
  | Exit _ => False
  | OutOfFuel => True
  end.
Proof.
  revert left right result.
  induction fuel as [|fuel IH]; intros left right result Hsc; cbn [BinarySearch].
  - destruct (1e-4 <? right - left) eqn:Hwide; cbn; [exact I|].
    split; [reflexivity|].
    exists left, right. split; [exact Hsc|]. split; [exact Hwide|]. left. auto.
  - destruct (1e-4 <? right - left) eqn:Hwide.
    + destruct (right <? left) eqn:Hrev.
      { now rewrite (width_of_reversed 1e-4 left right eq_refl Hrev) in Hwide. }
      destruct Hsc as [Hr Hl]. rewrite (mul_neg_nonneg _ _ Hr Hl).
      destruct (func ((left + right) / 2) <? 0) eqn:Hmid.
      * specialize (IH left ((left + right) / 2) ((left + right) / 2)
                       (conj Hmid Hl)).
        destruct (snd (BinarySearch fuel left _ func _)) as [[status res]| |];
          try exact IH.
        destruct IH as (Hs & l & r & Hsc' & Hn & Hres).
        split; [exact Hs|]. exists l, r. split; [exact Hsc'|]. split; [exact Hn|].
        destruct Hres as [(-> & -> & ->)|Hres]; auto.
      * specialize (IH ((left + right) / 2) right ((left + right) / 2)
                       (conj Hr Hmid)).
        destruct (snd (BinarySearch fuel _ right func _)) as [[status res]| |];
          try exact IH.
        destruct IH as (Hs & l & r & Hsc' & Hn & Hres).
        split; [exact Hs|]. exists l, r. split; [exact Hsc'|]. split; [exact Hn|].
        destruct Hres as [(-> & -> & ->)|Hres]; auto.
    + cbn. split; [reflexivity|].
      exists left, right. split; [exact Hsc|]. split; [exact Hwide|]. left. auto.
Qed.

(** X9.  [BinarySearch] prints nothing and never ends the process.  Its
    test [right < left] sits inside a loop that is entered only when
    [right - left > 1e-4], so it never fires and the message "Upper beta
    bound is smaller than the lower beta bound" is never printed: the search
    answers [false] only through the test of the signs.  On a bracket that is
    not wider than 1e-4 it answers [true] at once and leaves [result] as it
    was. *)
Theorem BinarySearch_bound_check_never_fires fuel left right func result :
  fst (BinarySearch fuel left right func result) = [] /\
  (forall code, snd (BinarySearch fuel left right func result) <> Exit code) /\
  ((right <? left) = true ->
   BinarySearch fuel left right func result = ([], Ret (true, result))) /\
  ((1e-4 <? right - left) = false ->
   BinarySearch fuel left right func result = ([], Ret (true, result))).
Proof.
  assert (Hnarrow : (1e-4 <? right - left) = false ->
                    BinarySearch fuel left right func result
                    = ([], Ret (true, result))).
  { intros Hn. destruct fuel; cbn [BinarySearch]; now rewrite Hn. }
  split; [apply BinarySearch_out|]. split; [|split; [|exact Hnarrow]].
  - intros code. apply BinarySearch_no_exit.
  - intros Hrev. apply Hnarrow. now apply width_of_reversed.
Qed.



(** ** The bisections of sCausalityConstraints *)

Section Bisections.
Variable self : Advance.

(** At the factor 0, [Suff7] is a square less a zero. *)
Lemma Suff7_at_0 c : (Suff7 self 0 c <? 0) = false.
Proof.
  apply signed_not_below_0. unfold Suff7. cbv beta iota zeta.
  apply sub_zero_signed; [apply square_signed|].
  do 5 apply mul_zero_or_nan. exact I.
Qed.

Lemma Suff7_stage_result fuel c minBeta :
  match Suff7_stage self fuel c minBeta with
  | (out, Ret b) =>
      out = [] /\
      (if Suff7 self minBeta c <? 0
       then exists l r,
              sign_change (fun beta => Suff7 self beta c) l r /\
              (1e-4 <? r - l) = false /\
              ((l = 0 /\ r = minBeta /\ b = 0) \/ b = l \/ b = r)
       else b = minBeta)
  | (out, Exit _) => False
  | (out, OutOfFuel) => out = []
  end.
Proof.
  unfold Suff7_stage. destruct (Suff7 self minBeta c <? 0) eqn:Hneg;
    [|split; reflexivity].
  pose proof (BinarySearch_out fuel 0 minBeta (fun beta => Suff7 self beta c) 0)
    as Hout.
  pose proof (BinarySearch_narrows fuel 0 minBeta
                (fun beta => Suff7 self beta c) 0 (conj Hneg (Suff7_at_0 c)))
    as Hsc.
  destruct (BinarySearch fuel 0 minBeta _ 0) as [out [[status res]| |]];
    cbn in Hout, Hsc |- *; subst out; [|contradiction|reflexivity].
  destruct Hsc as [-> Hsc]. cbn. split; [reflexivity|exact Hsc].
Qed.

(** X11.  The bisection for the second sufficiency function never fails:
    [Suff7] is not negative at the factor 0, so whenever it is negative at
    [minBeta] the bracket [0, minBeta] has the change of sign that the
    search asks for.  The stage for [Suff7] never prints "Suff7 Fails Binary
    Search"; when it returns after a search, its factor is an end of a
    bracket not wider than 1e-4 across which [Suff7] changes sign, or the 0
    that [result] started with. *)
Theorem Suff7_bisection_never_fails fuel c minBeta :
  (Suff7 self 0 c <? 0) = false /\
  match Suff7_stage self fuel c minBeta with
  | (out, Ret b) =>
      out = [] /\
      (if Suff7 self minBeta c <? 0
       then exists l r,
              (Suff7 self r c <? 0) = true /\ (Suff7 self l c <? 0) = false /\
              (1e-4 <? r - l) = false /\
              ((l = 0 /\ r = minBeta /\ b = 0) \/ b = l \/ b = r)
       else b = minBeta)
  | (out, Exit _) => False
  | (out, OutOfFuel) => out = []
  end.
Proof.
  split; [apply Suff7_at_0|].
  pose proof (Suff7_stage_result fuel c minBeta) as H.
  destruct (Suff7_stage self fuel c minBeta) as [out [b| |]]; try exact H.
  destruct H as [Hout H]. split; [exact Hout|].
  destruct (Suff7 self minBeta c <? 0); [|exact H].
  destruct H as (l & r & [Hr Hl] & Hw & Hres). exists l, r. auto.
Qed.

Lemma Suff5_stage_out fuel c minBeta :
  match Suff5_stage self fuel c minBeta with
  | (out, Ret b) =>
      (out = [] \/ out = [Cout [Str "Suff5 Fails Binary Search"]]) /\
      ((Suff5 self minBeta c <? 0) = false -> out = [] /\ b = minBeta)
  | (out, Exit _) => False
  | (out, OutOfFuel) => True
  end.
Proof.
  unfold Suff5_stage. destruct (Suff5 self minBeta c <? 0) eqn:Hneg;
    [|cbn; auto].
  pose proof (BinarySearch_out fuel 0 minBeta (fun beta => Suff5 self beta c) 0)
    as Hout.
  pose proof (BinarySearch_no_exit fuel 0 minBeta (fun beta => Suff5 self beta c) 0)
    as Hne.
  destruct (BinarySearch fuel 0 minBeta _ 0) as [out [[status res]| |]];
    cbn in Hout, Hne |- *; subst out.
  - destruct status; [cbn; split; [now left|discriminate]|].
    destruct (_ <? 0.15); cbn; (split; [auto|discriminate]).
  - now apply (Hne code).
  - exact I.
Qed.

Lemma Suff8_stage_out fuel c minBeta :
  match Suff8_stage self fuel c minBeta with
  | (out, Ret b) =>
      (out = [] \/ out = [Cout [Str "Suff8 Fails Binary Search"]]) /\
      ((Suff8 self minBeta c <? 0) = false -> out = [] /\ b = minBeta)
  | (out, Exit _) => False
  | (out, OutOfFuel) => True
  end.
Proof.
  unfold Suff8_stage. destruct (Suff8 self minBeta c <? 0) eqn:Hneg;
    [|cbn; auto].
  pose proof (BinarySearch_out fuel 0 minBeta (fun beta => Suff8 self beta c) 0)
    as Hout.
  pose proof (BinarySearch_no_exit fuel 0 minBeta (fun beta => Suff8 self beta c) 0)
    as Hne.
  destruct (BinarySearch fuel 0 minBeta _ 0) as [out [[status res]| |]];
    cbn in Hout, Hne |- *; subst out.
  - destruct status; cbn; (split; [auto|discriminate]).
  - now apply (Hne code).
  - exact I.
Qed.

(** X12.  When [sCausalityConstraints] returns, the cell it returns is the
    cell it was given with the bulk pressure, the 14 entries of [Wmunu] and
    the 3 eigenvalues multiplied by one factor [beta], and the primitive
    variables kept.  What it printed is at most the failure messages of the
    first and of the third bisection, followed, exactly when the energy
    density exceeds 0.01, by one record (factor, energy density, proper
    time) appended to the reduction-factor log.  When none of the three
    sufficiency functions is negative at the factor selected from the
    conditions, that factor is [beta] and nothing is printed. *)
Theorem sCausalityConstraints_rescales fuel c tau out c' :
  sCausalityConstraints self fuel c tau = (out, Ret c') ->
  exists beta msgs,
    c' = {| epsilon := epsilon c; rhob := rhob c; u := u c;
            Wmunu := (fun pi => pi * beta) <$> Wmunu c;
            Lambdas := (fun lam => lam * beta) <$> Lambdas c;
            pi_b := pi_b c * beta |} /\
    out = msgs
          ++ (if 0.01 <? epsilon c
              then [Append "sufficient_causality_reduction_factor_wtau.dat"
                      [Dbl beta; Str "   "; Dbl (epsilon c); Str "   "; Dbl tau]]
              else []) /\
    (exists m5 m8 : bool,
       msgs = (if m5 then [Cout [Str "Suff5 Fails Binary Search"]] else [])
              ++ (if m8 then [Cout [Str "Suff8 Fails Binary Search"]] else [])) /\
    ((Suff5 self (sCausality_minBeta self c) c <? 0) = false ->
     (Suff7 self (sCausality_minBeta self c) c <? 0) = false ->
     (Suff8 self (sCausality_minBeta self c) c <? 0) = false ->
     beta = sCausality_minBeta self c /\ msgs = []).
Proof.
  unfold sCausalityConstraints.
  pose proof (Suff5_stage_out fuel c (sCausality_minBeta self c)) as H5.
  destruct (Suff5_stage self fuel c (sCausality_minBeta self c))
    as [out5 [b5| |]]; cbn [bind]; [|discriminate|discriminate].
  pose proof (Suff7_stage_result fuel c b5) as H7.
  destruct (Suff7_stage self fuel c b5) as [out7 [b7| |]];
    cbn [bind]; [|discriminate|discriminate].
  pose proof (Suff8_stage_out fuel c b7) as H8.
  destruct (Suff8_stage self fuel c b7) as [out8 [b8| |]];
    cbn [bind]; [|discriminate|discriminate].
  destruct H5 as [Ho5 Hq5]. destruct H7 as [Ho7 Hq7]. destruct H8 as [Ho8 Hq8].
  subst out7.
  destruct (0.01 <? epsilon c); cbn [bind emit ret app]; rewrite ?app_nil_r;
    intros [= <- <-]; exists b8, (out5 ++ out8);
    (split; [reflexivity|]); (split; [now rewrite ?app_nil_r, ?app_assoc|]);
    (split; [|intros N5 N7 N8; destruct (Hq5 N5) as [-> ->];
              rewrite N7 in Hq7; subst b7; destruct (Hq8 N8) as [-> ->]; auto]).
  all: destruct Ho5 as [->| ->], Ho8 as [->| ->];
      [exists false, false|exists false, true|exists true, false|exists true, true];
      reflexivity.
Qed.

(** X13.  A bracket [0, minBeta] that is not wider than 1e-4 is accepted by
    the search at once, with [result] still the 0 it was initialised with:
    when a sufficiency function is negative at such a [minBeta], its stage
    sets the factor to 0 and prints nothing. *)
Theorem sCausality_narrow_bracket fuel c minBeta :
  (1e-4 <? minBeta - 0) = false ->
  ((Suff5 self minBeta c <? 0) = true ->
   Suff5_stage self fuel c minBeta = ([], Ret 0)) /\
  ((Suff7 self minBeta c <? 0) = true ->
   Suff7_stage self fuel c minBeta = ([], Ret 0)) /\
  ((Suff8 self minBeta c <? 0) = true ->
   Suff8_stage self fuel c minBeta = ([], Ret 0)).
Proof.
  intros Hnarrow.
  assert (Hb : forall func, BinarySearch fuel 0 minBeta func 0 = ([], Ret (true, 0))).
  { intros func. destruct fuel; cbn [BinarySearch]; now rewrite Hnarrow. }
  refine (conj _ (conj _ _)); intros Hneg.
  - unfold Suff5_stage. now rewrite Hneg, Hb.
  - unfold Suff7_stage. now rewrite Hneg, Hb.
  - unfold Suff8_stage. now rewrite Hneg, Hb.
Qed.

End Bisections.

(** A run of X12: the cell under compression, with a bulk relaxation factor
    of 10; its energy density is 2, so the record is appended. *)
Lemma sCausalityConstraints_rescales_witness :
  exists beta msgs,
    sCausalityConstraints (example_Advance_with 0.1 0.5 5 10) 64 compressed_cell 1
    = (msgs ++ [Append "sufficient_causality_reduction_factor_wtau.dat"
                  [Dbl beta; Str "   "; Dbl 2; Str "   "; Dbl 1]],
       Ret (rescaled beta compressed_cell)).
Proof.
  assert (E : exists out c',
            sCausalityConstraints (example_Advance_with 0.1 0.5 5 10) 64
                                  compressed_cell 1 = (out, Ret c'))
    by (eexists; eexists; vm_compute; reflexivity).
  destruct E as (out & c' & E).
  destruct (sCausalityConstraints_rescales _ _ _ _ _ _ E)
    as (beta & msgs & Hc & Hout & _).
  exists beta, msgs. rewrite E, Hc, Hout. reflexivity.
Defined.

(** A run of X13: at a squared speed of sound of 0.9 the first sufficiency
    function is negative at the factor 5e-5, and the stage answers 0. *)
Lemma sCausality_narrow_bracket_witness :
  Suff5_stage (example_Advance_with 0.9 0.5 5 (1 / 14.55)) 64 current_cell 5e-5
  = ([], Ret 0).
Proof.
  apply (sCausality_narrow_bracket (example_Advance_with 0.9 0.5 5 (1 / 14.55))
           64 current_cell 5e-5); vm_compute; reflexivity.
Defined.

(** ** sCausalityConstraints: when the bisection is refused *)




Section Refused_bisections.
Variable self : Advance.


End Refused_bisections.


(** C6, as the claim has it, fails.  With a squared speed of sound of 0.9
    and the eigenvalues -25000, 0, 25000, the loop over the conditions
    selects the factor 2.8e-5.  [Suff5] is negative at both ends of the
    bracket [0, 2.8e-5], -4.84 and -9.16, but the bracket is not wider than
    1e-4: the search answers [true] without a look at the signs, the factor
    becomes the 0 that [result] started with, and no message is printed,
    although the squared speed of sound is not below 0.15. *)


(** ** The causality modules on a cell that violates nothing *)

Lemma rescaled_1_eq c : rescaled 1 c = c.
Proof.
  destruct c as [e r uu W L p]. unfold rescaled. cbn [epsilon rhob u Wmunu Lambdas pi_b].
  now rewrite mul_1_r, !fmap_mul_1.
Qed.

Lemma sCausality_beta_eq self c i :
  sCausality_beta self c i =
  if (sCausality_sCondition self c !!! i) <? 0
  then sCausality_beta self c i else 1.
Proof.
  destruct ((sCausality_sCondition self c !!! i) <? 0) eqn:H; [reflexivity|].
  unfold sCausality_beta. unfold sCausality_sCondition in H.
  cbv beta iota zeta in H |- *. now rewrite H.
Qed.

(** X14.  On a cell whose four necessary-condition values are not negative,
    [nCausalityConstraints] selects the factor 1 and returns the cell as it
    is.  On a cell whose three sufficient-condition values are not negative
    and at which [Suff5], [Suff7] and [Suff8] are not negative for the
    factor 1, [sCausalityConstraints] returns the cell as it is, without a
    bisection.  (Multiplying a double by 1.0 is exact.) *)
Theorem causality_modules_keep_causal_cells self fuel c tau :
  ((forall i, (i < 4)%nat -> (nCausality_nCondition self c !!! i <? 0) = false) ->
   nCausality_minAlp self c = 1 /\
   snd (nCausalityConstraints self c tau) = Ret c) /\
  ((forall i, (i < 3)%nat -> (sCausality_sCondition self c !!! i <? 0) = false) ->
   (Suff5 self 1 c <? 0) = false -> (Suff7 self 1 c <? 0) = false ->
   (Suff8 self 1 c <? 0) = false ->
   sCausality_minBeta self c = 1 /\
   snd (sCausalityConstraints self fuel c tau) = Ret c).
Proof.
  split.
  - intros Hnn.
    assert (Hone : nCausality_minAlp self c = 1).
    { unfold nCausality_minAlp. cbn [for_loop].
      unfold nCausality_alp. rewrite !Hnn by lia. reflexivity. }
    split; [exact Hone|].
    rewrite nCausalityConstraints_eq, Hone. cbn [snd]. now rewrite rescaled_1_eq.
  - intros Hnn H5 H7 H8.
    assert (Hone : sCausality_minBeta self c = 1).
    { unfold sCausality_minBeta. cbn [for_loop].
      rewrite (sCausality_beta_eq self c 0), (sCausality_beta_eq self c 1),
              (sCausality_beta_eq self c 2).
      rewrite !Hnn by lia. reflexivity. }
    split; [exact Hone|].
    unfold sCausalityConstraints. rewrite Hone.
    unfold Suff5_stage. rewrite H5. cbn [bind ret].
    unfold Suff7_stage. rewrite H7. cbn [bind ret].
    unfold Suff8_stage. rewrite H8. cbn [bind ret].
    destruct (0.01 <? epsilon c); cbn [bind emit ret snd];
      change (Ret (rescaled 1 c) = Ret c); now rewrite rescaled_1_eq.
Qed.

(** A run of X14 with the sufficient-condition module: a cell without
    stress passes through. *)
Lemma causality_modules_keep_causal_cells_witness :
  snd (sCausalityConstraints (example_Advance_with (1 / 3) 0.5 5 (1 / 14.55)) 64
         current_cell 1) = Ret current_cell.
Proof.
  refine (proj2 (proj2 (causality_modules_keep_causal_cells
                          (example_Advance_with (1 / 3) 0.5 5 (1 / 14.55)) 64
                          current_cell 1) _ _ _ _)).
  - intros i Hi. destruct i as [|[|[|i]]]; [vm_compute; reflexivity..|lia].
  - vm_compute. reflexivity.
  - vm_compute. reflexivity.
  - vm_compute. reflexivity.
Defined.

(** ** MaxSpeed: the other ways out *)

Section MaxSpeed_more.
Variable ext : Extern.
Variable self : Advance.

(** X15.  [MaxSpeed] with an expression under the square root that is not
    [>= 0] (negative, or a NaN) and a [dpde] that is not below 0.001: twelve
    lines go to stderr, from "WARNING: in MaxSpeed." to "MaxSpeed:
    exiting.", and the process ends with status 1. *)
Theorem MaxSpeed_radicand_exit tau direc grid_p :
  (0 <=? MaxSpeed_num_temp_sqrt self direc grid_p) = false ->
  (get_dpde (eos self) (ReconstCell.e grid_p) (ReconstCell.rhob grid_p) <? 0.001)
  = false ->
  exists out,
    MaxSpeed ext self tau direc grid_p = (out, Exit 1) /\
    length out = 12%nat /\
    out !! 0%nat = Some (Stderr [Str "WARNING: in MaxSpeed. "]) /\
    out !! 1%nat =
      Some (Stderr [Str "Expression under sqrt in num=";
                    Dbl (MaxSpeed_num_temp_sqrt self direc grid_p)]) /\
    out !! 11%nat = Some (Stderr [Str "MaxSpeed: exiting."]).
Proof.
  intros Hrad Hdpde.
  unfold MaxSpeed, MaxSpeed_f, MaxSpeed_num.
  fold (MaxSpeed_num_temp_sqrt self direc grid_p). cbv zeta.
  fold (MaxSpeed_num_temp_sqrt self direc grid_p).
  rewrite Hrad, Hdpde.
  cbn [bind emit exit app]. eexists. split; [reflexivity|].
  repeat split.
Qed.

(** X16.  The last line of [MaxSpeed] multiplies the checked speed by
    [g[direc-1]] with [g = {1, 1, 1/tau}]: in the two transverse directions
    the call returns the checked speed itself, whatever [tau] is, and in the
    third it returns that speed times [1/tau]. *)
Theorem MaxSpeed_geometric_factor tau direc grid_p :
  (direc = 1%nat \/ direc = 2%nat ->
   MaxSpeed ext self tau direc grid_p = MaxSpeed_f ext self direc grid_p) /\
  (direc = 3%nat ->
   forall out f, MaxSpeed_f ext self direc grid_p = (out, Ret f) ->
     MaxSpeed ext self tau direc grid_p = (out, Ret (f * (1 / tau)))).
Proof.
  split.
  - intros Hd. unfold MaxSpeed.
    destruct (MaxSpeed_f ext self direc grid_p) as [out [f| |]];
      cbn [bind ret]; try reflexivity.
    rewrite app_nil_r.
    destruct Hd as [-> | ->]; cbn [Nat.sub lookup_total list_lookup_total];
      now rewrite mul_1_r.
  - intros -> out f Hf. unfold MaxSpeed. rewrite Hf. cbn [bind ret].
    now rewrite app_nil_r.
Qed.

End MaxSpeed_more.

(** A run of X15: a face whose [u] gives [utau^2 - ux^2 = -3], with a
    squared speed of sound and a [dpde] of 1/3. *)
Lemma MaxSpeed_radicand_exit_witness :
  MaxSpeed_num_temp_sqrt (example_Advance (1 / 3) 0.5 None) 1 spacelike_face
  = -0.55555555555555558 /\
  snd (MaxSpeed example_Extern (example_Advance (1 / 3) 0.5 None) 1 1 spacelike_face)
  = Exit 1.
Proof.
  split; [vm_compute; reflexivity|].
  destruct (MaxSpeed_radicand_exit example_Extern (example_Advance (1 / 3) 0.5 None)
              1 1 spacelike_face) as (out & -> & _).
  - vm_compute. reflexivity.
  - vm_compute. reflexivity.
  - reflexivity.
Defined.

(** A run of X16: the moving face of C5, along x at the proper times 1
    and 4. *)
Lemma MaxSpeed_geometric_factor_witness :
  MaxSpeed example_Extern (example_Advance (1 / 3) 0.5 None) 1 1 moving_face
  = MaxSpeed example_Extern (example_Advance (1 / 3) 0.5 None) 4 1 moving_face.
Proof.
  rewrite (proj1 (MaxSpeed_geometric_factor example_Extern
                    (example_Advance (1 / 3) 0.5 None) 1 1 moving_face)) by now left.
  rewrite (proj1 (MaxSpeed_geometric_factor example_Extern
                    (example_Advance (1 / 3) 0.5 None) 4 1 moving_face)) by now left.
  reflexivity.
Defined.

(** ** FirstRKStepT: a NaN among the energy-momentum sources *)

Section Source_more.
Variable ext : Extern.
Variable self : Advance.
Variable h : HydroSourceBase.
Hypothesis source_set : hydro_source_terms_ptr self = Some h.
Hypothesis flag_set : flag_add_hydro_source self = true.

Lemma hydro_source_first_nan tau_rk x_local y_local eta_s_local
    arena_current ix iy ieta ii :
  let j_mu := get_hydro_energy_source h tau_rk x_local y_local eta_s_local
                (u (arena_current ix iy ieta)) in
  (ii < 4)%nat ->
  is_nan (tau_rk * (j_mu !!! ii)) = true ->
  (forall jj, (jj < ii)%nat -> is_nan (tau_rk * (j_mu !!! jj)) = false) ->
  hydro_source self tau_rk x_local y_local eta_s_local arena_current ix iy ieta
  = ([MusicMessage "error" [Str "qi_source is nan. i = "; Int (Z.of_nat ii)]],
     Exit 0).
Proof.
  intros j_mu Hii Hnan Hbefore. unfold hydro_source.
  rewrite flag_set, source_set. fold j_mu.
  destruct ii as [|[|[|[|ii]]]]; [| | | |lia].
  - run_M. rewrite Hnan. reflexivity.
  - run_M. rewrite (Hbefore 0%nat) by lia. run_M. rewrite Hnan. reflexivity.
  - run_M. rewrite (Hbefore 0%nat) by lia. run_M.
    rewrite (Hbefore 1%nat) by lia. run_M. rewrite Hnan. reflexivity.
  - run_M. rewrite (Hbefore 0%nat) by lia. run_M.
    rewrite (Hbefore 1%nat) by lia. run_M.
    rewrite (Hbefore 2%nat) by lia. run_M. rewrite Hnan. reflexivity.
Qed.

(** X17.  [FirstRKStepT] with source terms switched on, once [MakeDeltaQI]
    has returned: if [tau_rk * j_mu[i]] is a NaN for one of the four
    energy-momentum entries, the process ends with status 0 at the first
    such [i], after the message "qi_source is nan. i = " with that [i]; no
    cell is written. *)
Theorem FirstRKStepT_nan_energy_source_exits tau x_local y_local eta_s_local
    arena_current arena_future arena_prev ix iy ieta rk_flag out1 qi ii :
  let tau_rk := tau + double_of_int rk_flag * delta_tau (DATA self) in
  let j_mu := get_hydro_energy_source h tau_rk x_local y_local eta_s_local
                (u (arena_current ix iy ieta)) in
  MakeDeltaQI ext tau_rk arena_current ix iy ieta rk_flag = (out1, Ret qi) ->
  (ii < 4)%nat ->
  is_nan (tau_rk * (j_mu !!! ii)) = true ->
  (forall jj, (jj < ii)%nat -> is_nan (tau_rk * (j_mu !!! jj)) = false) ->
  FirstRKStepT ext self tau x_local y_local eta_s_local
               arena_current arena_future arena_prev ix iy ieta rk_flag
  = (out1 ++ [MusicMessage "error"
                [Str "qi_source is nan. i = "; Int (Z.of_nat ii)]],
     Exit 0).
Proof.
  intros tau_rk j_mu HQ Hii Hnan Hbefore.
  unfold FirstRKStepT, FirstRKStepT_qi. fold tau_rk. rewrite HQ. cbn [bind].
  rewrite (hydro_source_first_nan tau_rk x_local y_local eta_s_local
             arena_current ix iy ieta ii Hii Hnan Hbefore).
  reflexivity.
Qed.

End Source_more.

(** A run of X17: a source whose second energy-momentum entry is a NaN. *)
Lemma FirstRKStepT_nan_energy_source_exits_witness :
  FirstRKStepT example_Extern (example_Advance (1 / 3) 0.5 (Some nan_energy_source))
               1 0 0 0 (uniform_grid current_cell) (uniform_grid current_cell)
               (uniform_grid previous_cell) 0 0 0 0
  = ([MusicMessage "error" [Str "qi_source is nan. i = "; Int 1]], Exit 0).
Proof.
  apply (FirstRKStepT_nan_energy_source_exits example_Extern
           (example_Advance (1 / 3) 0.5 (Some nan_energy_source)) nan_energy_source
           eq_refl eq_refl 1 0 0 0 (uniform_grid current_cell)
           (uniform_grid current_cell) (uniform_grid previous_cell) 0 0 0 0
           [] [2; 0; 0; 0; 0] 1%nat).
  - vm_compute. reflexivity.
  - lia.
  - vm_compute. reflexivity.
  - intros jj Hjj. replace jj with 0%nat by lia. vm_compute. reflexivity.
Defined.

(** ** AdvanceIt: the sweep over the grid *)

Lemma for_loopM_local (F : nat -> Z -> Z -> Z -> Prop)
    (body : nat -> SCGrid -> M SCGrid) n lo :
  (forall k, (lo <= k < lo + n)%nat -> local_on (F k) (body k)) ->
  (forall k k' x y e, (lo <= k < lo + n)%nat -> (lo <= k' < lo + n)%nat ->
     k <> k' -> F k x y e -> F k' x y e -> False) ->
  local_on (fun x y e => exists k, (lo <= k < lo + n)%nat /\ F k x y e)
           (for_loopM n lo body).
Proof.
  revert lo. induction n as [|n IH]; intros lo Hloc Hdisj.
  - split.
    + intros fut out fut' [= _ <-]. reflexivity.
    + intros fut1 fut2 Hag. cbn. split; [reflexivity|].
      intros x y e (k & Hk & _). lia.
  - assert (Hlo : local_on (F lo) (body lo)) by (apply Hloc; lia).
    assert (Hrest : local_on
              (fun x y e => exists k, (S lo <= k < S lo + n)%nat /\ F k x y e)
              (for_loopM n (S lo) body)).
    { apply IH.
      - intros k Hk. apply Hloc. lia.
      - intros k k' x y e Hk Hk'. apply Hdisj; lia. }
    destruct Hlo as [Hlo_frame Hlo_loc], Hrest as [Hrest_frame Hrest_loc].
    split.
    + intros fut out fut'. cbn [for_loopM].
      destruct (body lo fut) as [o1 [f1| |]] eqn:E1; cbn [bind];
        [|discriminate|discriminate].
      destruct (for_loopM n (S lo) body f1) as [o2 [f2| |]] eqn:E2;
        [|discriminate|discriminate].
      intros [= _ <-] x y e Hout.
      rewrite (Hrest_frame f1 o2 f2 E2).
      * apply (Hlo_frame fut o1 f1 E1). intros HF. apply Hout.
        exists lo. split; [lia|exact HF].
      * intros (k & Hk & HF). apply Hout. exists k. split; [lia|exact HF].
    + intros fut1 fut2 Hag. cbn [for_loopM].
      assert (Hag_lo : forall x y e, F lo x y e -> fut1 x y e = fut2 x y e).
      { intros x y e HF. apply Hag. exists lo. split; [lia|exact HF]. }
      pose proof (Hlo_loc fut1 fut2 Hag_lo) as H1.
      destruct (body lo fut1) as [o1 [f1| |]] eqn:E1,
               (body lo fut2) as [o1' [f1'| |]] eqn:E1';
        try contradiction; cbn [bind]; try exact H1.
      destruct H1 as [<- H1].
      assert (Hag' : forall x y e,
                (exists k, (S lo <= k < S lo + n)%nat /\ F k x y e) ->
                f1 x y e = f1' x y e).
      { intros x y e (k & Hk & HF).
        assert (Hnot : ~ F lo x y e).
        { intros HF0. apply (Hdisj lo k x y e); [lia|lia|lia|exact HF0|exact HF]. }
        rewrite (Hlo_frame fut1 o1 f1 E1 x y e Hnot).
        rewrite (Hlo_frame fut2 o1 f1' E1' x y e Hnot).
        apply Hag. exists k. split; [lia|exact HF]. }
      pose proof (Hrest_loc f1 f1' Hag') as H2.
      destruct (for_loopM n (S lo) body f1) as [o2 [f2| |]] eqn:E2,
               (for_loopM n (S lo) body f1') as [o2' [f2'| |]] eqn:E2';
        try contradiction.
      * destruct H2 as [<- H2]. split; [reflexivity|].
        intros x y e (k & Hk & HF).
        destruct (decide (k = lo)) as [->|Hne].
        -- assert (Hnot : ~ exists k, (S lo <= k < S lo + n)%nat /\ F k x y e).
           { intros (k' & Hk' & HF').
             apply (Hdisj lo k' x y e); [lia|lia|lia|exact HF|exact HF']. }
           rewrite (Hrest_frame f1 o2 f2 E2 x y e Hnot).
           rewrite (Hrest_frame f1' o2 f2' E2' x y e Hnot).
           now apply H1.
        -- apply H2. exists k. split; [lia|exact HF].
      * destruct H2 as [<- <-]. split; reflexivity.
      * now subst.
Qed.

(** When such a loop returns, each of its turns has returned, and has the
    outcome it would have had on the snapshot that the loop started from. *)
Lemma for_loopM_turnwise (F : nat -> Z -> Z -> Z -> Prop)
    (body : nat -> SCGrid -> M SCGrid) n lo fut out fut' :
  (forall k, (lo <= k < lo + n)%nat -> local_on (F k) (body k)) ->
  (forall k k' x y e, (lo <= k < lo + n)%nat -> (lo <= k' < lo + n)%nat ->
     k <> k' -> F k x y e -> F k' x y e -> False) ->
  for_loopM n lo body fut = (out, Ret fut') ->
  forall k, (lo <= k < lo + n)%nat ->
    exists o g, body k fut = (o, Ret g) /\
                forall x y e, F k x y e -> fut' x y e = g x y e.
Proof.
  revert lo fut out. induction n as [|n IH]; intros lo fut out Hloc Hdisj Hrun k Hk;
    [lia|].
  cbn [for_loopM] in Hrun.
  destruct (body lo fut) as [o1 [f1| |]] eqn:E1; cbn [bind] in Hrun;
    [|discriminate|discriminate].
  destruct (for_loopM n (S lo) body f1) as [o2 [f2| |]] eqn:E2;
    [|discriminate|discriminate].
  injection Hrun as _ <-.
  assert (Hloc' : forall k, (S lo <= k < S lo + n)%nat -> local_on (F k) (body k))
    by (intros k' Hk'; apply Hloc; lia).
  assert (Hdisj' : forall k k' x y e,
            (S lo <= k < S lo + n)%nat -> (S lo <= k' < S lo + n)%nat ->
            k <> k' -> F k x y e -> F k' x y e -> False)
    by (intros k1 k2 x y e H1 H2; apply Hdisj; lia).
  destruct (decide (k = lo)) as [->|Hne].
  - exists o1, f1. split; [exact E1|]. intros x y e HF.
    destruct (for_loopM_local F body n (S lo) Hloc' Hdisj') as [Hframe _].
    apply (Hframe f1 o2 f2 E2). intros (k' & Hk' & HF').
    apply (Hdisj lo k' x y e); [lia|lia|lia|exact HF|exact HF'].
  - destruct (IH (S lo) f1 o2 Hloc' Hdisj' E2 k ltac:(lia)) as (o & g & Eg & Hg).
    destruct (Hloc k ltac:(lia)) as [_ Hk_loc].
    destruct (Hloc lo ltac:(lia)) as [Hlo_frame _].
    assert (Hag : forall x y e, F k x y e -> f1 x y e = fut x y e).
    { intros x y e HF. apply (Hlo_frame fut o1 f1 E1). intros HF0.
      apply (Hdisj lo k x y e); [lia|lia|lia|exact HF0|exact HF]. }
    pose proof (Hk_loc f1 fut Hag) as H. rewrite Eg in H.
    destruct (body k fut) as [o' [g'| |]]; try contradiction.
    destruct H as [<- H]. exists o, g'. split; [reflexivity|].
    intros x y e HF. rewrite (Hg x y e HF). now apply H.
Qed.

Lemma local_on_iff (F G : Z -> Z -> Z -> Prop) body :
  (forall x y e, F x y e <-> G x y e) -> local_on F body -> local_on G body.
Proof.
  intros HFG [Hframe Hloc]. split.
  - intros fut out fut' Hrun x y e HG. apply (Hframe fut out fut' Hrun).
    intros HF. apply HG, HFG, HF.
  - intros fut1 fut2 Hag.
    assert (Hag' : forall x y e, F x y e -> fut1 x y e = fut2 x y e)
      by (intros x y e HF; apply Hag, HFG, HF).
    pose proof (Hloc fut1 fut2 Hag') as H.
    destruct (body fut1) as [o1 [g1| |]], (body fut2) as [o2 [g2| |]];
      try exact H.
    destruct H as [Ho H]. split; [exact Ho|].
    intros x y e HG. apply H, HFG, HG.
Qed.

Lemma set_cell_same arena ix iy ieta c : set_cell arena ix iy ieta c ix iy ieta = c.
Proof. unfold set_cell. now rewrite !Z.eqb_refl. Qed.

Lemma set_cell_other arena ix iy ieta c x y e :
  ~ (x = ix /\ y = iy /\ e = ieta) ->
  set_cell arena ix iy ieta c x y e = arena x y e.
Proof.
  intros Hne. unfold set_cell.
  destruct (Z.eqb_spec x ix), (Z.eqb_spec y iy), (Z.eqb_spec e ieta);
    cbn; try reflexivity. exfalso. auto.
Qed.

(** What every turn of a loop keeps, the loop keeps. *)
Lemma for_loopM_invariant {St : Type} (P : St -> Prop)
    (body : nat -> St -> M St) n lo s out s' :
  (forall k t o t', P t -> body k t = (o, Ret t') -> P t') ->
  P s -> for_loopM n lo body s = (out, Ret s') -> P s'.
Proof.
  intros Hstep. revert lo s out. induction n as [|n IH]; intros lo s out Hs.
  - intros [= _ <-]. exact Hs.
  - cbn [for_loopM].
    destruct (body lo s) as [o1 [t| |]] eqn:E1; cbn [bind];
      [|discriminate|discriminate].
    destruct (for_loopM n (S lo) body t) as [o2 [t'| |]] eqn:E2;
      [|discriminate|discriminate].
    intros [= _ <-]. exact (IH _ _ _ (Hstep _ _ _ _ Hs E1) E2).
Qed.

Section AdvanceIt_properties.
Variable ext : Extern.
Variable self : Advance.
Variable DATA_grid : InitData_grid.
Variable u_derivative_helper : U_derivative.
Variable fuel : nat.
Variable tau : float.
Variables arena_prev arena_current : SCGrid.
Variable rk_flag : Z.

#[local] Abbreviation cell_step :=
  (AdvanceIt_cell ext self DATA_grid u_derivative_helper fuel tau
                  arena_prev arena_current).

Lemma AdvanceIt_cell_local ieta ix iy :
  local_on (fun x y e => x = ix /\ y = iy /\ e = ieta)
           (fun fut => cell_step fut rk_flag ieta ix iy).
Proof.
  split.
  - intros fut out fut'. unfold AdvanceIt_cell.
    destruct (FirstRKStepT _ _ _ _ _ _ _ _ _ _ _ _ _) as [o1 [c1| |]];
      cbn [bind]; [|discriminate|discriminate].
    destruct (viscosity_flag DATA_grid =? 1)%Z.
    + destruct (FirstRKStepW _ _ _ _ _ _ _ _ _ _ _ _) as [o2 [c2| |]];
        cbn [bind ret]; [|discriminate|discriminate].
      intros [= _ <-] x y e Hne. now rewrite !set_cell_other.
    + cbn [ret]. intros [= _ <-] x y e Hne. now rewrite set_cell_other.
  - intros fut1 fut2 Hag. specialize (Hag ix iy ieta (conj eq_refl (conj eq_refl eq_refl))).
    unfold AdvanceIt_cell.
    unfold FirstRKStepT, FirstRKStepT_qi. rewrite Hag.
    destruct (MakeDeltaQI ext _ arena_current ix iy ieta rk_flag) as [oq [qi| |]];
      cbn [bind]; [|split; reflexivity|reflexivity].
    destruct (hydro_source self _ _ _ _ arena_current ix iy ieta) as [oh [qs| |]];
      cbn [bind ret]; [|split; reflexivity|reflexivity].
    destruct (viscosity_flag DATA_grid =? 1)%Z.
    + unfold FirstRKStepW, FirstRKStepW_evolve. rewrite !set_cell_same.
      destruct (FirstRKStepW_regulate _ _ _ _ _ _ _ _) as [o2 [c2| |]];
        cbn [bind ret]; [|split; reflexivity|reflexivity].
      split; [reflexivity|]. intros x y e (-> & -> & ->).
      now rewrite !set_cell_same.
    + cbn [ret]. split; [reflexivity|]. intros x y e (-> & -> & ->).
      now rewrite !set_cell_same.
Qed.

(** X18.  A sweep of [AdvanceIt] that returns has done, at every cell of the
    grid, what the loop body does for that cell on the [arena_future] that
    the sweep was called with: the body has returned there, and the cell of
    the result is the cell that it wrote.  Cells outside the grid are as
    they were.  (A turn reads and writes no other cell of [arena_future],
    so the order of the turns does not show in the result.) *)
Theorem AdvanceIt_cellwise arena_future grid_neta grid_nx grid_ny out arena_future' :
  AdvanceIt ext self DATA_grid u_derivative_helper fuel tau
            arena_prev arena_current arena_future rk_flag
            grid_neta grid_nx grid_ny = (out, Ret arena_future') ->
  (forall ieta ix iy,
     (ieta < grid_neta)%nat -> (ix < grid_nx)%nat -> (iy < grid_ny)%nat ->
     exists o g,
       AdvanceIt_cell ext self DATA_grid u_derivative_helper fuel tau
         arena_prev arena_current arena_future rk_flag
         (Z.of_nat ieta) (Z.of_nat ix) (Z.of_nat iy) = (o, Ret g) /\
       arena_future' (Z.of_nat ix) (Z.of_nat iy) (Z.of_nat ieta)
       = g (Z.of_nat ix) (Z.of_nat iy) (Z.of_nat ieta)) /\
  (forall x y e,
     ~ (0 <= e < Z.of_nat grid_neta /\ 0 <= x < Z.of_nat grid_nx
        /\ 0 <= y < Z.of_nat grid_ny)%Z ->
     arena_future' x y e = arena_future x y e).
Proof.
  set (Fy := fun (ieta ix iy : nat) (x y e : Z) =>
               x = Z.of_nat ix /\ y = Z.of_nat iy /\ e = Z.of_nat ieta).
  set (Fx := fun (ieta ix : nat) (x y e : Z) =>
               exists iy, (0 <= iy < 0 + grid_ny)%nat /\ Fy ieta ix iy x y e).
  set (Fe := fun (ieta : nat) (x y e : Z) =>
               exists ix, (0 <= ix < 0 + grid_nx)%nat /\ Fx ieta ix x y e).
  set (row := fun (ieta ix : nat) (fut : SCGrid) =>
                for_loopM grid_ny 0 (fun iy fut =>
                  cell_step fut rk_flag (Z.of_nat ieta) (Z.of_nat ix) (Z.of_nat iy))
                  fut).
  set (slab := fun (ieta : nat) (fut : SCGrid) =>
                 for_loopM grid_nx 0 (fun ix fut => row ieta ix fut) fut).
  assert (Hy_loc : forall ieta ix iy,
            local_on (Fy ieta ix iy)
              (fun fut => cell_step fut rk_flag (Z.of_nat ieta) (Z.of_nat ix)
                                    (Z.of_nat iy))).
  { intros ieta ix iy. apply AdvanceIt_cell_local. }
  assert (Hy_disj : forall ieta ix k k' x y e, k <> k' ->
            Fy ieta ix k x y e -> Fy ieta ix k' x y e -> False).
  { intros ieta ix k k' x y e Hne (_ & Hk & _) (_ & Hk' & _). lia. }
  assert (Hx_loc : forall ieta ix, local_on (Fx ieta ix) (row ieta ix)).
  { intros ieta ix. apply for_loopM_local.
    - intros k _. apply Hy_loc.
    - intros k k' x y e _ _. apply Hy_disj. }
  assert (Hx_disj : forall ieta k k' x y e, k <> k' ->
            Fx ieta k x y e -> Fx ieta k' x y e -> False).
  { intros ieta k k' x y e Hne (iy & _ & Hk & _) (iy' & _ & Hk' & _). lia. }
  assert (He_loc : forall ieta, local_on (Fe ieta) (slab ieta)).
  { intros ieta. apply for_loopM_local.
    - intros k _. apply Hx_loc.
    - intros k k' x y e _ _. apply Hx_disj. }
  assert (He_disj : forall k k' x y e, k <> k' ->
            Fe k x y e -> Fe k' x y e -> False).
  { intros k k' x y e Hne (ix & _ & iy & _ & _ & _ & Hk)
           (ix' & _ & iy' & _ & _ & _ & Hk'). lia. }
  intros Hrun. change (for_loopM grid_neta 0 slab arena_future
                       = (out, Ret arena_future')) in Hrun.
  split.
  - intros ieta ix iy Heta Hx Hy.
    destruct (for_loopM_turnwise Fe slab grid_neta 0 arena_future out arena_future'
                (fun k _ => He_loc k)
                (fun k k' x y e _ _ => He_disj k k' x y e) Hrun ieta ltac:(lia))
      as (o1 & g1 & E1 & H1).
    destruct (for_loopM_turnwise (Fx ieta) (row ieta) grid_nx 0 arena_future o1 g1
                (fun k _ => Hx_loc ieta k)
                (fun k k' x y e _ _ => Hx_disj ieta k k' x y e) E1 ix ltac:(lia))
      as (o2 & g2 & E2 & H2).
    destruct (for_loopM_turnwise (Fy ieta ix)
                (fun iy fut => cell_step fut rk_flag (Z.of_nat ieta) (Z.of_nat ix)
                                         (Z.of_nat iy))
                grid_ny 0 arena_future o2 g2
                (fun k _ => Hy_loc ieta ix k)
                (fun k k' x y e _ _ => Hy_disj ieta ix k k' x y e) E2 iy ltac:(lia))
      as (o3 & g3 & E3 & H3).
    exists o3, g3. split; [exact E3|].
    assert (HFy : Fy ieta ix iy (Z.of_nat ix) (Z.of_nat iy) (Z.of_nat ieta))
      by (repeat split).
    rewrite H1, H2, H3; [reflexivity|exact HFy| |].
    + exists iy. split; [lia|exact HFy].
    + exists ix. split; [lia|]. exists iy. split; [lia|exact HFy].
  - intros x y e Hout.
    destruct (for_loopM_local Fe slab grid_neta 0 (fun k _ => He_loc k)
                (fun k k' x y e _ _ => He_disj k k' x y e)) as [Hframe _].
    apply (Hframe arena_future out arena_future' Hrun).
    intros (ieta & He & ix & Hx & iy & Hy & -> & -> & ->). apply Hout. lia.
Qed.

(** X19.  With [viscosity_flag] other than 1, a sweep of [AdvanceIt] that
    returns has left [Wmunu], [Lambdas] and [pi_b] of every cell of
    [arena_future] as they were. *)
Theorem AdvanceIt_ideal_keeps_dissipative arena_future grid_neta grid_nx grid_ny
    out arena_future' :
  viscosity_flag DATA_grid <> 1%Z ->
  AdvanceIt ext self DATA_grid u_derivative_helper fuel tau
            arena_prev arena_current arena_future rk_flag
            grid_neta grid_nx grid_ny = (out, Ret arena_future') ->
  forall x y e,
    Wmunu (arena_future' x y e) = Wmunu (arena_future x y e) /\
    Lambdas (arena_future' x y e) = Lambdas (arena_future x y e) /\
    pi_b (arena_future' x y e) = pi_b (arena_future x y e).
Proof.
  intros Hoff Hrun. apply Z.eqb_neq in Hoff.
  set (P := fun g : SCGrid => forall x y e,
              Wmunu (g x y e) = Wmunu (arena_future x y e) /\
              Lambdas (g x y e) = Lambdas (arena_future x y e) /\
              pi_b (g x y e) = pi_b (arena_future x y e)).
  assert (Hcell : forall ieta ix iy g o g',
            P g -> cell_step g rk_flag ieta ix iy = (o, Ret g') -> P g').
  { intros ieta ix iy g o g' Hg. unfold AdvanceIt_cell.
    destruct (FirstRKStepT _ _ _ _ _ _ _ _ _ _ _ _ _) as [o1 [c1| |]] eqn:E1;
      cbn [bind]; [|discriminate|discriminate].
    rewrite Hoff. cbn [ret]. intros [= _ <-] x y e.
    destruct (decide (x = ix /\ y = iy /\ e = ieta)) as [(-> & -> & ->)|Hne].
    - rewrite set_cell_same.
      destruct (FirstRKStepT_dissipative _ _ _ _ _ _ _ _ _ _ _ _ _ _ _ E1)
        as (HW & HL & Hp).
      rewrite HW, HL, Hp. apply Hg.
    - rewrite set_cell_other by exact Hne. apply Hg. }
  refine (for_loopM_invariant P _ _ _ _ _ _ _ _ Hrun); [|now intros x y e].
  intros ieta g o g' Hg. apply (for_loopM_invariant P); [|exact Hg].
  intros ix g1 o1 g1' Hg1. apply (for_loopM_invariant P); [|exact Hg1].
  intros iy g2 o2 g2'. apply Hcell.
Qed.

End AdvanceIt_properties.

(** A run of X18: a sweep over two cells in eta with the viscous step
    switched on. *)
Lemma AdvanceIt_cellwise_witness :
  exists out arena_future',
    AdvanceIt example_Extern (example_Advance (1 / 3) 0.5 None) (example_DATA_grid 1)
      still_helper 64 1 (uniform_grid previous_cell) (uniform_grid current_cell)
      (uniform_grid current_cell) 0 2 1 1 = (out, Ret arena_future') /\
    (exists o g,
       AdvanceIt_cell example_Extern (example_Advance (1 / 3) 0.5 None)
         (example_DATA_grid 1) still_helper 64 1 (uniform_grid previous_cell)
         (uniform_grid current_cell) (uniform_grid current_cell) 0 1 0 0
       = (o, Ret g) /\
       arena_future' 0%Z 0%Z 1%Z = g 0%Z 0%Z 1%Z) /\
    arena_future' 0%Z 0%Z 2%Z = current_cell.
Proof.
  assert (E : exists out arena_future',
             AdvanceIt example_Extern (example_Advance (1 / 3) 0.5 None)
               (example_DATA_grid 1) still_helper 64 1 (uniform_grid previous_cell)
               (uniform_grid current_cell) (uniform_grid current_cell) 0 2 1 1
             = (out, Ret arena_future'))
    by (eexists; eexists; vm_compute; reflexivity).
  destruct E as (out & fut' & E). exists out, fut'. split; [exact E|].
  destruct (AdvanceIt_cellwise _ _ _ _ _ _ _ _ _ _ _ _ _ _ _ E) as [Hin Hout].
  split.
  - apply (Hin 1%nat 0%nat 0%nat); lia.
  - apply (Hout 0%Z 0%Z 2%Z). lia.
Defined.

(** A run of X19: the same sweep with the viscous step switched off. *)
Lemma AdvanceIt_ideal_keeps_dissipative_witness :
  exists out arena_future',
    AdvanceIt example_Extern (example_Advance (1 / 3) 0.5 None) (example_DATA_grid 0)
      still_helper 64 1 (uniform_grid previous_cell) (uniform_grid current_cell)
      (uniform_grid current_cell) 0 2 1 1 = (out, Ret arena_future') /\
    Wmunu (arena_future' 0%Z 0%Z 1%Z) = Wmunu current_cell.
Proof.
  assert (E : exists out arena_future',
             AdvanceIt example_Extern (example_Advance (1 / 3) 0.5 None)
               (example_DATA_grid 0) still_helper 64 1 (uniform_grid previous_cell)
               (uniform_grid current_cell) (uniform_grid current_cell) 0 2 1 1
             = (out, Ret arena_future'))
    by (eexists; eexists; vm_compute; reflexivity).
  destruct E as (out & fut' & E). exists out, fut'. split; [exact E|].
  apply (AdvanceIt_ideal_keeps_dissipative example_Extern
           (example_Advance (1 / 3) 0.5 None) (example_DATA_grid 0) still_helper
           64 1 (uniform_grid previous_cell) (uniform_grid current_cell) 0
           (uniform_grid current_cell) 2 1 1 out fut'); [|exact E].
  vm_compute. discriminate.
Defined.
